(** * streamlit-hub: the Uniswap-V3 teaching apps, their shared math and ledger core

    Shallow embedding of the three applications under [apps/]:
    - [apps/uniswapv3/app.py]                    (module [uniswapv3])
    - [apps/uniswapv3_first_swap/app.py]         (module [first_swap])
    - [apps/uniswapv3_manager_contract/app.py]   (module [manager_contract])

    Python [int] is [Z]; [//] on integers is [Z.div] (both floor); Python
    [float] is IEEE-754 binary64, embedded as [spec_float] with the Standard
    Library's executable operations at precision 53; a [dict] is a [gmap];
    an exception is a value of [exn] and a computation that can raise returns
    [exn + A]. *)

From Stdlib Require Import ZArith Lia Ascii Floats.SpecFloat.
From stdpp Require Import base option strings pretty gmap fin_maps.

Local Open Scope Z_scope.

(** ** Exceptions *)

Inductive exn : Type :=
  | ValueError (msg : string)
  | KeyError (key : string)
  | ZeroDivisionError (msg : string)
  | OverflowError (msg : string).

Definition result : Type -> Type := sum exn.

Definition Ok {A} (a : A) : result A := inr a.
Definition Raise {A} (e : exn) : result A := inl e.

#[export] Instance result_ret : MRet result := fun A a => Ok a.
#[export] Instance result_bind : MBind result := fun A B k r =>
  match r with
  | inl e => inl e
  | inr a => k a
  end.

(** ** binary64 *)

Module F64.

Definition prec : Z := 53.
Definition emax : Z := 1024.

Definition float : Type := spec_float.

Definition zero : float := S754_zero false.

Definition mul : float -> float -> float := SFmul prec emax.
Definition div : float -> float -> float := SFdiv prec emax.
Definition fsqrt : float -> float := SFsqrt prec emax.
Definition leb : float -> float -> bool := SFleb.
Definition ltb : float -> float -> bool := SFltb.

(** [float(n)] for an integer [n]: the nearest double, ties to even. *)
Definition of_int (n : Z) : result float :=
  match binary_normalize prec emax n 0 false with
  | S754_infinity _ => Raise (OverflowError "int too large to convert to float")
  | f => Ok f
  end.

(** The magnitude of a finite double as an integer, rounded down. *)
Definition mag_floor (m : positive) (e : Z) : Z :=
  if 0 <=? e then Z.pos m * 2 ^ e else Z.pos m / 2 ^ (- e).

(** The magnitude of a finite double as an integer, rounded up. *)
Definition mag_ceil (m : positive) (e : Z) : Z :=
  if 0 <=? e then Z.pos m * 2 ^ e else - ((- Z.pos m) / 2 ^ (- e)).

(** [int(x)]: truncation toward zero. *)
Definition to_int (x : float) : result Z :=
  match x with
  | S754_zero _ => Ok 0
  | S754_finite s m e => Ok (if s then - mag_floor m e else mag_floor m e)
  | S754_infinity _ => Raise (OverflowError "cannot convert float infinity to integer")
  | S754_nan => Raise (ValueError "cannot convert float NaN to integer")
  end.

(** [math.floor(x)]. *)
Definition floor (x : float) : result Z :=
  match x with
  | S754_zero _ => Ok 0
  | S754_finite s m e => Ok (if s then - mag_ceil m e else mag_floor m e)
  | S754_infinity _ => Raise (OverflowError "cannot convert float infinity to integer")
  | S754_nan => Raise (ValueError "cannot convert float NaN to integer")
  end.

(** [x / y] on floats. *)
Definition truediv (x y : float) : result float :=
  match y with
  | S754_zero _ => Raise (ZeroDivisionError "float division by zero")
  | _ => Ok (div x y)
  end.

(** [a / b] on two integers: the double nearest to the quotient, ties to
    even, whatever the size of [a] and [b]. *)
Definition int_truediv (a b : Z) : result float :=
  match b with
  | 0 => Raise (ZeroDivisionError "division by zero")
  | _ =>
      match a with
      | 0 => Ok (S754_zero (b <? 0))
      | _ =>
          match div (S754_finite (a <? 0) (Z.to_pos (Z.abs a)) 0)
                    (S754_finite (b <? 0) (Z.to_pos (Z.abs b)) 0) with
          | S754_infinity _ =>
              Raise (OverflowError "integer division result too large for a float")
          | q => Ok q
          end
      end
  end.

(** [math.sqrt(x)]. *)
Definition math_sqrt (x : float) : result float :=
  match x with
  | S754_finite true _ _ | S754_infinity true => Raise (ValueError "math domain error")
  | _ => Ok (fsqrt x)
  end.

(** [math.log(x)], over the C library's [log] on the positive finite
    doubles, which IEEE-754 does not pin down to the last bit. *)
Definition math_log (libm_log : float -> float) (x : float) : result float :=
  match x with
  | S754_finite false _ _ => Ok (libm_log x)
  | S754_infinity false => Ok x
  | S754_nan => Ok x
  | _ => Raise (ValueError "math domain error")
  end.

(** A decimal literal [n/d] (as [1.0001] is [10001/10000]): the double
    nearest to the quotient of two integers that are themselves doubles. *)
Definition literal (n d : Z) : float :=
  div (binary_normalize prec emax n 0 false) (binary_normalize prec emax d 0 false).

Definition one : float := literal 1 1.
Definition f1_0001 : float := literal 10001 10000.

(** The number a double stands for, compared with an integer [t]:
    [t <= x] and [x < t], by cross-multiplication with the power of two of
    the exponent. *)
Definition signed (s : bool) (m : positive) : Z := if s then Z.neg m else Z.pos m.

Definition int_le (t : Z) (x : float) : Prop :=
  match x with
  | S754_zero _ => t <= 0
  | S754_finite s m e =>
      if 0 <=? e then t <= signed s m * 2 ^ e else t * 2 ^ (- e) <= signed s m
  | S754_infinity s => s = false
  | S754_nan => False
  end.

Definition lt_int (x : float) (t : Z) : Prop :=
  match x with
  | S754_zero _ => 0 < t
  | S754_finite s m e =>
      if 0 <=? e then signed s m * 2 ^ e < t else signed s m < t * 2 ^ (- e)
  | S754_infinity s => s = true
  | S754_nan => False
  end.

End F64.

(** ** Format specifiers and string methods *)

Module pyformat.

(** The thousands grouping of the format specifier [,]: after a character
    that is followed by a positive multiple of three characters comes a
    separator. *)
Fixpoint group3 (sep : Ascii.ascii) (s : string) : string :=
  match s with
  | EmptyString => EmptyString
  | String c s' =>
      String c
        (if (0 <? String.length s')%nat && (String.length s' mod 3 =? 0)%nat
         then String sep (group3 sep s') else group3 sep s')
  end.

(** [format(n, ",")] for an integer. *)
Definition format_comma (n : Z) : string :=
  (if n <? 0 then "-" else "") +:+ group3 ","%char (pretty (Z.abs n)).

(** [s.replace(a, b)] for two one-character strings. *)
Fixpoint replace_char (a b : Ascii.ascii) (s : string) : string :=
  match s with
  | EmptyString => EmptyString
  | String c s' => String (if Ascii.eqb c a then b else c) (replace_char a b s')
  end.

(** [s] without the character [a]. *)
Fixpoint remove_char (a : Ascii.ascii) (s : string) : string :=
  match s with
  | EmptyString => EmptyString
  | String c s' => if Ascii.eqb c a then remove_char a s' else String c (remove_char a s')
  end.

Definition is_digit (c : Ascii.ascii) : bool :=
  (48 <=? Ascii.nat_of_ascii c)%nat && (Ascii.nat_of_ascii c <=? 57)%nat.

Fixpoint digits_only (s : string) : bool :=
  match s with
  | EmptyString => true
  | String c s' => is_digit c && digits_only s'
  end.

End pyformat.

(** ** apps/uniswapv3_first_swap/app.py *)

Module first_swap.

Definition Q96 : Z := 2 ^ 96.

(** [sqrtp_x96 / Q96] is a division of two integers; its square a product
    of floats. *)
Definition sqrtp_x96_to_price (sqrtp_x96 : Z) : result F64.float :=
  s ← F64.int_truediv sqrtp_x96 Q96;
  Ok (F64.mul s s).

Definition price_to_sqrtp_x96 (price : F64.float) : result Z :=
  s ← F64.math_sqrt price;
  q ← F64.of_int Q96;
  F64.to_int (F64.mul s q).

Section WithLibm.
(** The C library behind [math.log] and behind [**] on a float. *)
Variable libm_log : F64.float -> F64.float.
Variable float_pow : F64.float -> Z -> result F64.float.

Definition price_to_tick (price : F64.float) : result Z :=
  if F64.leb price F64.zero then Ok 0
  else
    n ← F64.math_log libm_log price;
    d ← F64.math_log libm_log F64.f1_0001;
    q ← F64.truediv n d;
    F64.floor q.

Definition tick_to_price (tick : Z) : result F64.float :=
  float_pow F64.f1_0001 tick.

Definition tick_to_sqrtp_x96 (tick : Z) : result Z :=
  p ← tick_to_price tick;
  price_to_sqrtp_x96 p.
End WithLibm.

Definition calc_amount1 (L sqrtp_b_x96 sqrtp_a_x96 : Z) : Z :=
  let '(sqrtp_b_x96, sqrtp_a_x96) :=
    if sqrtp_b_x96 <? sqrtp_a_x96 then (sqrtp_a_x96, sqrtp_b_x96)
    else (sqrtp_b_x96, sqrtp_a_x96) in
  (L * (sqrtp_b_x96 - sqrtp_a_x96)) / Q96.

Definition calc_amount0 (L sqrtp_b_x96 sqrtp_a_x96 : Z) : result Z :=
  let '(sqrtp_b_x96, sqrtp_a_x96) :=
    if sqrtp_b_x96 <? sqrtp_a_x96 then (sqrtp_a_x96, sqrtp_b_x96)
    else (sqrtp_b_x96, sqrtp_a_x96) in
  let num := L * (sqrtp_b_x96 - sqrtp_a_x96) * Q96 in
  let den := sqrtp_b_x96 * sqrtp_a_x96 in
  if den =? 0 then Raise (ZeroDivisionError "integer division or modulo by zero")
  else Ok (num / den).

Definition swap_token1_in_for_token0_out_single_range
    (L sqrtp_cur_x96 amount1_in : Z) : result (Z * Z) :=
  if L <=? 0 then Raise (ValueError "L must be > 0")
  else if sqrtp_cur_x96 <=? 0 then Raise (ValueError "sqrtP must be > 0")
  else if amount1_in <? 0 then Raise (ValueError "amount1_in must be >= 0")
  else
    let d_sqrtp := (amount1_in * Q96) / L in
    let sqrtp_next := sqrtp_cur_x96 + d_sqrtp in
    amount0_out ← calc_amount0 L sqrtp_next sqrtp_cur_x96;
    Ok (sqrtp_next, amount0_out).

(** The helpers of the display. *)
Section WithLibm.
Variable float_pow : F64.float -> Z -> result F64.float.

(** [raw / (10 ** decimals)]: a division of integers for a non-negative
    exponent; [10 ** decimals] is a float otherwise. *)
Definition to_units (raw decimals : Z) : result F64.float :=
  if 0 <=? decimals then F64.int_truediv raw (10 ^ decimals)
  else
    q ← float_pow (F64.literal 10 1) decimals;
    r ← F64.of_int raw;
    F64.truediv r q.
End WithLibm.

(** The grouped numeral with [_] for the separator. *)
Definition fmt_int (n : Z) : string :=
  pyformat.replace_char ","%char "_"%char (pyformat.format_comma n).

(** The values the page computes between "Perform swap" and "Human
    outputs", as a function of the raw inputs of that block. *)
Record swap_result : Type := {
  res_sqrtp_next_x96 : Z;
  res_amount0_out_raw : Z;
  res_price_next : F64.float;
  res_tick_next : Z;
  res_amount1_used_raw : Z;
  res_clamped : bool
}.

Section WithLibm.
Variable libm_log : F64.float -> F64.float.

Definition perform_swap
    (L sqrtp_cur_x96 amount1_in_raw sqrtp_lower_x96 sqrtp_upper_x96 : Z)
    (do_clamp : bool) : result swap_result :=
  '(sqrtp_next_x96, amount0_out_raw) ←
    swap_token1_in_for_token0_out_single_range L sqrtp_cur_x96 amount1_in_raw;
  let clamped := false in
  '(sqrtp_next_x96, amount0_out_raw, clamped) ←
    (if do_clamp then
       let '(sqrtp_next_x96, clamped) :=
         if sqrtp_next_x96 <? sqrtp_lower_x96 then (sqrtp_lower_x96, true)
         else (sqrtp_next_x96, clamped) in
       let '(sqrtp_next_x96, clamped) :=
         if sqrtp_next_x96 >? sqrtp_upper_x96 then (sqrtp_upper_x96, true)
         else (sqrtp_next_x96, clamped) in
       amount0_out_raw ← calc_amount0 L sqrtp_next_x96 sqrtp_cur_x96;
       Ok (sqrtp_next_x96, amount0_out_raw, clamped)
     else Ok (sqrtp_next_x96, amount0_out_raw, clamped));
  price_next ← sqrtp_x96_to_price sqrtp_next_x96;
  tick_next ← price_to_tick libm_log price_next;
  let amount1_used_raw :=
    if clamped : bool then calc_amount1 L sqrtp_next_x96 sqrtp_cur_x96
    else amount1_in_raw in
  Ok {| res_sqrtp_next_x96 := sqrtp_next_x96;
        res_amount0_out_raw := amount0_out_raw;
        res_price_next := price_next;
        res_tick_next := tick_next;
        res_amount1_used_raw := amount1_used_raw;
        res_clamped := clamped |}.
End WithLibm.

End first_swap.

(** ** apps/uniswapv3/app.py *)

Module uniswapv3.

Definition Q96_INT : Z := 2 ^ 96.

Section WithLibm.
Variable libm_log : F64.float -> F64.float.

Definition tick_from_price (P : F64.float) : result Z :=
  n ← F64.math_log libm_log P;
  d ← F64.math_log libm_log F64.f1_0001;
  q ← F64.truediv n d;
  F64.floor q.
End WithLibm.

Definition sqrtPriceX96_float (P : F64.float) : result Z :=
  s ← F64.math_sqrt P;
  q ← F64.of_int Q96_INT;
  F64.to_int (F64.mul s q).

(** The first division is one of integers, the second one of a float by an
    integer. *)
Definition liquidity0 (amount0_wei sqrtP_a sqrtP_b : Z) : result F64.float :=
  let '(sqrtP_a, sqrtP_b) :=
    if sqrtP_a >? sqrtP_b then (sqrtP_b, sqrtP_a) else (sqrtP_a, sqrtP_b) in
  x ← F64.int_truediv (amount0_wei * (sqrtP_a * sqrtP_b)) Q96_INT;
  d ← F64.of_int (sqrtP_b - sqrtP_a);
  F64.truediv x d.

Definition liquidity1 (amount1_wei sqrtP_a sqrtP_b : Z) : result F64.float :=
  let '(sqrtP_a, sqrtP_b) :=
    if sqrtP_a >? sqrtP_b then (sqrtP_b, sqrtP_a) else (sqrtP_a, sqrtP_b) in
  F64.int_truediv (amount1_wei * Q96_INT) (sqrtP_b - sqrtP_a).

Definition format_int (n : Z) : string := pyformat.format_comma n.

(** The sign in front, then the grouped numeral of the absolute value. *)
Definition format_big_diff (a b : Z) : string :=
  let d := a - b in
  let sign := if d >=? 0 then "+" else "-" in
  sign +:+ pyformat.format_comma (Z.abs d).

End uniswapv3.

(** ** apps/uniswapv3_manager_contract/app.py *)

Module manager_contract.

Definition Q96 : Z := 2 ^ 96.

Section WithLibm.
Variable libm_log : F64.float -> F64.float.
Variable float_pow : F64.float -> Z -> result F64.float.

Definition price_to_tick (price : F64.float) : result Z :=
  if F64.leb price F64.zero then Ok 0
  else
    n ← F64.math_log libm_log price;
    d ← F64.math_log libm_log F64.f1_0001;
    q ← F64.truediv n d;
    F64.floor q.

Definition tick_to_price (tick : Z) : result F64.float :=
  float_pow F64.f1_0001 tick.

Definition tick_to_sqrtp_x96 (tick : Z) : result Z :=
  p ← tick_to_price tick;
  s ← F64.math_sqrt p;
  q ← F64.of_int Q96;
  F64.to_int (F64.mul s q).
End WithLibm.

Definition sqrtp_x96_to_price (sqrtp_x96 : Z) : result F64.float :=
  s ← F64.int_truediv sqrtp_x96 Q96;
  Ok (F64.mul s s).

Definition amount1_delta (L sqrtp_b_x96 sqrtp_a_x96 : Z) : Z :=
  let '(sqrtp_b_x96, sqrtp_a_x96) :=
    if sqrtp_b_x96 <? sqrtp_a_x96 then (sqrtp_a_x96, sqrtp_b_x96)
    else (sqrtp_b_x96, sqrtp_a_x96) in
  (L * (sqrtp_b_x96 - sqrtp_a_x96)) / Q96.

Definition amount0_delta (L sqrtp_b_x96 sqrtp_a_x96 : Z) : result Z :=
  let '(sqrtp_b_x96, sqrtp_a_x96) :=
    if sqrtp_b_x96 <? sqrtp_a_x96 then (sqrtp_a_x96, sqrtp_b_x96)
    else (sqrtp_b_x96, sqrtp_a_x96) in
  let num := L * (sqrtp_b_x96 - sqrtp_a_x96) * Q96 in
  let den := sqrtp_b_x96 * sqrtp_a_x96 in
  if den =? 0 then Raise (ZeroDivisionError "integer division or modulo by zero")
  else Ok (num / den).

(** *** Objects

    [Token] objects are shared between the pool (fields [token0], [token1])
    and the manager (the dict [tokens]); they live in a store and are named
    by their location.  The session keeps one [Pool] and one event log. *)

Definition loc : Type := nat.

Record Token : Type := {
  symbol : string;
  decimals : Z;
  bal : gmap string Z;
  allow : gmap (string * string) Z
}.

Record CallbackData : Type := {
  token0_symbol : string;
  token1_symbol : string;
  payer : string
}.

Record Pool : Type := {
  address : string;
  token0 : loc;
  token1 : loc;
  sqrtp_x96 : Z;
  lower_tick : Z;
  upper_tick : Z;
  L : Z
}.

Record Manager : Type := {
  manager_address : string;
  tokens : gmap string loc
}.

Record World : Type := {
  store : gmap loc Token;
  pool : Pool;
  log : list string
}.

(** [Token(symbol, decimals)]. *)
Definition Token_init (symbol : string) (decimals : Z) : Token :=
  {| symbol := symbol; decimals := decimals; bal := ∅; allow := ∅ |}.

#[export] Instance Token_inhabited : Inhabited Token := populate (Token_init "" 0).

Definition with_bal (t : Token) (b : gmap string Z) : Token :=
  {| symbol := symbol t; decimals := decimals t; bal := b; allow := allow t |}.

Definition with_allow (t : Token) (a : gmap (string * string) Z) : Token :=
  {| symbol := symbol t; decimals := decimals t; bal := bal t; allow := a |}.

Definition with_range (p : Pool) (lo up : Z) : Pool :=
  {| address := address p; token0 := token0 p; token1 := token1 p;
     sqrtp_x96 := sqrtp_x96 p; lower_tick := lo; upper_tick := up; L := L p |}.

Definition with_L (p : Pool) (l : Z) : Pool :=
  {| address := address p; token0 := token0 p; token1 := token1 p;
     sqrtp_x96 := sqrtp_x96 p; lower_tick := lower_tick p;
     upper_tick := upper_tick p; L := l |}.

Definition with_sqrtp_x96 (p : Pool) (s : Z) : Pool :=
  {| address := address p; token0 := token0 p; token1 := token1 p;
     sqrtp_x96 := s; lower_tick := lower_tick p;
     upper_tick := upper_tick p; L := L p |}.

(** *** Statements: a state monad in which a raise keeps the writes made
    before it *)

Definition M (A : Type) : Type := World -> result A * World.

#[export] Instance M_ret : MRet M := fun A a w => (Ok a, w).
#[export] Instance M_bind : MBind M := fun A B k m w =>
  match m w with
  | (inl e, w') => (inl e, w')
  | (inr a, w') => k a w'
  end.

Definition raise {A} (e : exn) : M A := fun w => (Raise e, w).

(** A pure computation that may raise. *)
Definition lift {A} (r : result A) : M A := fun w => (r, w).

Definition get_token (self : loc) : M Token := fun w => (Ok (store w !!! self), w).

Definition put_token (self : loc) (t : Token) : M unit := fun w =>
  (Ok tt, {| store := <[self := t]> (store w); pool := pool w; log := log w |}).

Definition get_pool : M Pool := fun w => (Ok (pool w), w).

Definition put_pool (p : Pool) : M unit := fun w =>
  (Ok tt, {| store := store w; pool := p; log := log w |}).

(** [log.append(entry)]. *)
Definition log_append (entry : string) : M unit := fun w =>
  (Ok tt, {| store := store w; pool := pool w; log := log w ++ [entry] |}).

(** [d[key]] on a dict. *)
Definition getitem {A} (d : gmap string A) (key : string) : M A :=
  match d !! key with
  | Some a => mret a
  | None => raise (KeyError key)
  end.

Definition fmt (n : Z) : string := pretty n.

(** *** class Token *)

Section WithLibm.
Variable float_pow : F64.float -> Z -> result F64.float.

(** [10 ** decimals]: an integer for a non-negative exponent, a float
    otherwise, converted to a float by the multiplication or division it
    is an operand of. *)
Definition ten_pow_float (decimals : Z) : result F64.float :=
  if 0 <=? decimals then F64.of_int (10 ^ decimals)
  else float_pow (F64.literal 10 1) decimals.

(** [Token.raw(human)]. *)
Definition Token_raw (self : Token) (human : F64.float) : result Z :=
  q ← ten_pow_float (decimals self);
  F64.to_int (F64.mul human q).

(** [Token.human(raw_amt)]. *)
Definition Token_human (self : Token) (raw_amt : Z) : result F64.float :=
  if 0 <=? decimals self then F64.int_truediv raw_amt (10 ^ decimals self)
  else
    q ← float_pow (F64.literal 10 1) (decimals self);
    r ← F64.of_int raw_amt;
    F64.truediv r q.
End WithLibm.

Definition Token_balance_of (self : loc) (addr : string) : M Z :=
  t ← get_token self;
  mret (default 0 (bal t !! addr)).

Definition Token_mint (self : loc) (addr : string) (raw_amt : Z) : M unit :=
  b ← Token_balance_of self addr;
  t ← get_token self;
  put_token self (with_bal t (<[addr := b + raw_amt]> (bal t))).

Definition Token_approve (self : loc) (owner spender : string) (raw_amt : Z) : M unit :=
  t ← get_token self;
  put_token self (with_allow t (<[(owner, spender) := raw_amt]> (allow t))).

Definition Token_allowance (self : loc) (owner spender : string) : M Z :=
  t ← get_token self;
  mret (default 0 (allow t !! (owner, spender))).

(** [self.bal[addr] -= raw_amt]: the entry is read with [self.bal[addr]],
    which raises [KeyError] when it does not exist. *)
Definition Token_bal_isub (self : loc) (addr : string) (raw_amt : Z) : M unit :=
  t ← get_token self;
  b ← getitem (bal t) addr;
  put_token self (with_bal t (<[addr := b - raw_amt]> (bal t))).

Definition Token_transfer (self : loc) (sender to : string) (raw_amt : Z) : M unit :=
  if raw_amt <? 0 then raise (ValueError "transfer amount < 0")
  else
    b ← Token_balance_of self sender;
    if b <? raw_amt then
      t ← get_token self;
      raise (ValueError (symbol t +:+ ": insufficient balance"))
    else
      Token_bal_isub self sender raw_amt;;
      b_to ← Token_balance_of self to;
      t ← get_token self;
      put_token self (with_bal t (<[to := b_to + raw_amt]> (bal t))).

Definition Token_transfer_from (self : loc) (spender owner to : string) (raw_amt : Z)
    : M unit :=
  if raw_amt <? 0 then raise (ValueError "transferFrom amount < 0")
  else
    allowed ← Token_allowance self owner spender;
    if allowed <? raw_amt then
      t ← get_token self;
      raise (ValueError (symbol t +:+ ": allowance too low (allowed=" +:+ fmt allowed
                           +:+ ", need=" +:+ fmt raw_amt +:+ ")"))
    else
      b ← Token_balance_of self owner;
      if b <? raw_amt then
        t ← get_token self;
        raise (ValueError (symbol t +:+ ": owner balance too low"))
      else
        t ← get_token self;
        put_token self (with_allow t (<[(owner, spender) := allowed - raw_amt]> (allow t)));;
        Token_bal_isub self owner raw_amt;;
        b_to ← Token_balance_of self to;
        t ← get_token self;
        put_token self (with_bal t (<[to := b_to + raw_amt]> (bal t))).

(** *** class Manager: the callbacks *)

Definition Manager_uniswapV3MintCallback (self : Manager) (amount0 amount1 : Z)
    (data : CallbackData) : M unit :=
  t0 ← getitem (tokens self) (token0_symbol data);
  t1 ← getitem (tokens self) (token1_symbol data);
  (if amount0 >? 0 then
     p ← get_pool;
     Token_transfer_from t0 (manager_address self) (payer data) (address p) amount0;;
     s ← get_token t0;
     log_append ("MintCallback: transferFrom payer->" +:+ address p +:+ ": "
                   +:+ fmt amount0 +:+ " " +:+ symbol s)
   else mret tt);;
  (if amount1 >? 0 then
     p ← get_pool;
     Token_transfer_from t1 (manager_address self) (payer data) (address p) amount1;;
     s ← get_token t1;
     log_append ("MintCallback: transferFrom payer->" +:+ address p +:+ ": "
                   +:+ fmt amount1 +:+ " " +:+ symbol s)
   else mret tt).

Definition Manager_uniswapV3SwapCallback (self : Manager) (amount0 amount1 : Z)
    (data : CallbackData) : M unit :=
  t0 ← getitem (tokens self) (token0_symbol data);
  t1 ← getitem (tokens self) (token1_symbol data);
  (if amount0 >? 0 then
     p ← get_pool;
     Token_transfer_from t0 (manager_address self) (payer data) (address p) amount0;;
     s ← get_token t0;
     log_append ("SwapCallback: transferFrom payer->" +:+ address p +:+ ": "
                   +:+ fmt amount0 +:+ " " +:+ symbol s)
   else mret tt);;
  (if amount1 >? 0 then
     p ← get_pool;
     Token_transfer_from t1 (manager_address self) (payer data) (address p) amount1;;
     s ← get_token t1;
     log_append ("SwapCallback: transferFrom payer->" +:+ address p +:+ ": "
                   +:+ fmt amount1 +:+ " " +:+ symbol s)
   else mret tt).

(** *** class Pool *)

Section WithLibm.
Variable libm_log : F64.float -> F64.float.
Variable float_pow : F64.float -> Z -> result F64.float.

(** [Pool(address, token0, token1, price_init)]. *)
Definition Pool_init (address : string) (token0 token1 : loc) (price_init : F64.float)
    : result Pool :=
  s ← F64.math_sqrt price_init;
  q ← F64.of_int Q96;
  sqrtp ← F64.to_int (F64.mul s q);
  lo ← price_to_tick libm_log (F64.mul price_init (F64.literal 91 100));
  up ← price_to_tick libm_log (F64.mul price_init (F64.literal 110 100));
  Ok {| address := address; token0 := token0; token1 := token1;
        sqrtp_x96 := sqrtp; lower_tick := lo; upper_tick := up; L := 0 |}.

Definition Pool_set_range (lower_tick upper_tick : Z) : M unit :=
  if lower_tick >=? upper_tick then raise (ValueError "lower_tick must be < upper_tick")
  else
    p ← get_pool;
    put_pool (with_range p lower_tick upper_tick).

Definition Pool__required_amounts_for_liquidity (L_add : Z) : M (Z * Z) :=
  p ← get_pool;
  sqrtL ← lift (tick_to_sqrtp_x96 float_pow (lower_tick p));
  sqrtU ← lift (tick_to_sqrtp_x96 float_pow (upper_tick p));
  let sqrtC := sqrtp_x96 p in
  if negb ((sqrtL <=? sqrtC) && (sqrtC <=? sqrtU)) then
    raise (ValueError
             "Current price must be inside the range for this simplified mint.")
  else
    amt0 ← lift (amount0_delta L_add sqrtU sqrtC);
    let amt1 := amount1_delta L_add sqrtC sqrtL in
    mret (amt0, amt1).

Definition Pool_mint (owner : string) (lower_tick upper_tick liquidity : Z)
    (data : CallbackData) (manager : Manager) : M (Z * Z) :=
  Pool_set_range lower_tick upper_tick;;
  '(amt0, amt1) ← Pool__required_amounts_for_liquidity liquidity;
  Manager_uniswapV3MintCallback manager amt0 amt1 data;;
  p ← get_pool;
  put_pool (with_L p (L p + liquidity));;
  mret (amt0, amt1).

Definition Pool_swap_token1_in_for_token0_out (recipient : string) (amount1_in_raw : Z)
    (data : CallbackData) (manager : Manager) : M (Z * Z) :=
  p ← get_pool;
  if L p <=? 0 then raise (ValueError "Pool has no liquidity. Mint first.")
  else
    let sqrtC := sqrtp_x96 p in
    sqrtL ← lift (tick_to_sqrtp_x96 float_pow (lower_tick p));
    sqrtU ← lift (tick_to_sqrtp_x96 float_pow (upper_tick p));
    let d_sqrtp := (amount1_in_raw * Q96) / L p in
    let sqrtN := sqrtC + d_sqrtp in
    let sqrtN := if sqrtN >? sqrtU then sqrtU else sqrtN in
    let sqrtN := if sqrtN <? sqrtL then sqrtL else sqrtN in
    let amt1_used := amount1_delta (L p) sqrtN sqrtC in
    amt0_out ← lift (amount0_delta (L p) sqrtN sqrtC);
    Manager_uniswapV3SwapCallback manager (- amt0_out) amt1_used data;;
    b ← Token_balance_of (token0 p) (address p);
    (if b <? amt0_out then
       raise (ValueError
                "Pool token0 balance too low (mint provides balances; check mint step).")
     else mret tt);;
    Token_transfer (token0 p) (address p) recipient amt0_out;;
    p' ← get_pool;
    put_pool (with_sqrtp_x96 p' sqrtN);;
    mret (amt1_used, amt0_out).

(** *** class Manager: the entry points *)

Definition Manager_mint (self : Manager) (caller : string)
    (lower_tick upper_tick liquidity : Z) : M (Z * Z) :=
  p ← get_pool;
  s0 ← get_token (token0 p);
  s1 ← get_token (token1 p);
  let data := {| token0_symbol := symbol s0; token1_symbol := symbol s1;
                 payer := caller |} in
  log_append ("Manager.mint(pool=" +:+ address p +:+ ", caller=" +:+ caller
                +:+ ", L=" +:+ fmt liquidity +:+ ", ticks=[" +:+ fmt lower_tick
                +:+ "," +:+ fmt upper_tick +:+ "])");;
  '(amt0, amt1) ← Pool_mint caller lower_tick upper_tick liquidity data self;
  log_append ("Pool.mint computed required: amount0=" +:+ fmt amt0 +:+ " ("
                +:+ symbol s0 +:+ "), amount1=" +:+ fmt amt1 +:+ " ("
                +:+ symbol s1 +:+ ")");;
  mret (amt0, amt1).

Definition Manager_swap (self : Manager) (caller recipient : string)
    (token1_in_raw : Z) : M (Z * Z) :=
  p ← get_pool;
  s0 ← get_token (token0 p);
  s1 ← get_token (token1 p);
  let data := {| token0_symbol := symbol s0; token1_symbol := symbol s1;
                 payer := caller |} in
  log_append ("Manager.swap(pool=" +:+ address p +:+ ", caller=" +:+ caller
                +:+ ", recipient=" +:+ recipient +:+ ", token1_in="
                +:+ fmt token1_in_raw +:+ ")");;
  '(amt1_used, amt0_out) ←
    Pool_swap_token1_in_for_token0_out recipient token1_in_raw data self;
  log_append ("Pool.swap result: token1_used=" +:+ fmt amt1_used +:+ " ("
                +:+ symbol s1 +:+ "), token0_out=" +:+ fmt amt0_out +:+ " ("
                +:+ symbol s0 +:+ ")");;
  mret (amt1_used, amt0_out).
End WithLibm.

End manager_contract.

(** ** A session: the calls a user of the ledger and of the manager can make

    Every button of the page wraps its call in [try ... except], so a call
    that raises leaves the session running on whatever state the call had
    reached. *)

Module session.
Import manager_contract.

Inductive action : Type :=
  | Act_mint (self : loc) (addr : string) (raw_amt : Z)
  | Act_approve (self : loc) (owner spender : string) (raw_amt : Z)
  | Act_transfer (self : loc) (sender to : string) (raw_amt : Z)
  | Act_transfer_from (self : loc) (spender owner to : string) (raw_amt : Z)
  | Act_manager_mint (manager : Manager) (caller : string)
      (lower_tick upper_tick liquidity : Z)
  | Act_manager_swap (manager : Manager) (caller recipient : string) (token1_in_raw : Z).

Section WithLibm.
Variable float_pow : F64.float -> Z -> result F64.float.

Definition run_action (a : action) : M unit :=
  match a with
  | Act_mint self addr raw_amt => Token_mint self addr raw_amt
  | Act_approve self owner spender raw_amt => Token_approve self owner spender raw_amt
  | Act_transfer self sender to raw_amt => Token_transfer self sender to raw_amt
  | Act_transfer_from self spender owner to raw_amt =>
      Token_transfer_from self spender owner to raw_amt
  | Act_manager_mint manager caller lower_tick upper_tick liquidity =>
      Manager_mint float_pow manager caller lower_tick upper_tick liquidity;; mret tt
  | Act_manager_swap manager caller recipient token1_in_raw =>
      Manager_swap float_pow manager caller recipient token1_in_raw;; mret tt
  end.

Definition run (acts : list action) (w : World) : World :=
  fold_left (fun w a => snd (run_action a w)) acts w.
End WithLibm.

(** The sum of the balances of the token at [t] over all addresses. *)
Definition sum_bal (b : gmap string Z) : Z :=
  map_fold (fun _ v acc => v + acc) 0 b.

Definition total_supply (w : World) (t : loc) : Z :=
  sum_bal (bal (store w !!! t)).

(** What the [Token.mint] calls of a session add to the token at [t]. *)
Definition minted (t : loc) (acts : list action) : Z :=
  foldr (fun a acc =>
           match a with
           | Act_mint self _ raw_amt => if decide (self = t) then raw_amt + acc else acc
           | _ => acc
           end) 0 acts.

(** Reading the ledger. *)
Definition balance (w : World) (self : loc) (addr : string) : Z :=
  default 0 (bal (store w !!! self) !! addr).

Definition allowance_of (w : World) (self : loc) (owner spender : string) : Z :=
  default 0 (allow (store w !!! self) !! (owner, spender)).

(** The three writes of a transfer, on the token object. *)
Definition set_token (w : World) (self : loc) (t : Token) : World :=
  {| store := <[self := t]> (store w); pool := pool w; log := log w |}.

Definition spend (t : Token) (owner spender : string) (raw : Z) : Token :=
  with_allow t
    (<[(owner, spender) := default 0 (allow t !! (owner, spender)) - raw]> (allow t)).

Definition debit (t : Token) (b : Z) (addr : string) (raw : Z) : Token :=
  with_bal t (<[addr := b - raw]> (bal t)).

Definition credit (t : Token) (to : string) (raw : Z) : Token :=
  with_bal t (<[to := default 0 (bal t !! to) + raw]> (bal t)).

(** The other two writes of the page: a field of the pool, an entry of the
    log. *)
Definition set_pool (w : World) (p : Pool) : World :=
  {| store := store w; pool := p; log := log w |}.

Definition log_entry (w : World) (entry : string) : World :=
  {| store := store w; pool := pool w; log := log w ++ [entry] |}.

(** Relations between the world before and after a block. *)
Definition same_supply (w w' : World) : Prop :=
  forall t, total_supply w' t = total_supply w t.

Definition same_pool (w w' : World) : Prop := pool w' = pool w.

Section PoolArithmetic.
Variable float_pow : F64.float -> Z -> result F64.float.

(** The amounts [Pool._required_amounts_for_liquidity] computes, as a
    function of the pool it reads. *)
Definition required_amounts (p : Pool) (L_add : Z) : result (Z * Z) :=
  sqrtL ← tick_to_sqrtp_x96 float_pow (lower_tick p);
  sqrtU ← tick_to_sqrtp_x96 float_pow (upper_tick p);
  if negb ((sqrtL <=? sqrtp_x96 p) && (sqrtp_x96 p <=? sqrtU)) then
    Raise (ValueError "Current price must be inside the range for this simplified mint.")
  else
    amt0 ← amount0_delta L_add sqrtU (sqrtp_x96 p);
    Ok (amt0, amount1_delta L_add (sqrtp_x96 p) sqrtL).

(** The move [Pool.swap_token1_in_for_token0_out] computes before it
    calls back, as a function of the pool it reads:
    [(sqrtN, amt1_used, amt0_out)]. *)
Definition swap_quote (p : Pool) (amount1_in_raw : Z) : result (Z * Z * Z) :=
  sqrtL ← tick_to_sqrtp_x96 float_pow (lower_tick p);
  sqrtU ← tick_to_sqrtp_x96 float_pow (upper_tick p);
  let sqrtN := sqrtp_x96 p + (amount1_in_raw * Q96) / L p in
  let sqrtN := if sqrtN >? sqrtU then sqrtU else sqrtN in
  let sqrtN := if sqrtN <? sqrtL then sqrtL else sqrtN in
  amt0_out ← amount0_delta (L p) sqrtN (sqrtp_x96 p);
  Ok (sqrtN, amount1_delta (L p) sqrtN (sqrtp_x96 p), amt0_out).
End PoolArithmetic.

(** Invariants of the ledger and of the log, and the ledger after a move. *)

(** No address is overdrawn on any token. *)
Definition solvent (w : World) : Prop := forall t addr, 0 <= balance w t addr.

(** No allowance is negative. *)
Definition allowances_nonneg (w : World) : Prop :=
  forall t owner spender, 0 <= allowance_of w t owner spender.

(** An invariant of the world as a relation between the worlds before and
    after a block. *)
Definition preserved (Inv : World -> Prop) (w w' : World) : Prop := Inv w -> Inv w'.

Definition mints_nonneg (a : action) : Prop :=
  match a with Act_mint _ _ raw_amt => 0 <= raw_amt | _ => True end.

Definition approves_nonneg (a : action) : Prop :=
  match a with Act_approve _ _ _ raw_amt => 0 <= raw_amt | _ => True end.

Definition not_approve (a : action) : Prop :=
  match a with Act_approve _ _ _ _ => False | _ => True end.

(** No allowance is larger after than before. *)
Definition allowances_shrink (w w' : World) : Prop :=
  forall t owner spender, allowance_of w' t owner spender <= allowance_of w t owner spender.

(** The event log after extends the one before. *)
Definition log_grows (w w' : World) : Prop := log w `prefix_of` log w'.

(** [x] where the condition holds, [0] elsewhere. *)
Definition at_ (cond : Prop) `{Decision cond} (x : Z) : Z := if decide cond then x else 0.

(** The balance of [a] on token [l] once [raw] units of token [t] have gone
    from [src] to [dst]. *)
Definition after_move (bal0 : loc -> string -> Z) (t : loc) (src dst : string) (raw : Z)
    (l : loc) (a : string) : Z :=
  bal0 l a + at_ (l = t /\ a = dst) raw - at_ (l = t /\ a = src) raw.

(** The allowance of [(o, s)] on token [l] once [raw] units of the
    allowance of [(owner, spender)] on token [t] have been spent. *)
Definition after_spend (al0 : loc -> string -> string -> Z) (t : loc)
    (owner spender : string) (raw : Z) (l : loc) (o s : string) : Z :=
  al0 l o s - at_ (l = t /\ o = owner /\ s = spender) raw.

End session.

(** ** Concrete sessions

    The objects [init_state] builds (two tokens, the manager, one pool, Alice
    funded with 10 ETH and 200000 USDC), for running the code on examples. *)

Module demo.
Import manager_contract session.

(** [x ** n] by repeated multiplication.  It is exact, hence equal to what
    any C library returns, at the exponents [0] ([x ** 0] is [1.0]) and
    [1] ([x ** 1] is [x]); at the exponent [2] it is the correctly rounded
    square, which for [1.0001] is the double [0x1.000d1b9c68abep+0] that
    glibc's [pow] returns.  The runs below use the ticks 0, 1 and 2 only. *)
Definition float_pow (x : F64.float) (n : Z) : result F64.float :=
  let r := match n with
           | 0 => F64.one
           | Z.pos p => Pos.iter (F64.mul x) F64.one p
           | Z.neg p => F64.div F64.one (Pos.iter (F64.mul x) F64.one p)
           end in
  match r with
  | S754_infinity _ => Raise (OverflowError "(34, 'Numerical result out of range')")
  | _ => Ok r
  end.

Definition ETH : loc := 0%nat.
Definition USDC : loc := 1%nat.

Definition manager : Manager :=
  {| manager_address := "Manager"; tokens := {[ "ETH" := ETH; "USDC" := USDC ]} |}.

Definition data : CallbackData :=
  {| token0_symbol := "ETH"; token1_symbol := "USDC"; payer := "Alice" |}.

(** [int(math.sqrt(n/d) * Q96)], with [0] standing for a raise. *)
Definition sqrtp_of (n d : Z) : Z :=
  match first_swap.price_to_sqrtp_x96 (F64.literal n d) with
  | inr z => z
  | inl _ => 0
  end.

(** A pool at price [1.00005] with no liquidity yet. *)
Definition pool0 : Pool :=
  {| address := "Pool1"; token0 := ETH; token1 := USDC;
     sqrtp_x96 := sqrtp_of 100005 100000;
     lower_tick := -943; upper_tick := 953; L := 0 |}.

Definition world0 : World :=
  {| store := {[ ETH := credit (Token_init "ETH" 18) "Alice" (10 * 10 ^ 18);
                 USDC := credit (Token_init "USDC" 6) "Alice" (200000 * 10 ^ 6) ]};
     pool := pool0;
     log := [] |}.

(** Alice approves the manager for 10 ETH and for no USDC. *)
Definition world_eth_approved : World :=
  snd (Token_approve ETH "Alice" "Manager" (10 * 10 ^ 18) world0).

(** Alice approves the manager for both tokens. *)
Definition world_approved : World :=
  snd (Token_approve USDC "Alice" "Manager" (200000 * 10 ^ 6) world_eth_approved).

(** Then she mints liquidity [10^15] over the ticks [0, 1] through the
    manager. *)
Definition world_minted : World :=
  snd (Manager_mint float_pow manager "Alice" 0 1 (10 ^ 15) world_approved).

(** A mint she makes with only the ETH approval in place. *)
Definition failed_mint : result (Z * Z) * World :=
  Pool_mint float_pow "Alice" 0 1 (10 ^ 18) data manager world_eth_approved.

(** After [world_minted], a swap of one USDC ([10^6] raw units). *)
Definition swapped : result (Z * Z) * World :=
  Pool_swap_token1_in_for_token0_out float_pow "Alice" (10 ^ 6) data manager world_minted.

(** A stand-in for the C library's [log] in runs that return before
    calling it. *)
Definition no_log : F64.float -> F64.float := fun _ => S754_nan.

(** The natural logarithm at the doubles the runs below reach, correctly
    rounded, which is the value glibc's [log] returns there:
    [log(1.0) = 0.0]; [log(1.0001) = 0x1.a368d0657fcd4p-14];
    [log(0x1.000d1b9c68abep+0) = 0x1.a368d0657f412p-13], the logarithm of
    [1.0001 ** 2]; [log(4.0) = 0x1.62e42fefa39efp+0].  NaN stands for the
    values that are not tabulated. *)
Definition libm_log (x : F64.float) : F64.float :=
  match x with
  | S754_finite false m e =>
      if (m =? 4503599627370496)%positive && (e =? -52) then S754_zero false
      else if (m =? 4504049987333233)%positive && (e =? -52) then
        S754_finite false 7378328719195348 (-66)
      else if (m =? 4504500392331966)%positive && (e =? -52) then
        S754_finite false 7378328719193106 (-65)
      else if (m =? 4503599627370496)%positive && (e =? -50) then
        S754_finite false 6243314768165359 (-52)
      else S754_nan
  | _ => S754_nan
  end.

(** A token nobody holds yet, in a session of its own. *)
Definition world_fresh : World :=
  {| store := {[ ETH := Token_init "ETH" 18 ]}; pool := pool0; log := [] |}.
End demo.

(** ** Rounding to binary64

    Closed forms of the rounding done by the operations of [F64]: the
    vocabulary in which the order of their results is stated. *)

Module rounding.
Import F64.

Definition emin : Z := SpecFloat.emin prec emax.
Definition fexp : Z -> Z := SpecFloat.fexp prec emax.

(** Where a real lies between two neighbours [m] and [m + 1] of a grid, as
    one integer: [4 m] on [m], [4 m + 1] below the middle, [4 m + 2] on it,
    [4 m + 3] above it. *)
Definition code (m : Z) (l : location) : Z :=
  4 * m + match l with
          | loc_Exact => 0
          | loc_Inexact Lt => 1
          | loc_Inexact Eq => 2
          | loc_Inexact Gt => 3
          end.

Definition code_of_rec (mrs : shr_record) : Z :=
  4 * shr_m mrs + (if shr_r mrs then 2 else 0) + (if shr_s mrs then 1 else 0).

(** The code on the grid [2^n] times coarser. *)
Definition sshift (c n : Z) : Z :=
  2 * (c / 2 ^ (n + 1)) + (if c mod 2 ^ (n + 1) =? 0 then 0 else 1).

(** Round to nearest, ties to even, on a code. *)
Definition rne_code (c : Z) : Z :=
  c / 4 + (if c mod 4 =? 3 then 1
           else if c mod 4 =? 2 then (if Z.even (c / 4) then 0 else 1)
           else 0).

(** The last step of [binary_round_aux]: renormalise after the rounding
    carried, and overflow to infinity. *)
Definition round_finish (s : bool) (m : Z) (e : Z) : float :=
  let '(mrs, e') := shr_fexp prec emax m e loc_Exact in
  match shr_m mrs with
  | Z0 => S754_zero s
  | Zpos p => if e' <=? emax - prec then S754_finite s p e' else S754_infinity s
  | _ => S754_nan
  end.

(** The integer part of [m * 2^e], for [m >= 0]: rounded down and up. *)
Definition ifloor (m e : Z) : Z := if 0 <=? e then m * 2 ^ e else m / 2 ^ (- e).
Definition iceil (m e : Z) : Z := if 0 <=? e then m * 2 ^ e else - ((- m) / 2 ^ (- e)).

(** [m1 * 2^e1 <= m2 * 2^e2], both scaled to integers. *)
Definition vle (m1 e1 m2 e2 : Z) : Prop :=
  m1 * 2 ^ (e1 - Z.min e1 e2) <= m2 * 2 ^ (e2 - Z.min e1 e2).


(** A double the machine can hold. *)
Definition valid_double (x : float) : Prop := valid_binary prec emax x = true.

(** The integer nearest to the square root of [M]. *)
Definition isqrt_near (M : Z) : Z :=
  let q := Z.sqrt M in if M - q * q <=? q then q else q + 1.

(** The exponent of the square root of [m * 2^e]. *)
Definition sqrt_exp (m e : Z) : Z := Z.div2 (Zdigits2 m + e + 1) - 53.


(** The code of the rational [N / D] counted in half units: twice its
    floor, plus one when it is not an integer. *)
Definition sfloor (N D : Z) : Z := 2 * (N / D) + (if N mod D =? 0 then 0 else 1).

(** The quotient of [a * 2^ea] by [b * 2^eb], rounded to a double:
    mantissa and exponent handed to the last step. *)
Definition div_round (a ea b eb : Z) : Z * Z :=
  let e' := Z.min (fexp (Zdigits2 a + ea - (Zdigits2 b + eb))) (ea - eb) in
  let s := ea - eb - e' in
  let q := (a * 2 ^ s) / b in
  let E := fexp (Zdigits2 q + e') in
  (rne_code (sfloor (2 * (a * 2 ^ s)) (b * 2 ^ (E - e'))), E).


(** The exponent, the shift and the quotient of the division core. *)
Definition dcore_e (a ea b eb : Z) : Z :=
  Z.min (fexp (Zdigits2 a + ea - (Zdigits2 b + eb))) (ea - eb).
Definition dcore_s (a ea b eb : Z) : Z := ea - eb - dcore_e a ea b eb.
Definition dcore_q (a ea b eb : Z) : Z := (a * 2 ^ dcore_s a ea b eb) / b.

End rounding.

(** ** Vocabulary of the specification

    The error kinds of the specification, as the exceptions the code raises. *)

Definition NonPositiveLiquidity : exn := ValueError "L must be > 0".
Definition InvalidSqrtPrice : exn := ValueError "sqrtP must be > 0".
Definition NegativeAmount : exn := ValueError "amount1_in must be >= 0".
Definition MathDomainError : exn := ValueError "math domain error".

(** * Properties *)

(** ** Decimal literals and the fixed-point square-root price *)

Example ex_f1_0001 : F64.f1_0001 = S754_finite false 4504049987333233 (-52).
Proof. vm_compute. reflexivity. Qed.

Example ex_sqrtp_1 : first_swap.price_to_sqrtp_x96 F64.one = Ok (2 ^ 96).
Proof. vm_compute. reflexivity. Qed.

Example ex_sqrtp_5000 :
  first_swap.price_to_sqrtp_x96 (F64.literal 5000 1) = Ok 5602277097478614198912276234240.
Proof. vm_compute. reflexivity. Qed.

(** ** The single-range swap of the first-swap page *)

Section FirstSwap.
Import first_swap.

Lemma Q96_pos : 0 < Q96.
Proof. reflexivity. Qed.

Lemma calc_amount1_ge (L b a : Z) : a <= b -> calc_amount1 L b a = L * (b - a) / Q96.
Proof.
  intros Hab. unfold calc_amount1.
  destruct (Z.ltb_spec b a); [lia | reflexivity].
Qed.

Lemma calc_amount1_lt (L b a : Z) : b < a -> calc_amount1 L b a = L * (a - b) / Q96.
Proof.
  intros Hab. unfold calc_amount1.
  destruct (Z.ltb_spec b a); [reflexivity | lia].
Qed.

Lemma calc_amount0_pos (L b a : Z) :
  0 < a -> 0 < b -> exists out, calc_amount0 L b a = Ok out.
Proof.
  intros Ha Hb. unfold calc_amount0.
  destruct (b <? a).
  - destruct (Z.eqb_spec (a * b) 0); [nia | eauto].
  - destruct (Z.eqb_spec (b * a) 0); [nia | eauto].
Qed.

(** What the swap function returns on valid inputs. *)
Lemma swap_valid (L cur a : Z) :
  0 < L -> 0 < cur -> 0 <= a ->
  exists out,
    calc_amount0 L (cur + a * Q96 / L) cur = Ok out /\
    swap_token1_in_for_token0_out_single_range L cur a = Ok (cur + a * Q96 / L, out).
Proof.
  intros HL Hc Ha.
  assert (Hd : 0 <= a * Q96 / L) by (apply Z.div_pos; [pose proof Q96_pos; nia | lia]).
  destruct (calc_amount0_pos L (cur + a * Q96 / L) cur) as [out Hout]; [lia | lia |].
  exists out. split; [exact Hout |].
  unfold swap_token1_in_for_token0_out_single_range.
  destruct (Z.leb_spec L 0); [lia |].
  destruct (Z.leb_spec cur 0); [lia |].
  destruct (Z.ltb_spec a 0); [lia |].
  cbv zeta. rewrite Hout. reflexivity.
Qed.

(** The rounded-down step never asks for more token1 than was offered. *)
Lemma step_within_input (L a x : Z) :
  0 < L -> 0 <= x <= a * Q96 / L -> L * x / Q96 <= a.
Proof.
  intros HL [Hx0 Hx].
  pose proof Q96_pos as HQ.
  assert (Hm : L * (a * Q96 / L) <= a * Q96) by (apply Z.mul_div_le; lia).
  apply Z.div_le_upper_bound; [lia |]. nia.
Qed.

(** The block from the swap to the amount used, on valid inputs: the
    clamped price, the recomputed output, then the price and the tick of
    lines 212-213, which can still raise. *)
Lemma perform_swap_eq (libm_log : F64.float -> F64.float) (L cur a lo up : Z)
    (do_clamp : bool) :
  0 < L -> 0 < cur -> 0 <= a ->
  let n0 := cur + a * Q96 / L in
  let n1 := if do_clamp then (if n0 <? lo then lo else n0) else n0 in
  let n := if do_clamp then (if n1 >? up then up else n1) else n0 in
  let c := do_clamp && ((n0 <? lo) || (n1 >? up)) in
  perform_swap libm_log L cur a lo up do_clamp =
    (out ← calc_amount0 L n cur;
     p ← sqrtp_x96_to_price n;
     t ← price_to_tick libm_log p;
     Ok {| res_sqrtp_next_x96 := n;
           res_amount0_out_raw := out;
           res_price_next := p;
           res_tick_next := t;
           res_amount1_used_raw := if c then calc_amount1 L n cur else a;
           res_clamped := c |}).
Proof.
  intros HL Hc Ha.
  destruct (swap_valid L cur a HL Hc Ha) as (out & Hout & Hswap).
  unfold perform_swap. rewrite Hswap.
  cbv beta iota zeta delta [mbind result_bind Ok].
  destruct do_clamp; cbn [andb].
  - destruct (cur + a * Q96 / L <? lo);
      [destruct (lo >? up) | destruct (cur + a * Q96 / L >? up)];
      cbn [orb];
      match goal with
      | |- context [calc_amount0 ?l ?x ?y] => destruct (calc_amount0 l x y); reflexivity
      end.
  - rewrite Hout. reflexivity.
Qed.

(** What the block has computed when it returns. *)
Lemma perform_swap_unfold (libm_log : F64.float -> F64.float) (L cur a lo up : Z)
    (do_clamp : bool) (r : swap_result) :
  0 < L -> 0 < cur -> 0 <= a ->
  perform_swap libm_log L cur a lo up do_clamp = Ok r ->
  let n0 := cur + a * Q96 / L in
  let n1 := if do_clamp then (if n0 <? lo then lo else n0) else n0 in
  let n := if do_clamp then (if n1 >? up then up else n1) else n0 in
  let c := do_clamp && ((n0 <? lo) || (n1 >? up)) in
  res_sqrtp_next_x96 r = n /\
  res_clamped r = c /\
  res_amount1_used_raw r = (if c then calc_amount1 L n cur else a) /\
  calc_amount0 L n cur = Ok (res_amount0_out_raw r) /\
  sqrtp_x96_to_price n = Ok (res_price_next r) /\
  price_to_tick libm_log (res_price_next r) = Ok (res_tick_next r).
Proof.
  intros HL Hc Ha Hrun. rewrite (perform_swap_eq libm_log L cur a lo up do_clamp HL Hc Ha) in Hrun.
  cbv zeta in Hrun |- *.
  destruct (calc_amount0 L _ cur) as [e | out]; [discriminate |].
  destruct (sqrtp_x96_to_price _) as [e | p]; [discriminate |].
  cbv beta iota delta [mbind result_bind Ok] in Hrun.
  destruct (price_to_tick libm_log p) as [e | t] eqn:Ht; [discriminate |].
  injection Hrun as <-. cbn. auto 7.
Qed.

(** C9.  The swap function checks its inputs in the order liquidity, price,
    amount: [L <= 0] raises "L must be > 0"; otherwise [sqrtCurrent <= 0]
    raises "sqrtP must be > 0"; otherwise [amount1In < 0] raises
    "amount1_in must be >= 0"; and on valid inputs it returns
    [sqrtCurrent + deltaSqrt] where [deltaSqrt] is the floor of
    [amount1In * 2^96 / L], that is, the integer with
    [deltaSqrt * L <= amount1In * 2^96 < (deltaSqrt + 1) * L]. *)
Theorem C9_swap_rejects_bad_inputs (L cur a : Z) :
  (L <= 0 ->
     swap_token1_in_for_token0_out_single_range L cur a = Raise NonPositiveLiquidity) /\
  (0 < L -> cur <= 0 ->
     swap_token1_in_for_token0_out_single_range L cur a = Raise InvalidSqrtPrice) /\
  (0 < L -> 0 < cur -> a < 0 ->
     swap_token1_in_for_token0_out_single_range L cur a = Raise NegativeAmount) /\
  (0 < L -> 0 < cur -> 0 <= a ->
     exists deltaSqrt amount0_out,
       deltaSqrt * L <= a * 2 ^ 96 < (deltaSqrt + 1) * L /\
       swap_token1_in_for_token0_out_single_range L cur a
         = Ok (cur + deltaSqrt, amount0_out)).
Proof.
  unfold swap_token1_in_for_token0_out_single_range.
  repeat split.
  - intros HL. destruct (Z.leb_spec L 0); [reflexivity | lia].
  - intros HL Hc. destruct (Z.leb_spec L 0); [lia |].
    destruct (Z.leb_spec cur 0); [reflexivity | lia].
  - intros HL Hc Ha. destruct (Z.leb_spec L 0); [lia |].
    destruct (Z.leb_spec cur 0); [lia |].
    destruct (Z.ltb_spec a 0); [reflexivity | lia].
  - intros HL Hc Ha.
    destruct (swap_valid L cur a HL Hc Ha) as (out & _ & Hswap).
    exists (a * Q96 / L), out. split; [| exact Hswap].
    change (2 ^ 96) with Q96.
    pose proof (Z.mul_div_le (a * Q96) L HL).
    pose proof (Z.mul_succ_div_gt (a * Q96) L HL). lia.
Qed.

Lemma C9_swap_rejects_bad_inputs_witness :
  swap_token1_in_for_token0_out_single_range 0 1 1 = Raise NonPositiveLiquidity /\
  swap_token1_in_for_token0_out_single_range 1 0 1 = Raise InvalidSqrtPrice /\
  swap_token1_in_for_token0_out_single_range 1 1 (-1) = Raise NegativeAmount /\
  exists deltaSqrt amount0_out,
    deltaSqrt * 3 <= 1 * 2 ^ 96 < (deltaSqrt + 1) * 3 /\
    swap_token1_in_for_token0_out_single_range 3 (2 ^ 96) 1
      = Ok (2 ^ 96 + deltaSqrt, amount0_out).
Proof.
  split; [| split; [| split]].
  - apply (C9_swap_rejects_bad_inputs 0 1 1). lia.
  - apply (C9_swap_rejects_bad_inputs 1 0 1); lia.
  - apply (C9_swap_rejects_bad_inputs 1 1 (-1)); lia.
  - apply (C9_swap_rejects_bad_inputs 3 (2 ^ 96) 1); lia.
Defined.

(** C2, as stated, fails when the current price is outside the range: with
    [L = 2^96], the price at [2^96], nothing offered, and the range
    [[2 * 2^96, 3 * 2^96]], the page clamps up to the lower bound and
    reports [2^96] units of token1 used, more than the [0] offered. *)
Lemma C2_counterexample :
  perform_swap demo.libm_log (2 ^ 96) (2 ^ 96) 0 (2 * 2 ^ 96) (3 * 2 ^ 96) true
    = Ok {| res_sqrtp_next_x96 := 2 * 2 ^ 96;
            res_amount0_out_raw := 2 ^ 95;
            res_price_next := F64.literal 4 1;
            res_tick_next := 13863;
            res_amount1_used_raw := 2 ^ 96;
            res_clamped := true |}
  /\ 0 < 2 ^ 96 /\ 0 <= 0 /\ 2 * 2 ^ 96 < 3 * 2 ^ 96 /\ ~ (2 ^ 96 <= 0).
Proof. split; [vm_compute; reflexivity | lia]. Qed.

(** C2, amended.  For [L > 0], [sqrtCurrent > 0], [amount1In >= 0] and a
    range with [sqrtLower < sqrtUpper]: if the page reports [clamped], the
    new square-root price is exactly one of the two bounds, and, when the
    current price lies inside the range, [amount1Used <= amount1In]. *)
Theorem C2_clamp_correct (libm_log : F64.float -> F64.float) (L cur a lo up : Z)
    (do_clamp : bool) (r : swap_result) :
  0 < L -> 0 < cur -> 0 <= a -> lo < up ->
  perform_swap libm_log L cur a lo up do_clamp = Ok r ->
  res_clamped r = true ->
  (res_sqrtp_next_x96 r = lo \/ res_sqrtp_next_x96 r = up) /\
  (lo <= cur <= up -> res_amount1_used_raw r <= a).
Proof.
  intros HL Hc Ha Hlu Hrun Hcl.
  destruct (perform_swap_unfold libm_log L cur a lo up do_clamp r HL Hc Ha Hrun)
    as (Hn & Hclamped & Hused & _).
  rewrite Hcl in Hclamped. symmetry in Hclamped.
  rewrite Hclamped in Hused. rewrite Hn, Hused.
  assert (Hd : 0 <= a * Q96 / L) by (apply Z.div_pos; [pose proof Q96_pos; nia | lia]).
  destruct do_clamp; [| discriminate]. cbn in Hclamped |- *.
  destruct (Z.ltb_spec (cur + a * Q96 / L) lo) as [Hlo | Hlo].
  - destruct (Z.gtb_spec lo up); [lia |].
    split; [left; reflexivity | lia].
  - destruct (Z.gtb_spec (cur + a * Q96 / L) up) as [Hup | Hup]; [| discriminate].
    split; [right; reflexivity |].
    intros [_ Hcu]. rewrite calc_amount1_ge by lia.
    apply step_within_input; lia.
Qed.

Lemma C2_clamp_correct_witness :
  exists r,
    perform_swap demo.libm_log 1 (2 ^ 96) 5 (2 ^ 95) (2 ^ 97) true = Ok r /\
    res_clamped r = true /\
    (res_sqrtp_next_x96 r = 2 ^ 95 \/ res_sqrtp_next_x96 r = 2 ^ 97) /\
    res_amount1_used_raw r <= 5.
Proof.
  eexists. split; [vm_compute; reflexivity |]. split; [reflexivity |].
  pose proof (C2_clamp_correct demo.libm_log 1 (2 ^ 96) 5 (2 ^ 95) (2 ^ 97) true _
                ltac:(lia) ltac:(lia) ltac:(lia) ltac:(lia) eq_refl eq_refl) as [H1 H2].
  split; [exact H1 | apply H2; lia].
Defined.
End FirstSwap.

(** ** The state monad of the manager-contract page *)

Section MonadFacts.
Import manager_contract session.

Lemma bind_eq {A B} (m : M A) (k : A -> M B) (w : World) :
  (m ≫= k) w = match m w with (inl e, w') => (inl e, w') | (inr a, w') => k a w' end.
Proof. reflexivity. Qed.

Lemma bind_ok {A B} (m : M A) (k : A -> M B) (w w' : World) (a : A) :
  m w = (Ok a, w') -> (m ≫= k) w = k a w'.
Proof. intros H. rewrite bind_eq, H. reflexivity. Qed.

Lemma bind_raise {A B} (m : M A) (k : A -> M B) (w w' : World) (e : exn) :
  m w = (Raise e, w') -> (m ≫= k) w = (Raise e, w').
Proof. intros H. rewrite bind_eq, H. reflexivity. Qed.

(** A relation between the world before and after that every statement of
    a block keeps: it is kept by the block, raise or not. *)
Section Keeps.
Variable R : World -> World -> Prop.
Hypothesis R_refl : forall w, R w w.
Hypothesis R_trans : forall w1 w2 w3, R w1 w2 -> R w2 w3 -> R w1 w3.

Definition keeps {A} (m : M A) : Prop := forall w, R w (snd (m w)).

Lemma keeps_ret {A} (a : A) : keeps (mret a).
Proof. intros w. apply R_refl. Qed.

Lemma keeps_raise {A} (e : exn) : keeps (@raise A e).
Proof. intros w. apply R_refl. Qed.

Lemma keeps_lift {A} (r : result A) : keeps (lift r).
Proof. intros w. apply R_refl. Qed.

Lemma keeps_get_token (l : loc) : keeps (get_token l).
Proof. intros w. apply R_refl. Qed.

Lemma keeps_get_pool : keeps get_pool.
Proof. intros w. apply R_refl. Qed.

Lemma keeps_getitem {A} (d : gmap string A) (k : string) : keeps (getitem d k).
Proof. intros w. unfold getitem. destruct (d !! k); apply R_refl. Qed.

Lemma keeps_bind {A B} (m : M A) (k : A -> M B) :
  keeps m -> (forall a, keeps (k a)) -> keeps (m ≫= k).
Proof.
  intros Hm Hk w. rewrite bind_eq. specialize (Hm w).
  destruct (m w) as [[e | a] w1]; cbn in *; [exact Hm |].
  eapply R_trans; [exact Hm | apply Hk].
Qed.

Lemma keeps_if {A} (b : bool) (m1 m2 : M A) :
  keeps m1 -> keeps m2 -> keeps (if b then m1 else m2).
Proof. destruct b; auto. Qed.
End Keeps.
End MonadFacts.

(** ** The ledger *)

Section Ledger.
Import manager_contract session.

Lemma store_set_token w l t : store (set_token w l t) !!! l = t.
Proof. cbn. apply lookup_total_insert_eq. Qed.

Lemma store_set_token_ne w l l' t : l <> l' -> store (set_token w l t) !!! l' = store w !!! l'.
Proof. intros Hne. cbn. apply lookup_total_insert_ne. exact Hne. Qed.

Lemma set_token_twice w l t t' : set_token (set_token w l t) l t' = set_token w l t'.
Proof. unfold set_token; cbn. f_equal. apply insert_insert_eq. Qed.

Lemma Token_balance_of_eq self addr w :
  Token_balance_of self addr w = (Ok (balance w self addr), w).
Proof. reflexivity. Qed.

Lemma Token_allowance_eq self owner spender w :
  Token_allowance self owner spender w = (Ok (allowance_of w self owner spender), w).
Proof. reflexivity. Qed.

Lemma Token_mint_eq self addr raw w :
  Token_mint self addr raw w = (Ok tt, set_token w self (credit (store w !!! self) addr raw)).
Proof. reflexivity. Qed.

Lemma Token_approve_eq self owner spender raw w :
  Token_approve self owner spender raw w =
    (Ok tt, set_token w self
              (with_allow (store w !!! self)
                 (<[(owner, spender) := raw]> (allow (store w !!! self))))).
Proof. reflexivity. Qed.

Lemma Token_bal_isub_eq self addr raw w :
  Token_bal_isub self addr raw w =
    match bal (store w !!! self) !! addr with
    | Some b => (Ok tt, set_token w self (debit (store w !!! self) b addr raw))
    | None => (Raise (KeyError addr), w)
    end.
Proof.
  unfold Token_bal_isub. rewrite bind_eq. cbn.
  unfold getitem. destruct (bal (store w !!! self) !! addr); reflexivity.
Qed.

(** [Token.transfer], statement by statement. *)
Lemma Token_transfer_eq self sender to raw w :
  Token_transfer self sender to raw w =
    let t := store w !!! self in
    if raw <? 0 then (Raise (ValueError "transfer amount < 0"), w)
    else if balance w self sender <? raw then
      (Raise (ValueError (symbol t +:+ ": insufficient balance")), w)
    else match bal t !! sender with
         | None => (Raise (KeyError sender), w)
         | Some b => (Ok tt, set_token w self (credit (debit t b sender raw) to raw))
         end.
Proof.
  unfold Token_transfer. cbv zeta.
  destruct (raw <? 0); [reflexivity |].
  rewrite (bind_ok _ _ _ _ _ (Token_balance_of_eq _ _ _)).
  destruct (balance w self sender <? raw); [reflexivity |].
  rewrite bind_eq, Token_bal_isub_eq.
  destruct (bal (store w !!! self) !! sender) as [b |]; [| reflexivity].
  rewrite (bind_ok _ _ _ _ _ (Token_balance_of_eq _ _ _)).
  rewrite bind_eq. unfold get_token, put_token, balance.
  rewrite store_set_token.
  change {| store := <[self := ?t]> (store ?w); pool := pool ?w; log := log ?w |}
    with (set_token w self t).
  cbv beta iota delta [Ok]. rewrite set_token_twice. reflexivity.
Qed.

(** [Token.transfer_from], statement by statement. *)
Lemma Token_transfer_from_eq self spender owner to raw w :
  Token_transfer_from self spender owner to raw w =
    let t := store w !!! self in
    let allowed := allowance_of w self owner spender in
    if raw <? 0 then (Raise (ValueError "transferFrom amount < 0"), w)
    else if allowed <? raw then
      (Raise (ValueError (symbol t +:+ ": allowance too low (allowed=" +:+ fmt allowed
                            +:+ ", need=" +:+ fmt raw +:+ ")")), w)
    else if balance w self owner <? raw then
      (Raise (ValueError (symbol t +:+ ": owner balance too low")), w)
    else match bal t !! owner with
         | None => (Raise (KeyError owner), set_token w self (spend t owner spender raw))
         | Some b =>
             (Ok tt, set_token w self
                       (credit (debit (spend t owner spender raw) b owner raw) to raw))
         end.
Proof.
  unfold Token_transfer_from. cbv zeta.
  destruct (raw <? 0); [reflexivity |].
  rewrite (bind_ok _ _ _ _ _ (Token_allowance_eq _ _ _ _)).
  destruct (allowance_of w self owner spender <? raw); [reflexivity |].
  rewrite (bind_ok _ _ _ _ _ (Token_balance_of_eq _ _ _)).
  destruct (balance w self owner <? raw); [reflexivity |].
  rewrite bind_eq. unfold get_token at 1. cbv beta iota delta [Ok].
  rewrite bind_eq. unfold put_token at 1. cbv beta iota delta [Ok].
  change {| store := <[self := ?t]> (store ?w); pool := pool ?w; log := log ?w |}
    with (set_token w self t).
  rewrite bind_eq, Token_bal_isub_eq, store_set_token. cbn [bal with_allow].
  destruct (bal (store w !!! self) !! owner) as [b |]; [| reflexivity].
  rewrite set_token_twice.
  rewrite (bind_ok _ _ _ _ _ (Token_balance_of_eq _ _ _)).
  rewrite bind_eq. unfold get_token, put_token, balance.
  rewrite store_set_token.
  change {| store := <[self := ?t]> (store ?w); pool := pool ?w; log := log ?w |}
    with (set_token w self t).
  cbv beta iota delta [Ok]. rewrite set_token_twice. reflexivity.
Qed.

(** *** The sum of the balances *)

Lemma sum_bal_fresh (m : gmap string Z) (k : string) (v : Z) :
  m !! k = None -> sum_bal (<[k := v]> m) = v + sum_bal m.
Proof.
  intros Hk. unfold sum_bal.
  apply (map_fold_insert_L (fun _ v acc => v + acc)); [intros; lia | exact Hk].
Qed.

Lemma sum_bal_insert (m : gmap string Z) (k : string) (v : Z) :
  sum_bal (<[k := v]> m) = sum_bal m - default 0 (m !! k) + v.
Proof.
  destruct (m !! k) as [old |] eqn:Hk; cbn.
  - rewrite <- (insert_delete_eq m k v).
    rewrite <- (insert_delete_id m k old Hk) at 2.
    rewrite !sum_bal_fresh by apply lookup_delete_eq. lia.
  - rewrite sum_bal_fresh by exact Hk. lia.
Qed.

Lemma sum_bal_credit t to raw : sum_bal (bal (credit t to raw)) = sum_bal (bal t) + raw.
Proof. cbn. rewrite sum_bal_insert. lia. Qed.

Lemma sum_bal_debit t b addr raw :
  bal t !! addr = Some b -> sum_bal (bal (debit t b addr raw)) = sum_bal (bal t) - raw.
Proof. intros Hb. cbn. rewrite sum_bal_insert, Hb. cbn. lia. Qed.

Lemma total_supply_set_token w self t l :
  total_supply (set_token w self t) l =
    if decide (self = l) then sum_bal (bal t) else total_supply w l.
Proof.
  unfold total_supply. destruct (decide (self = l)) as [-> | Hne].
  - rewrite store_set_token. reflexivity.
  - rewrite store_set_token_ne by exact Hne. reflexivity.
Qed.

Lemma same_supply_refl w : same_supply w w.
Proof. intros t. reflexivity. Qed.

Lemma same_supply_trans w1 w2 w3 :
  same_supply w1 w2 -> same_supply w2 w3 -> same_supply w1 w3.
Proof. intros H12 H23 t. rewrite H23. apply H12. Qed.

#[local] Abbreviation conservative := (keeps same_supply).

Lemma same_supply_set_token w self t :
  sum_bal (bal t) = total_supply w self -> same_supply w (set_token w self t).
Proof.
  intros Hsum l. rewrite total_supply_set_token.
  destruct (decide (self = l)) as [<- |]; [exact Hsum | reflexivity].
Qed.

Lemma conservative_put_pool p : conservative (put_pool p).
Proof. intros w t. reflexivity. Qed.

Lemma conservative_log_append entry : conservative (log_append entry).
Proof. intros w t. reflexivity. Qed.

Lemma conservative_balance_of self addr : conservative (Token_balance_of self addr).
Proof. intros w t. reflexivity. Qed.

Lemma conservative_approve self owner spender raw :
  conservative (Token_approve self owner spender raw).
Proof.
  intros w. rewrite Token_approve_eq. cbn [snd].
  apply same_supply_set_token. reflexivity.
Qed.

Lemma conservative_transfer self sender to raw :
  conservative (Token_transfer self sender to raw).
Proof.
  intros w. rewrite Token_transfer_eq. cbv zeta.
  destruct (raw <? 0); [apply same_supply_refl |].
  destruct (balance w self sender <? raw); [apply same_supply_refl |].
  destruct (bal (store w !!! self) !! sender) as [b |] eqn:Hb; [| apply same_supply_refl].
  cbn [snd]. apply same_supply_set_token.
  rewrite sum_bal_credit, sum_bal_debit by exact Hb. unfold total_supply. lia.
Qed.

Lemma conservative_transfer_from self spender owner to raw :
  conservative (Token_transfer_from self spender owner to raw).
Proof.
  intros w. rewrite Token_transfer_from_eq. cbv zeta.
  destruct (raw <? 0); [apply same_supply_refl |].
  destruct (allowance_of w self owner spender <? raw); [apply same_supply_refl |].
  destruct (balance w self owner <? raw); [apply same_supply_refl |].
  destruct (bal (store w !!! self) !! owner) as [b |] eqn:Hb; cbn [snd];
    apply same_supply_set_token.
  - rewrite sum_bal_credit, sum_bal_debit by exact Hb. unfold total_supply. cbn. lia.
  - reflexivity.
Qed.

Create HintDb conserve.

#[local] Hint Resolve same_supply_refl same_supply_trans : conserve.
#[local] Hint Resolve keeps_ret keeps_raise keeps_lift keeps_get_token keeps_get_pool
  keeps_getitem conservative_put_pool conservative_log_append conservative_balance_of
  conservative_approve conservative_transfer conservative_transfer_from : conserve.

Ltac conserve :=
  repeat first
    [ solve [auto with conserve]
    | match goal with |- keeps _ (let '(_, _) := ?x in _) => destruct x end
    | match goal with |- keeps _ (if _ then _ else _) => apply keeps_if end
    | match goal with
      | |- keeps _ (mbind _ _) => apply keeps_bind; [exact same_supply_trans | | intros]
      end ].

Lemma conservative_mint_callback mgr amount0 amount1 data :
  conservative (Manager_uniswapV3MintCallback mgr amount0 amount1 data).
Proof. unfold Manager_uniswapV3MintCallback. conserve. Qed.

Lemma conservative_swap_callback mgr amount0 amount1 data :
  conservative (Manager_uniswapV3SwapCallback mgr amount0 amount1 data).
Proof. unfold Manager_uniswapV3SwapCallback. conserve. Qed.

#[local] Hint Resolve conservative_mint_callback conservative_swap_callback : conserve.

Section WithLibm.
Variable float_pow : F64.float -> Z -> result F64.float.

Lemma conservative_Manager_mint mgr caller lo up liq :
  conservative (Manager_mint float_pow mgr caller lo up liq).
Proof.
  unfold Manager_mint, Pool_mint, Pool_set_range, Pool__required_amounts_for_liquidity.
  conserve.
Qed.

Lemma conservative_Manager_swap mgr caller recipient amt :
  conservative (Manager_swap float_pow mgr caller recipient amt).
Proof.
  unfold Manager_swap, Pool_swap_token1_in_for_token0_out.
  conserve.
Qed.

Lemma run_action_supply (a : action) (w : World) (t : loc) :
  total_supply (snd (run_action float_pow a w)) t = total_supply w t + minted t [a].
Proof.
  destruct a; cbn [run_action minted foldr].
  - rewrite Token_mint_eq. cbn [snd]. rewrite total_supply_set_token.
    destruct (decide (self = t)) as [<- |]; [| lia].
    rewrite sum_bal_credit. unfold total_supply. lia.
  - rewrite conservative_approve. lia.
  - rewrite conservative_transfer. lia.
  - rewrite conservative_transfer_from. lia.
  - rewrite Z.add_0_r.
    apply (keeps_bind same_supply same_supply_trans);
      [apply conservative_Manager_mint | intros; apply keeps_ret; apply same_supply_refl].
  - rewrite Z.add_0_r.
    apply (keeps_bind same_supply same_supply_trans);
      [apply conservative_Manager_swap | intros; apply keeps_ret; apply same_supply_refl].
Qed.

Lemma minted_cons (t : loc) (a : action) (acts : list action) :
  minted t (a :: acts) = minted t [a] + minted t acts.
Proof.
  unfold minted. destruct a; cbn [foldr]; try lia.
  destruct (decide (self = t)); lia.
Qed.

Lemma run_cons (a : action) (acts : list action) (w : World) :
  run float_pow (a :: acts) w = run float_pow acts (snd (run_action float_pow a w)).
Proof. reflexivity. Qed.

Lemma run_supply (acts : list action) (w : World) (t : loc) :
  total_supply (run float_pow acts w) t = total_supply w t + minted t acts.
Proof.
  revert w. induction acts as [| a acts IH]; intros w.
  - cbn. lia.
  - rewrite run_cons, IH, run_action_supply, (minted_cons t a acts). lia.
Qed.

Lemma minted_none (t : loc) (acts : list action) :
  Forall (fun a => match a with Act_mint _ _ _ => False | _ => True end) acts ->
  minted t acts = 0.
Proof.
  induction 1 as [| a acts Ha _ IH]; [reflexivity |].
  rewrite minted_cons, IH. destruct a; cbn; try lia; destruct Ha.
Qed.

(** C5.  For every token [t]: over any session of ledger and manager
    calls, each of which may succeed or raise, the sum of the balances
    of [t] over all addresses changes by exactly the amounts of the
    [Token.mint] calls made on [t]; in particular a session of
    [transfer], [transfer_from], [approve], [Manager.mint] and
    [Manager.swap] calls leaves it unchanged, and a single
    [Token.mint] of [raw_amt] on [t] adds exactly [raw_amt]. *)
Theorem C5_supply_conserved (t : loc) :
  (forall acts w,
     total_supply (run float_pow acts w) t = total_supply w t + minted t acts) /\
  (forall acts w,
     Forall (fun a => match a with Act_mint _ _ _ => False | _ => True end) acts ->
     total_supply (run float_pow acts w) t = total_supply w t) /\
  (forall addr raw_amt w,
     Token_mint t addr raw_amt w = (Ok tt, snd (Token_mint t addr raw_amt w)) /\
     total_supply (snd (Token_mint t addr raw_amt w)) t = total_supply w t + raw_amt).
Proof.
  split; [| split].
  - intros acts w. apply run_supply.
  - intros acts w Hno. rewrite run_supply, minted_none by exact Hno. lia.
  - intros addr raw_amt w. split; [reflexivity |].
    rewrite Token_mint_eq. cbn [snd]. rewrite total_supply_set_token.
    destruct (decide (t = t)); [| contradiction].
    rewrite sum_bal_credit. reflexivity.
Qed.
End WithLibm.

(** *** The allowance gate *)

(** What [transfer_from] does on a non-negative amount when the owner has
    an entry in [bal] (as every address that was ever credited has). *)
Lemma transfer_from_gated self spender owner to raw w :
  0 <= raw ->
  let t := store w !!! self in
  let allowed := allowance_of w self owner spender in
  (allowed < raw ->
     Token_transfer_from self spender owner to raw w =
       (Raise (ValueError (symbol t +:+ ": allowance too low (allowed=" +:+ fmt allowed
                             +:+ ", need=" +:+ fmt raw +:+ ")")), w)) /\
  (raw <= allowed -> balance w self owner < raw ->
     Token_transfer_from self spender owner to raw w =
       (Raise (ValueError (symbol t +:+ ": owner balance too low")), w)) /\
  (raw <= allowed -> raw <= balance w self owner ->
     forall b, bal t !! owner = Some b ->
     exists w',
       Token_transfer_from self spender owner to raw w = (Ok tt, w') /\
       allowance_of w' self owner spender = allowed - raw /\
       balance w' self owner = (if decide (owner = to) then b else b - raw) /\
       balance w' self to =
         (if decide (owner = to) then b else balance w self to + raw) /\
       (forall a, a <> owner -> a <> to -> balance w' self a = balance w self a) /\
       (forall o s, (o, s) <> (owner, spender) ->
          allowance_of w' self o s = allowance_of w self o s) /\
       (forall l, l <> self -> store w' !!! l = store w !!! l) /\
       pool w' = pool w /\ log w' = log w).
Proof.
  intros Hraw t allowed. rewrite Token_transfer_from_eq. cbv zeta.
  fold t. fold allowed.
  destruct (Z.ltb_spec raw 0); [lia |].
  repeat split.
  - intros Hal. destruct (Z.ltb_spec allowed raw); [reflexivity | lia].
  - intros Hal Hb. destruct (Z.ltb_spec allowed raw); [lia |].
    destruct (Z.ltb_spec (balance w self owner) raw); [reflexivity | lia].
  - intros Hal Hbal b Hb. destruct (Z.ltb_spec allowed raw); [lia |].
    destruct (Z.ltb_spec (balance w self owner) raw); [lia |].
    rewrite Hb. eexists. split; [reflexivity |].
    unfold allowance_of, balance. rewrite !store_set_token. cbn.
    repeat split.
    + rewrite lookup_insert_eq. reflexivity.
    + destruct (decide (owner = to)) as [<- | Hne].
      * rewrite !lookup_insert_eq. cbn. lia.
      * rewrite lookup_insert_ne, lookup_insert_eq by congruence. reflexivity.
    + rewrite lookup_insert_eq. cbn.
      destruct (decide (owner = to)) as [<- | Hne].
      * rewrite lookup_insert_eq. cbn. lia.
      * rewrite lookup_insert_ne by congruence. reflexivity.
    + intros a Ha1 Ha2. rewrite !lookup_insert_ne by congruence. reflexivity.
    + intros o s Hos. rewrite lookup_insert_ne by congruence. reflexivity.
    + intros l Hl. apply lookup_total_insert_ne. congruence.
Qed.

(** C6, at an input on which the code departs from it: a [transfer_from]
    of [0] from an owner who has no entry in [bal] passes both checks
    (allowance [0 >= 0], balance [0 >= 0]), writes the allowance entry, and
    then raises [KeyError] on [self.bal[owner] -= raw_amt] instead of
    completing the transfer of nothing. *)
Theorem C6_transfer_from_zero_from_unknown_owner :
  allowance_of demo.world_fresh demo.ETH "Alice" "Manager" = 0 /\
  balance demo.world_fresh demo.ETH "Alice" = 0 /\
  Token_transfer_from demo.ETH "Manager" "Alice" "Pool1" 0 demo.world_fresh =
    (Raise (KeyError "Alice"),
     set_token demo.world_fresh demo.ETH
       (with_allow (Token_init "ETH" 18) {[ ("Alice", "Manager") := 0 ]})).
Proof. repeat split. Qed.
End Ledger.

(** ** The pool and the manager *)

Section PoolFacts.
Import manager_contract session.

Lemma transfer_from_raise_pos self spender owner to raw w e w' :
  0 < raw ->
  Token_transfer_from self spender owner to raw w = (Raise e, w') -> w' = w.
Proof.
  intros Hpos. rewrite Token_transfer_from_eq. cbv zeta.
  destruct (raw <? 0); [intros [= _ <-]; reflexivity |].
  destruct (allowance_of w self owner spender <? raw); [intros [= _ <-]; reflexivity |].
  destruct (Z.ltb_spec (balance w self owner) raw) as [| Hb]; [intros [= _ <-]; reflexivity |].
  unfold balance in Hb.
  destruct (bal (store w !!! self) !! owner) as [b |]; [discriminate |].
  cbn in Hb. lia.
Qed.

(** One pull of the callbacks: [if amount > 0: transfer_from; log.append]. *)
Lemma pull_eq (t : loc) (mgr : Manager) (data : CallbackData) (amount : Z) (tag : string) w :
  (if amount >? 0 then
     p ← get_pool;
     Token_transfer_from t (manager_address mgr) (payer data) (address p) amount;;
     s ← get_token t;
     log_append (tag +:+ address p +:+ ": " +:+ fmt amount +:+ " " +:+ symbol s)
   else mret tt) w =
  if amount >? 0 then
    match Token_transfer_from t (manager_address mgr) (payer data) (address (pool w)) amount w with
    | (inl e, w') => (inl e, w')
    | (inr _, w') =>
        (Ok tt, log_entry w' (tag +:+ address (pool w) +:+ ": " +:+ fmt amount +:+ " "
                                +:+ symbol (store w' !!! t)))
    end
  else (Ok tt, w).
Proof.
  destruct (amount >? 0); [| reflexivity].
  rewrite bind_eq. cbn [get_pool]. cbv beta iota delta [Ok].
  rewrite bind_eq.
  destruct (Token_transfer_from t (manager_address mgr) (payer data) (address (pool w)) amount w)
    as [[e | []] w']; reflexivity.
Qed.


Lemma pull_raise (t : loc) (mgr : Manager) (data : CallbackData) (amount : Z) (tag : string)
    w e w' :
  (if amount >? 0 then
     p ← get_pool;
     Token_transfer_from t (manager_address mgr) (payer data) (address p) amount;;
     s ← get_token t;
     log_append (tag +:+ address p +:+ ": " +:+ fmt amount +:+ " " +:+ symbol s)
   else mret tt) w = (Raise e, w') ->
  w' = w.
Proof.
  rewrite pull_eq. destruct (Z.gtb_spec amount 0) as [Hpos |]; [| discriminate].
  destruct (Token_transfer_from _ _ _ _ _ _) as [[e' | []] w1] eqn:Htf; [| discriminate].
  intros [= _ <-]. eapply transfer_from_raise_pos; [| exact Htf]. lia.
Qed.

Lemma pull_ok (t : loc) (mgr : Manager) (data : CallbackData) (amount : Z) (tag : string)
    w w' :
  (if amount >? 0 then
     p ← get_pool;
     Token_transfer_from t (manager_address mgr) (payer data) (address p) amount;;
     s ← get_token t;
     log_append (tag +:+ address p +:+ ": " +:+ fmt amount +:+ " " +:+ symbol s)
   else mret tt) w = (Ok tt, w') ->
  pool w' = pool w /\
  (store w' = store w \/
   exists w1, 0 < amount /\
     Token_transfer_from t (manager_address mgr) (payer data) (address (pool w)) amount w
       = (Ok tt, w1) /\ store w' = store w1).
Proof.
  rewrite pull_eq. destruct (Z.gtb_spec amount 0) as [Hpos |].
  - destruct (Token_transfer_from _ _ _ _ _ _) as [[e' | []] w1] eqn:Htf; [discriminate |].
    intros [= <-]. split.
    + cbn. pose proof Htf as Htf'. rewrite Token_transfer_from_eq in Htf'.
      cbv zeta in Htf'.
      repeat match type of Htf' with
             | (if ?c then _ else _) = _ => destruct c; [discriminate |]
             | match ?c with _ => _ end = _ => destruct c; [| discriminate]
             end.
      injection Htf' as <-. reflexivity.
    + right. exists w1. split; [lia |]. split; reflexivity.
  - intros [= <-]. split; [reflexivity | left; reflexivity].
Qed.

Lemma mint_callback_raise mgr amount0 amount1 data w e w2 :
  Manager_uniswapV3MintCallback mgr amount0 amount1 data w = (Raise e, w2) ->
  pool w2 = pool w /\
  (store w2 = store w \/
   exists t0 w1, tokens mgr !! token0_symbol data = Some t0 /\ 0 < amount0 /\
     Token_transfer_from t0 (manager_address mgr) (payer data) (address (pool w)) amount0 w
       = (Ok tt, w1) /\ store w2 = store w1).
Proof.
  unfold Manager_uniswapV3MintCallback.
  rewrite bind_eq. unfold getitem at 1.
  destruct (tokens mgr !! token0_symbol data) as [t0 |];
    [| intros [= _ <-]; split; [reflexivity | left; reflexivity]].
  cbn [mret M_ret]. cbv beta iota delta [Ok].
  rewrite bind_eq. unfold getitem at 1.
  destruct (tokens mgr !! token1_symbol data) as [t1 |];
    [| intros [= _ <-]; split; [reflexivity | left; reflexivity]].
  cbn [mret M_ret]. cbv beta iota delta [Ok].
  rewrite bind_eq.
  match goal with
  | |- context [match ?m w with _ => _ end] => destruct (m w) as [[e0 | []] w1] eqn:H0
  end.
  - intros [= <- <-]. apply pull_raise in H0 as ->.
    split; [reflexivity | left; reflexivity].
  - intros H1. apply pull_raise in H1 as ->.
    apply pull_ok in H0 as [Hp [Hs | (w1' & Hpos & Htf & Hs)]].
    + split; [exact Hp | left; exact Hs].
    + split; [exact Hp | right]. exists t0, w1'. auto.
Qed.

Section WithLibm.
Variable float_pow : F64.float -> Z -> result F64.float.

Lemma Pool_set_range_eq lo up w :
  Pool_set_range lo up w =
    if lo >=? up then (Raise (ValueError "lower_tick must be < upper_tick"), w)
    else (Ok tt, set_pool w (with_range (pool w) lo up)).
Proof. unfold Pool_set_range. destruct (lo >=? up); reflexivity. Qed.

Lemma Pool__required_amounts_eq L_add w :
  Pool__required_amounts_for_liquidity float_pow L_add w =
    (required_amounts float_pow (pool w) L_add, w).
Proof.
  unfold Pool__required_amounts_for_liquidity, required_amounts.
  rewrite bind_eq. cbn [get_pool]. cbv beta iota delta [Ok].
  rewrite bind_eq. unfold lift at 1.
  destruct (tick_to_sqrtp_x96 float_pow (lower_tick (pool w))) as [e | sqrtL];
    [reflexivity |]. cbn [mbind result_bind].
  rewrite bind_eq. unfold lift at 1.
  destruct (tick_to_sqrtp_x96 float_pow (upper_tick (pool w))) as [e | sqrtU];
    [reflexivity |]. cbn [mbind result_bind].
  destruct (negb _); [reflexivity |].
  rewrite bind_eq. unfold lift.
  destruct (amount0_delta _ _ _); reflexivity.
Qed.

Lemma Pool_mint_eq owner lo up liq data mgr w :
  Pool_mint float_pow owner lo up liq data mgr w =
    if lo >=? up then (Raise (ValueError "lower_tick must be < upper_tick"), w)
    else
      let w1 := set_pool w (with_range (pool w) lo up) in
      match required_amounts float_pow (pool w1) liq with
      | inl e => (inl e, w1)
      | inr (amt0, amt1) =>
          match Manager_uniswapV3MintCallback mgr amt0 amt1 data w1 with
          | (inl e, w2) => (inl e, w2)
          | (inr _, w2) => (Ok (amt0, amt1), set_pool w2 (with_L (pool w2) (L (pool w2) + liq)))
          end
      end.
Proof.
  unfold Pool_mint. rewrite bind_eq, Pool_set_range_eq.
  destruct (lo >=? up); [reflexivity |]. cbv zeta.
  rewrite bind_eq, Pool__required_amounts_eq.
  destruct (required_amounts _ _ liq) as [e | [amt0 amt1]]; [reflexivity |].
  rewrite bind_eq.
  destruct (Manager_uniswapV3MintCallback mgr amt0 amt1 data _) as [[e | []] w2];
    reflexivity.
Qed.

Lemma Pool_swap_eq recipient amount1_in_raw data mgr w :
  Pool_swap_token1_in_for_token0_out float_pow recipient amount1_in_raw data mgr w =
    let p := pool w in
    if L p <=? 0 then (Raise (ValueError "Pool has no liquidity. Mint first."), w)
    else
      match swap_quote float_pow p amount1_in_raw with
      | inl e => (inl e, w)
      | inr (sqrtN, amt1_used, amt0_out) =>
          match Manager_uniswapV3SwapCallback mgr (- amt0_out) amt1_used data w with
          | (inl e, w2) => (inl e, w2)
          | (inr _, w2) =>
              if balance w2 (token0 p) (address p) <? amt0_out then
                (Raise (ValueError
                   "Pool token0 balance too low (mint provides balances; check mint step)."),
                 w2)
              else
                match Token_transfer (token0 p) (address p) recipient amt0_out w2 with
                | (inl e, w3) => (inl e, w3)
                | (inr _, w3) =>
                    (Ok (amt1_used, amt0_out),
                     set_pool w3 (with_sqrtp_x96 (pool w3) sqrtN))
                end
          end
      end.
Proof.
  unfold Pool_swap_token1_in_for_token0_out, swap_quote. cbv zeta.
  rewrite bind_eq. cbn [get_pool]. cbv beta iota delta [Ok].
  destruct (L (pool w) <=? 0); [reflexivity |].
  rewrite bind_eq. unfold lift at 1.
  destruct (tick_to_sqrtp_x96 float_pow (lower_tick (pool w))) as [e | sqrtL];
    [reflexivity |]. cbn [mbind result_bind].
  rewrite bind_eq. unfold lift at 1.
  destruct (tick_to_sqrtp_x96 float_pow (upper_tick (pool w))) as [e | sqrtU];
    [reflexivity |]. cbn [mbind result_bind].
  rewrite bind_eq. unfold lift at 1.
  destruct (amount0_delta _ _ _) as [e | amt0_out]; [reflexivity |].
  cbn [mbind result_bind]. cbv beta iota delta [Ok].
  rewrite bind_eq.
  destruct (Manager_uniswapV3SwapCallback _ _ _ _ _) as [[e | []] w2]; [reflexivity |].
  rewrite (bind_ok _ _ _ _ _ (Token_balance_of_eq _ _ _)).
  rewrite bind_eq.
  destruct (balance w2 _ _ <? amt0_out); [reflexivity |].
  cbn [mret M_ret]. cbv beta iota delta [Ok].
  rewrite bind_eq.
  destruct (Token_transfer _ _ _ _ _) as [[e | []] w3]; reflexivity.
Qed.

(** Neither the ledger nor the callbacks write a field of the pool. *)
Lemma same_pool_refl w : same_pool w w.
Proof. reflexivity. Qed.

Lemma same_pool_trans w1 w2 w3 : same_pool w1 w2 -> same_pool w2 w3 -> same_pool w1 w3.
Proof. unfold same_pool. congruence. Qed.

Lemma pool_kept_put_token l t : keeps same_pool (put_token l t).
Proof. intros w. reflexivity. Qed.

Lemma pool_kept_log_append entry : keeps same_pool (log_append entry).
Proof. intros w. reflexivity. Qed.

Create HintDb pool_kept.

#[local] Hint Resolve same_pool_refl keeps_ret keeps_raise keeps_lift keeps_get_token
  keeps_get_pool keeps_getitem pool_kept_put_token pool_kept_log_append : pool_kept.

Ltac pool_kept :=
  repeat first
    [ solve [auto with pool_kept]
    | match goal with |- keeps _ (if _ then _ else _) => apply keeps_if end
    | match goal with
      | |- keeps _ (mbind _ _) => apply keeps_bind; [exact same_pool_trans | | intros]
      end ].

Lemma pool_kept_transfer self sender to raw :
  keeps same_pool (Token_transfer self sender to raw).
Proof.
  unfold Token_transfer, Token_balance_of, Token_bal_isub. pool_kept.
Qed.

Lemma pool_kept_transfer_from self spender owner to raw :
  keeps same_pool (Token_transfer_from self spender owner to raw).
Proof.
  unfold Token_transfer_from, Token_allowance, Token_balance_of, Token_bal_isub.
  pool_kept.
Qed.

#[local] Hint Resolve pool_kept_transfer pool_kept_transfer_from : pool_kept.

Lemma pool_kept_mint_callback mgr amount0 amount1 data :
  keeps same_pool (Manager_uniswapV3MintCallback mgr amount0 amount1 data).
Proof. unfold Manager_uniswapV3MintCallback. pool_kept. Qed.

Lemma pool_kept_swap_callback mgr amount0 amount1 data :
  keeps same_pool (Manager_uniswapV3SwapCallback mgr amount0 amount1 data).
Proof. unfold Manager_uniswapV3SwapCallback. pool_kept. Qed.

(** The clamp of the pool: upper bound first, then lower bound. *)
Lemma clamp_in_range (x sqrtL sqrtU : Z) :
  sqrtL <= sqrtU ->
  let n := if x >? sqrtU then sqrtU else x in
  sqrtL <= (if n <? sqrtL then sqrtL else n) <= sqrtU.
Proof.
  intros Hlu n. subst n.
  destruct (Z.gtb_spec x sqrtU);
    match goal with |- context [?y <? sqrtL] => destruct (Z.ltb_spec y sqrtL) end; lia.
Qed.

Lemma amount1_delta_ge (l b a : Z) : a <= b -> amount1_delta l b a = l * (b - a) / Q96.
Proof.
  intros Hab. unfold amount1_delta.
  destruct (Z.ltb_spec b a); [lia | reflexivity].
Qed.

(** What a swap that returns has done. *)
Lemma Pool_swap_ok recipient a data mgr w amt1_used amt0_out w' :
  Pool_swap_token1_in_for_token0_out float_pow recipient a data mgr w
    = (Ok (amt1_used, amt0_out), w') ->
  exists sqrtN w2 w3,
    0 < L (pool w) /\
    swap_quote float_pow (pool w) a = Ok (sqrtN, amt1_used, amt0_out) /\
    Manager_uniswapV3SwapCallback mgr (- amt0_out) amt1_used data w = (Ok tt, w2) /\
    Token_transfer (token0 (pool w)) (address (pool w)) recipient amt0_out w2
      = (Ok tt, w3) /\
    w' = set_pool w3 (with_sqrtp_x96 (pool w) sqrtN).
Proof.
  rewrite Pool_swap_eq. cbv zeta.
  destruct (Z.leb_spec (L (pool w)) 0) as [| HL]; [discriminate |].
  destruct (swap_quote float_pow (pool w) a) as [e | [[sqrtN used] out]]; [discriminate |].
  destruct (Manager_uniswapV3SwapCallback _ _ _ _ _) as [[e | []] w2] eqn:Hcb;
    [discriminate |].
  destruct (balance w2 _ _ <? out); [discriminate |].
  destruct (Token_transfer _ _ _ _ _) as [[e | []] w3] eqn:Htr; [discriminate |].
  intros [= <- <- <-].
  exists sqrtN, w2, w3. repeat split; try assumption.
  pose proof (pool_kept_swap_callback mgr (- out) used data w) as H2.
  pose proof (pool_kept_transfer (token0 (pool w)) (address (pool w)) recipient out w2)
    as H3.
  rewrite Hcb in H2. rewrite Htr in H3. unfold same_pool in *. cbn in *.
  rewrite H3, H2. reflexivity.
Qed.

(** A swap that raises has not written the pool. *)
Lemma Pool_swap_raise recipient a data mgr w e w' :
  Pool_swap_token1_in_for_token0_out float_pow recipient a data mgr w = (Raise e, w') ->
  pool w' = pool w.
Proof.
  rewrite Pool_swap_eq. cbv zeta.
  destruct (L (pool w) <=? 0); [intros [= _ <-]; reflexivity |].
  destruct (swap_quote float_pow (pool w) a) as [e' | [[sqrtN used] out]];
    [intros [= _ <-]; reflexivity |].
  pose proof (pool_kept_swap_callback mgr (- out) used data w) as H2.
  destruct (Manager_uniswapV3SwapCallback _ _ _ _ _) as [[e' | []] w2];
    [intros [= _ <-]; exact H2 |].
  destruct (balance w2 _ _ <? out); [intros [= _ <-]; exact H2 |].
  pose proof (pool_kept_transfer (token0 (pool w)) (address (pool w)) recipient out w2)
    as H3.
  destruct (Token_transfer _ _ _ _ _) as [[e' | []] w3]; [| discriminate].
  intros [= _ <-]. unfold same_pool in *. cbn in *. congruence.
Qed.

Lemma swap_quote_ok p a sqrtN used out :
  swap_quote float_pow p a = Ok (sqrtN, used, out) ->
  exists sqrtL sqrtU,
    tick_to_sqrtp_x96 float_pow (lower_tick p) = Ok sqrtL /\
    tick_to_sqrtp_x96 float_pow (upper_tick p) = Ok sqrtU /\
    sqrtN = (let n := sqrtp_x96 p + a * Q96 / L p in
             let n := if n >? sqrtU then sqrtU else n in
             if n <? sqrtL then sqrtL else n) /\
    used = amount1_delta (L p) sqrtN (sqrtp_x96 p) /\
    amount0_delta (L p) sqrtN (sqrtp_x96 p) = Ok out.
Proof.
  unfold swap_quote.
  destruct (tick_to_sqrtp_x96 float_pow (lower_tick p)) as [e | sqrtL]; [discriminate |].
  destruct (tick_to_sqrtp_x96 float_pow (upper_tick p)) as [e | sqrtU]; [discriminate |].
  cbn [mbind result_bind]. cbv zeta.
  destruct (amount0_delta _ _ _) as [e | o] eqn:Ho; [discriminate |].
  cbn [mbind result_bind]. intros [= <- <- <-].
  exists sqrtL, sqrtU. repeat split. exact Ho.
Qed.
End WithLibm.
End PoolFacts.

(** ** Pool.mint and Pool.swap_token1_in_for_token0_out *)

Section PoolClaims.
Import manager_contract session.

Variable float_pow : F64.float -> Z -> result F64.float.

(** C1, amended.  [Pool.mint] commits only the liquidity last.  For every
    call whose range check and amounts computation pass and whose
    settlement callback raises: the call raises the same exception;
    [L] and the price are the same after the call as before it; the
    range is not, it is already the requested [(lower_tick, upper_tick)];
    and the ledger is the one before the call, unless the callback's
    token0 [transfer_from] had returned before its token1 [transfer_from]
    raised, in which case the ledger is the one that token0 transfer
    left. *)
Theorem C1_mint_commits_liquidity_last
    (owner : string) (lo up liq : Z) (data : CallbackData) (mgr : Manager)
    (w w1 w2 : World) (amt0 amt1 : Z) (e : exn) :
  Pool_set_range lo up w = (Ok tt, w1) ->
  Pool__required_amounts_for_liquidity float_pow liq w1 = (Ok (amt0, amt1), w1) ->
  Manager_uniswapV3MintCallback mgr amt0 amt1 data w1 = (Raise e, w2) ->
  Pool_mint float_pow owner lo up liq data mgr w = (Raise e, w2) /\
  L (pool w2) = L (pool w) /\
  sqrtp_x96 (pool w2) = sqrtp_x96 (pool w) /\
  lower_tick (pool w2) = lo /\ upper_tick (pool w2) = up /\
  (store w2 = store w \/
   exists t0 w',
     tokens mgr !! token0_symbol data = Some t0 /\ 0 < amt0 /\
     Token_transfer_from t0 (manager_address mgr) (payer data) (address (pool w)) amt0 w1
       = (Ok tt, w') /\
     store w2 = store w').
Proof.
  intros Hrange Hreq Hcb.
  rewrite Pool_set_range_eq in Hrange.
  destruct (lo >=? up) eqn:Hlu; [discriminate |]. injection Hrange as <-.
  rewrite Pool__required_amounts_eq in Hreq. injection Hreq as Hreq.
  split.
  - rewrite Pool_mint_eq, Hlu. cbv zeta.
    change (pool (set_pool w (with_range (pool w) lo up)))
      with (with_range (pool w) lo up).
    rewrite Hreq. cbv beta iota delta [Ok]. rewrite Hcb. reflexivity.
  - apply mint_callback_raise in Hcb as [Hp Hs]. rewrite Hp. cbn.
    repeat split. exact Hs.
Qed.

(** C10.  [Pool.swap_token1_in_for_token0_out] writes the price last.  A
    call that raises, wherever it raises (no liquidity, the callback, the
    balance check or the transfer of the payout), leaves the price as it
    was.  A call that returns has had its callback and its payout
    transfer return first, and has set the price to the clamped [sqrtN],
    which lies between the square-root prices of the two ticks of the
    range whenever these are ordered; the clamp does not look at where
    the price started.  Neither outcome changes [L] or the range. *)
Theorem C10_swap_commits_price_last
    (recipient : string) (a : Z) (data : CallbackData) (mgr : Manager)
    (w w' : World) (r : result (Z * Z)) :
  Pool_swap_token1_in_for_token0_out float_pow recipient a data mgr w = (r, w') ->
  L (pool w') = L (pool w) /\
  lower_tick (pool w') = lower_tick (pool w) /\
  upper_tick (pool w') = upper_tick (pool w) /\
  match r with
  | inl _ => sqrtp_x96 (pool w') = sqrtp_x96 (pool w)
  | inr (amt1_used, amt0_out) =>
      exists sqrtL sqrtU w2 w3,
        tick_to_sqrtp_x96 float_pow (lower_tick (pool w)) = Ok sqrtL /\
        tick_to_sqrtp_x96 float_pow (upper_tick (pool w)) = Ok sqrtU /\
        Manager_uniswapV3SwapCallback mgr (- amt0_out) amt1_used data w = (Ok tt, w2) /\
        Token_transfer (token0 (pool w)) (address (pool w)) recipient amt0_out w2
          = (Ok tt, w3) /\
        sqrtp_x96 (pool w') =
          (let n := sqrtp_x96 (pool w) + a * Q96 / L (pool w) in
           let n := if n >? sqrtU then sqrtU else n in
           if n <? sqrtL then sqrtL else n) /\
        (sqrtL <= sqrtU -> sqrtL <= sqrtp_x96 (pool w') <= sqrtU)
  end.
Proof.
  intros Hrun. destruct r as [e | [used out]].
  - apply Pool_swap_raise in Hrun. rewrite Hrun. repeat split.
  - apply Pool_swap_ok in Hrun as (sqrtN & w2 & w3 & HL & Hq & Hcb & Htr & ->).
    apply swap_quote_ok in Hq as (sqrtL & sqrtU & HsL & HsU & HN & _ & _).
    cbn. repeat split.
    exists sqrtL, sqrtU, w2, w3. repeat split; try assumption.
    + rewrite HN. apply clamp_in_range. assumption.
    + rewrite HN. apply clamp_in_range. assumption.
Qed.

(** C3, amended.  On the first-swap page, for [L > 0], [sqrtCurrent > 0],
    [amount1In >= 0] and a block that returns: when clamping is off, or the
    unclamped [sqrtNext = sqrtCurrent + deltaSqrt] stays inside
    [[sqrtLower, sqrtUpper]], the block reports [clamped = false], the
    unclamped [sqrtNext] and [amount1Used = amount1In] exactly; when
    clamping is on and the unclamped [sqrtNext] falls outside the range, it
    reports [clamped = true] and
    [amount1Used = amount1Delta(L, sqrtNext, sqrtCurrent)].  The pool of the
    manager page has no such case split: every swap that returns reports
    [amount1Delta(L, sqrtNext, sqrtCurrent)], where [sqrtNext] is the price
    it committed; when the move was not clamped
    ([sqrtNext = sqrtCurrent + deltaSqrt]) that is at most [amount1In]. *)
Theorem C3_amount1_used :
  (forall (libm_log : F64.float -> F64.float) (L cur a lo up : Z) (do_clamp : bool)
          (r : first_swap.swap_result),
     0 < L -> 0 < cur -> 0 <= a ->
     first_swap.perform_swap libm_log L cur a lo up do_clamp = Ok r ->
     let sqrtNextUnclamped := cur + a * first_swap.Q96 / L in
     (do_clamp = false \/ lo <= sqrtNextUnclamped <= up ->
        first_swap.res_clamped r = false /\
        first_swap.res_sqrtp_next_x96 r = sqrtNextUnclamped /\
        first_swap.res_amount1_used_raw r = a) /\
     (do_clamp = true -> ~ (lo <= sqrtNextUnclamped <= up) ->
        first_swap.res_clamped r = true /\
        first_swap.res_amount1_used_raw r =
          first_swap.calc_amount1 L (first_swap.res_sqrtp_next_x96 r) cur)) /\
  (forall (recipient : string) (a : Z) (data : CallbackData) (mgr : Manager)
          (w w' : World) (amt1_used amt0_out : Z),
     Pool_swap_token1_in_for_token0_out float_pow recipient a data mgr w
       = (Ok (amt1_used, amt0_out), w') ->
     amt1_used = amount1_delta (L (pool w)) (sqrtp_x96 (pool w')) (sqrtp_x96 (pool w)) /\
     (0 <= a ->
      sqrtp_x96 (pool w') = sqrtp_x96 (pool w) + a * Q96 / L (pool w) ->
      amt1_used <= a)).
Proof.
  split.
  - intros libm_log L cur a lo up do_clamp r HL Hc Ha Hrun n0.
    destruct (perform_swap_unfold libm_log L cur a lo up do_clamp r HL Hc Ha Hrun)
      as (Hn & Hcl & Hused & _).
    cbv zeta in Hn, Hcl, Hused. fold n0 in Hn, Hcl, Hused.
    rewrite Hused, Hcl, Hn. clear Hused Hcl Hn Hrun.
    split.
    + intros [-> | Hin]; [cbn; auto |].
      destruct do_clamp; [| cbn; auto].
      destruct (Z.ltb_spec n0 lo); [lia |].
      destruct (Z.gtb_spec n0 up); [lia |]. cbn. auto.
    + intros -> Hout.
      destruct (Z.ltb_spec n0 lo); [cbn; auto |].
      destruct (Z.gtb_spec n0 up); [cbn; auto | lia].
  - intros recipient a data mgr w w' used out Hrun.
    apply Pool_swap_ok in Hrun as (sqrtN & w2 & w3 & HL & Hq & _ & _ & ->).
    apply swap_quote_ok in Hq as (sqrtL & sqrtU & _ & _ & _ & Hused & _).
    cbn. split; [exact Hused |].
    intros Ha HN. rewrite Hused, HN.
    change Q96 with first_swap.Q96 in *.
    assert (Hd : 0 <= a * first_swap.Q96 / L (pool w))
      by (apply Z.div_pos; [pose proof Q96_pos; nia | lia]).
    rewrite amount1_delta_ge by lia.
    replace (sqrtp_x96 (pool w) + a * first_swap.Q96 / L (pool w) - sqrtp_x96 (pool w))
      with (a * first_swap.Q96 / L (pool w)) by lia.
    apply (step_within_input (L (pool w)) a (a * first_swap.Q96 / L (pool w)) HL). lia.
Qed.
End PoolClaims.

(** ** Runs of the manager page *)

Section Runs.
Import manager_contract session.

Example ex_ticks_0_1 :
  tick_to_sqrtp_x96 demo.float_pow 0 = Ok 79228162514264337593543950336 /\
  tick_to_sqrtp_x96 demo.float_pow 1 = Ok 79232123823359791237469044736 /\
  demo.sqrtp_of 100005 100000 = 79230143193569020070231801856.
Proof. vm_compute. repeat split. Qed.

(** C1, as stated, fails.  Alice holds 10 ETH and 200000 USDC and has
    approved the manager for ETH only; the pool is at price 1.00005 with
    range (-943, 953).  [Pool.mint] of liquidity [10^18] over the ticks
    (0, 1) needs 24997187773215 of token0 and 24999687507909 of token1;
    the callback pulls the ETH and raises on the USDC allowance.  After
    the failed call the range is (0, 1), Alice's ETH balance and allowance
    are lower by the amount pulled, and the pool holds it. *)
Lemma C1_counterexample :
  fst (Manager_uniswapV3MintCallback demo.manager 24997187773215 24999687507909
         demo.data (set_pool demo.world_eth_approved (with_range demo.pool0 0 1)))
    = Raise (ValueError "USDC: allowance too low (allowed=0, need=24999687507909)") /\
  fst demo.failed_mint
    = Raise (ValueError "USDC: allowance too low (allowed=0, need=24999687507909)") /\
  (lower_tick (pool demo.world_eth_approved), upper_tick (pool demo.world_eth_approved))
    = (-943, 953) /\
  (lower_tick (pool (snd demo.failed_mint)), upper_tick (pool (snd demo.failed_mint)))
    = (0, 1) /\
  balance demo.world_eth_approved demo.ETH "Alice" = 10000000000000000000 /\
  balance (snd demo.failed_mint) demo.ETH "Alice" = 9999975002812226785 /\
  balance demo.world_eth_approved demo.ETH "Pool1" = 0 /\
  balance (snd demo.failed_mint) demo.ETH "Pool1" = 24997187773215 /\
  allowance_of demo.world_eth_approved demo.ETH "Alice" "Manager" = 10000000000000000000 /\
  allowance_of (snd demo.failed_mint) demo.ETH "Alice" "Manager" = 9999975002812226785.
Proof. vm_compute. repeat split. Qed.

Lemma C1_mint_commits_liquidity_last_witness :
  exists e w1 w2,
    Pool_mint demo.float_pow "Alice" 0 1 (10 ^ 18) demo.data demo.manager
      demo.world_eth_approved = (Raise e, w2) /\
    L (pool w2) = L (pool demo.world_eth_approved) /\
    sqrtp_x96 (pool w2) = sqrtp_x96 (pool demo.world_eth_approved) /\
    lower_tick (pool w2) = 0 /\ upper_tick (pool w2) = 1 /\
    (store w2 = store demo.world_eth_approved \/
     exists t0 w',
       tokens demo.manager !! token0_symbol demo.data = Some t0 /\
       0 < 24997187773215 /\
       Token_transfer_from t0 (manager_address demo.manager) (payer demo.data)
         (address (pool demo.world_eth_approved)) 24997187773215 w1 = (Ok tt, w') /\
       store w2 = store w').
Proof.
  eexists _, _, _.
  eapply (C1_mint_commits_liquidity_last demo.float_pow "Alice" 0 1 (10 ^ 18)
            demo.data demo.manager demo.world_eth_approved).
  - vm_compute. reflexivity.
  - vm_compute. reflexivity.
  - vm_compute. reflexivity.
Defined.

(** C3, as stated, fails on the pool.  After Alice's mint of liquidity
    [10^15] over the ticks (0, 1), a swap of [10^6] units of token1 moves
    the price by [deltaSqrt = 10^6 * 2^96 / 10^15] and stays inside the
    range, so it is not clamped; the pool reports 999999 units used, not
    the [10^6] offered. *)
Lemma C3_counterexample :
  L (pool demo.world_minted) = 10 ^ 15 /\
  fst demo.swapped = Ok (999999, 999950) /\
  sqrtp_x96 (pool (snd demo.swapped))
    = sqrtp_x96 (pool demo.world_minted) + 10 ^ 6 * 2 ^ 96 / 10 ^ 15 /\
  tick_to_sqrtp_x96 demo.float_pow (lower_tick (pool demo.world_minted))
    = Ok 79228162514264337593543950336 /\
  tick_to_sqrtp_x96 demo.float_pow (upper_tick (pool demo.world_minted))
    = Ok 79232123823359791237469044736 /\
  79228162514264337593543950336 <= sqrtp_x96 (pool (snd demo.swapped))
    <= 79232123823359791237469044736 /\
  999999 <> 10 ^ 6.
Proof. vm_compute. repeat split; discriminate. Qed.

(** On the page: liquidity 5 at the price [2^96] with the range
    [[2^95, 2^98]]; 5 units offered move the price to [2^97], inside the
    range, and are all used.  With liquidity 1 and the range
    [[2^95, 2^97]] the same offer is clamped at [2^97] and one unit is
    used.  On the pool: the swap of [10^6] units after Alice's mint. *)
Lemma C3_amount1_used_witness :
  (exists r,
     first_swap.perform_swap demo.libm_log 5 (2 ^ 96) 5 (2 ^ 95) (2 ^ 98) true = Ok r /\
     first_swap.res_clamped r = false /\
     first_swap.res_sqrtp_next_x96 r = 2 ^ 96 + 5 * first_swap.Q96 / 5 /\
     first_swap.res_amount1_used_raw r = 5) /\
  (exists r,
     first_swap.perform_swap demo.libm_log 1 (2 ^ 96) 5 (2 ^ 95) (2 ^ 97) true = Ok r /\
     first_swap.res_clamped r = true /\
     first_swap.res_amount1_used_raw r
       = first_swap.calc_amount1 1 (first_swap.res_sqrtp_next_x96 r) (2 ^ 96)) /\
  999999 = amount1_delta (L (pool demo.world_minted))
             (sqrtp_x96 (pool (snd demo.swapped))) (sqrtp_x96 (pool demo.world_minted)) /\
  999999 <= 10 ^ 6.
Proof.
  destruct (C3_amount1_used demo.float_pow) as [Hpage Hpool].
  split; [| split].
  - eexists. split; [vm_compute; reflexivity |].
    refine (proj1 (Hpage demo.libm_log 5 (2 ^ 96) 5 (2 ^ 95) (2 ^ 98) true _ _ _ _ eq_refl) _);
      [lia | lia | lia |].
    right. vm_compute. split; discriminate.
  - eexists. split; [vm_compute; reflexivity |].
    refine (proj2 (Hpage demo.libm_log 1 (2 ^ 96) 5 (2 ^ 95) (2 ^ 97) true _ _ _ _ eq_refl)
              eq_refl _); [lia | lia | lia |].
    vm_compute. intros [_ H]. apply H. reflexivity.
  - destruct (Hpool "Alice" (10 ^ 6) demo.data demo.manager demo.world_minted
                (snd demo.swapped) 999999 999950) as [Hused Hle].
    + vm_compute. reflexivity.
    + split; [exact Hused |]. apply Hle; [lia |]. vm_compute. reflexivity.
Defined.

Lemma C10_swap_commits_price_last_witness :
  Pool_swap_token1_in_for_token0_out demo.float_pow "Alice" (10 ^ 6) demo.data
    demo.manager demo.world_minted = (Ok (999999, 999950), snd demo.swapped) /\
  L (pool (snd demo.swapped)) = L (pool demo.world_minted) /\
  79228162514264337593543950336 <= sqrtp_x96 (pool (snd demo.swapped))
    <= 79232123823359791237469044736 /\
  (forall e w',
     Pool_swap_token1_in_for_token0_out demo.float_pow "Alice" (10 ^ 6) demo.data
       demo.manager demo.world0 = (Raise e, w') ->
     sqrtp_x96 (pool w') = sqrtp_x96 (pool demo.world0)).
Proof.
  assert (Hrun : Pool_swap_token1_in_for_token0_out demo.float_pow "Alice" (10 ^ 6)
                   demo.data demo.manager demo.world_minted
                 = (Ok (999999, 999950), snd demo.swapped))
    by (vm_compute; reflexivity).
  split; [exact Hrun |].
  destruct (C10_swap_commits_price_last demo.float_pow _ _ _ _ _ _ _ Hrun)
    as (HL & _ & _ & sqrtL & sqrtU & w2 & w3 & HsL & HsU & _ & _ & _ & Hin).
  split; [exact HL |]. split.
  - vm_compute in HsL, HsU. injection HsL as <-. injection HsU as <-.
    apply Hin. lia.
  - intros e w' Hraise.
    apply (C10_swap_commits_price_last demo.float_pow _ _ _ _ _ _ _ Hraise).
Defined.

Lemma C5_supply_conserved_witness :
  total_supply
    (run demo.float_pow
       [Act_approve demo.ETH "Alice" "Manager" 5;
        Act_transfer demo.ETH "Alice" "Bob" 7;
        Act_transfer_from demo.ETH "Manager" "Alice" "Pool1" 9;
        Act_manager_mint demo.manager "Alice" 0 1 (10 ^ 15)]
       demo.world_approved) demo.ETH
    = total_supply demo.world_approved demo.ETH.
Proof.
  destruct (C5_supply_conserved demo.float_pow demo.ETH) as (_ & Hkeep & _).
  refine (Hkeep _ _ _).
  repeat (apply List.Forall_cons; [exact I |]). apply List.Forall_nil.
Defined.
End Runs.

(** ** Price to tick *)

Section PriceToTick.

Variable libm_log : F64.float -> F64.float.

(** [math.floor] of a finite double is the integer just below it. *)
Lemma floor_spec (x : F64.float) (t : Z) :
  F64.floor x = Ok t -> F64.int_le t x /\ F64.lt_int x (t + 1).
Proof.
  destruct x as [s | s | | s m e]; cbn; try discriminate.
  - intros [= <-]. lia.
  - intros [= <-]. unfold F64.mag_ceil, F64.mag_floor, F64.signed.
    destruct (Z.leb_spec 0 e) as [He | He].
    + destruct s; lia.
    + assert (Hk : 0 < 2 ^ (- e)) by (apply Z.pow_pos_nonneg; lia).
      destruct s.
      * rewrite Z.opp_involutive.
        pose proof (Z.mul_div_le (Z.neg m) _ Hk).
        pose proof (Z.mul_succ_div_gt (Z.neg m) _ Hk).
        change (- Z.pos m) with (Z.neg m). lia.
      * pose proof (Z.mul_div_le (Z.pos m) _ Hk).
        pose proof (Z.mul_succ_div_gt (Z.pos m) _ Hk). lia.
Qed.

Lemma floor_finite (s : bool) (m : positive) (e : Z) :
  exists t, F64.floor (S754_finite s m e) = Ok t.
Proof. cbn. eauto. Qed.

Lemma leb_zero_cases (P : F64.float) :
  F64.leb P F64.zero = true ->
  (exists s, P = S754_zero s) \/ (exists m e, P = S754_finite true m e) \/
  P = S754_infinity true.
Proof.
  destruct P as [s | [] | | [] m e]; cbn; try discriminate; eauto.
Qed.

Lemma price_to_tick_same (P : F64.float) :
  manager_contract.price_to_tick libm_log P = first_swap.price_to_tick libm_log P.
Proof. reflexivity. Qed.

(** The quotient all three functions floor, for a positive finite price. *)
Lemma tick_of_positive (m : positive) (e : Z) (q : F64.float) :
  let P := S754_finite false m e in
  (forall s, libm_log F64.f1_0001 <> S754_zero s) ->
  F64.div (libm_log P) (libm_log F64.f1_0001) = q ->
  first_swap.price_to_tick libm_log P = F64.floor q /\
  uniswapv3.tick_from_price libm_log P = F64.floor q.
Proof.
  intros P Hd Hq.
  assert (Hdiv : F64.truediv (libm_log P) (libm_log F64.f1_0001) = Ok q).
  { unfold F64.truediv. rewrite Hq.
    destruct (libm_log F64.f1_0001) as [s | | |]; [destruct (Hd s) | ..]; reflexivity. }
  unfold first_swap.price_to_tick, uniswapv3.tick_from_price.
  rewrite ex_f1_0001 in *. cbn [F64.leb SFleb SFcompare F64.zero F64.math_log P].
  cbn [mbind result_bind Ok]. rewrite Hdiv.
  split; reflexivity.
Qed.

(** C4, amended.  For a price [P <= 0] (zero of either sign, negative, or
    minus infinity) [price_to_tick] of the first-swap and manager pages does
    not fail: it returns 0.  Only [tick_from_price] of the explorer page
    fails there, with [ValueError("math domain error")].  For a finite
    [P > 0] all three return the floor of the double
    [q = log(P) / log(1.0001)]: when [log(1.0001)] is not zero and [q] is
    a zero (as at [P = 1.0]) or finite, the integer [t] with
    [t <= q < t + 1]. *)
Theorem C4_tick_from_price :
  (forall P, F64.leb P F64.zero = true ->
     first_swap.price_to_tick libm_log P = Ok 0 /\
     manager_contract.price_to_tick libm_log P = Ok 0 /\
     uniswapv3.tick_from_price libm_log P = Raise MathDomainError) /\
  (forall m e q,
     let P := S754_finite false m e in
     (forall s, libm_log F64.f1_0001 <> S754_zero s) ->
     F64.div (libm_log P) (libm_log F64.f1_0001) = q ->
     (forall s, q <> S754_infinity s) -> q <> S754_nan ->
     exists t,
       first_swap.price_to_tick libm_log P = Ok t /\
       manager_contract.price_to_tick libm_log P = Ok t /\
       uniswapv3.tick_from_price libm_log P = Ok t /\
       F64.int_le t q /\ F64.lt_int q (t + 1)).
Proof.
  split.
  - intros P HP.
    change (manager_contract.price_to_tick libm_log P)
      with (first_swap.price_to_tick libm_log P).
    unfold first_swap.price_to_tick, uniswapv3.tick_from_price. rewrite HP.
    split; [reflexivity |]. split; [reflexivity |].
    destruct (leb_zero_cases P HP) as [[s ->] | [(m & e & ->) | ->]]; reflexivity.
  - intros m e q P Hd Hq Hinf Hnan.
    assert (Hfl : exists t, F64.floor q = Ok t).
    { destruct q as [s | s | | s mq eq]; cbn; eauto; [destruct (Hinf s eq_refl) | tauto]. }
    destruct Hfl as [t Ht]. exists t.
    change (manager_contract.price_to_tick libm_log P)
      with (first_swap.price_to_tick libm_log P).
    destruct (tick_of_positive m e q Hd Hq) as [H1 H2]. fold P in H1, H2.
    rewrite H1, H2.
    repeat split; try exact Ht; apply floor_spec; exact Ht.
Qed.

End PriceToTick.

(** C4, as stated, fails: on the first-swap and manager pages the price
    [0.0] and the price [-1.0] give tick 0, not an error. *)
Lemma C4_counterexample :
  F64.leb F64.zero F64.zero = true /\
  first_swap.price_to_tick demo.no_log F64.zero = Ok 0 /\
  manager_contract.price_to_tick demo.no_log F64.zero = Ok 0 /\
  F64.leb (F64.literal (-1) 1) F64.zero = true /\
  first_swap.price_to_tick demo.no_log (F64.literal (-1) 1) = Ok 0 /\
  manager_contract.price_to_tick demo.no_log (F64.literal (-1) 1) = Ok 0.
Proof. vm_compute. repeat split. Qed.

(** With the logarithms of [demo.libm_log]: at the price [1.0001] the
    quotient is [1.0] and the tick 1; at the price [1.0] the quotient is
    [0.0] and the tick 0; at the price [-1.0] the pages return 0 and the
    explorer raises. *)
Lemma C4_tick_from_price_witness :
  (first_swap.price_to_tick demo.libm_log (F64.literal (-1) 1) = Ok 0 /\
   manager_contract.price_to_tick demo.libm_log (F64.literal (-1) 1) = Ok 0 /\
   uniswapv3.tick_from_price demo.libm_log (F64.literal (-1) 1) = Raise MathDomainError) /\
  (exists t,
     first_swap.price_to_tick demo.libm_log F64.f1_0001 = Ok t /\
     manager_contract.price_to_tick demo.libm_log F64.f1_0001 = Ok t /\
     uniswapv3.tick_from_price demo.libm_log F64.f1_0001 = Ok t /\
     F64.int_le t F64.one /\ F64.lt_int F64.one (t + 1)) /\
  (exists t,
     first_swap.price_to_tick demo.libm_log F64.one = Ok t /\
     manager_contract.price_to_tick demo.libm_log F64.one = Ok t /\
     uniswapv3.tick_from_price demo.libm_log F64.one = Ok t /\
     F64.int_le t F64.zero /\ F64.lt_int F64.zero (t + 1)).
Proof.
  destruct (C4_tick_from_price demo.libm_log) as [Hneg Hpos].
  split; [| split].
  - apply Hneg. reflexivity.
  - apply (Hpos 4504049987333233%positive (-52) F64.one).
    + intros s. discriminate.
    + vm_compute. reflexivity.
    + intros s. discriminate.
    + discriminate.
  - apply (Hpos 4503599627370496%positive (-52) F64.zero).
    + intros s. discriminate.
    + vm_compute. reflexivity.
    + intros s. discriminate.
    + discriminate.
Defined.

(** ** Order of the price conversions *)

Section Pow2.

Lemma pow2_pos (k : Z) : 0 <= k -> 0 < 2 ^ k.
Proof. intros. apply Z.pow_pos_nonneg; lia. Qed.

Lemma pow2_add (a b : Z) : 0 <= a -> 0 <= b -> 2 ^ (a + b) = 2 ^ a * 2 ^ b.
Proof. intros. apply Z.pow_add_r; lia. Qed.

Lemma pow2_le (a b : Z) : 0 <= a <= b -> 2 ^ a <= 2 ^ b.
Proof. intros. apply Z.pow_le_mono_r; lia. Qed.

Lemma pow2_lt (a b : Z) : 0 <= a < b -> 2 ^ a < 2 ^ b.
Proof. intros. apply Z.pow_lt_mono_r; lia. Qed.

Lemma pow2_lt_inv (a b : Z) : 0 <= a -> 0 <= b -> 2 ^ a < 2 ^ b -> a < b.
Proof.
  intros Ha Hb H. destruct (Z.lt_ge_cases a b) as [| Hge]; [assumption |].
  pose proof (pow2_le b a ltac:(lia)). lia.
Qed.

Lemma pow2_succ (a : Z) : 0 <= a -> 2 ^ (a + 1) = 2 * 2 ^ a.
Proof. intros. rewrite pow2_add by lia. lia. Qed.

(** Number of binary digits. *)
Lemma digits2_pos_bounds (p : positive) :
  2 ^ (Z.pos (digits2_pos p) - 1) <= Z.pos p < 2 ^ Z.pos (digits2_pos p).
Proof.
  induction p as [p IH | p IH |]; cbn [digits2_pos].
  - rewrite Pos2Z.inj_succ. replace (Z.succ (Z.pos (digits2_pos p)) - 1)
      with (Z.pos (digits2_pos p) - 1 + 1) by lia.
    unfold Z.succ. rewrite !pow2_succ by lia. lia.
  - rewrite Pos2Z.inj_succ. replace (Z.succ (Z.pos (digits2_pos p)) - 1)
      with (Z.pos (digits2_pos p) - 1 + 1) by lia.
    unfold Z.succ. rewrite !pow2_succ by lia. lia.
  - cbn. lia.
Qed.

Lemma Zdigits2_bounds (m : Z) :
  0 < m -> 2 ^ (Zdigits2 m - 1) <= m < 2 ^ Zdigits2 m.
Proof. destruct m; try lia. intros _. apply digits2_pos_bounds. Qed.

Lemma Zdigits2_pos (m : Z) : 0 < m -> 0 < Zdigits2 m.
Proof. destruct m; cbn; lia. Qed.

Lemma Zdigits2_unique (m d : Z) :
  0 < d -> 2 ^ (d - 1) <= m < 2 ^ d -> Zdigits2 m = d.
Proof.
  intros Hd [Hlo Hhi].
  assert (Hm : 0 < m) by (pose proof (pow2_pos (d - 1)); lia).
  pose proof (Zdigits2_bounds m Hm) as [Hlo' Hhi'].
  pose proof (Zdigits2_pos m Hm) as Hd'.
  assert (Zdigits2 m - 1 < d) by (apply pow2_lt_inv; lia).
  assert (d - 1 < Zdigits2 m) by (apply pow2_lt_inv; lia).
  lia.
Qed.

Lemma Zdigits2_le (m1 m2 : Z) : 0 < m1 <= m2 -> Zdigits2 m1 <= Zdigits2 m2.
Proof.
  intros [H1 H12].
  pose proof (Zdigits2_bounds m1 H1) as [Hlo1 _].
  pose proof (Zdigits2_bounds m2 ltac:(lia)) as [_ Hhi2].
  pose proof (Zdigits2_pos m1 H1). pose proof (Zdigits2_pos m2 ltac:(lia)).
  assert (Zdigits2 m1 - 1 < Zdigits2 m2) by (apply pow2_lt_inv; lia).
  lia.
Qed.

End Pow2.

Section Shift.
Import F64 rounding.

Lemma code_nonneg (m : Z) (l : location) : 0 <= m -> 0 <= code m l.
Proof. intros. unfold code. destruct l as [| []]; lia. Qed.

Lemma code_of_rec_nonneg (mrs : shr_record) : 0 <= shr_m mrs -> 0 <= code_of_rec mrs.
Proof. intros. unfold code_of_rec. destruct (shr_r mrs), (shr_s mrs); lia. Qed.

Lemma code_of_loc (m : Z) (l : location) :
  code_of_rec (shr_record_of_loc m l) = code m l /\ shr_m (shr_record_of_loc m l) = m.
Proof.
  unfold code_of_rec, code.
  destruct l as [| []]; cbn [shr_record_of_loc shr_m shr_r shr_s]; split; lia.
Qed.

Lemma sshift_0 (c : Z) : sshift c 0 = c.
Proof.
  unfold sshift. change (2 ^ (0 + 1)) with 2.
  pose proof (Z.div_mod c 2 ltac:(lia)). pose proof (Z.mod_pos_bound c 2 ltac:(lia)).
  destruct (Z.eqb_spec (c mod 2) 0); lia.
Qed.

Lemma sshift_nonneg (c n : Z) : 0 <= c -> 0 <= n -> 0 <= sshift c n.
Proof.
  intros Hc Hn. unfold sshift.
  pose proof (pow2_pos (n + 1) ltac:(lia)).
  pose proof (Z.div_pos c (2 ^ (n + 1)) Hc ltac:(lia)).
  destruct (_ =? 0); lia.
Qed.

Lemma sshift_mono (c1 c2 n : Z) : 0 <= n -> c1 <= c2 -> sshift c1 n <= sshift c2 n.
Proof.
  intros Hn Hc. unfold sshift.
  pose proof (pow2_pos (n + 1) ltac:(lia)) as HK.
  set (K := 2 ^ (n + 1)) in *.
  pose proof (Z.div_le_mono c1 c2 K HK Hc) as Hq.
  pose proof (Z.div_mod c1 K ltac:(lia)). pose proof (Z.div_mod c2 K ltac:(lia)).
  pose proof (Z.mod_pos_bound c1 K HK). pose proof (Z.mod_pos_bound c2 K HK).
  destruct (Z.eqb_spec (c1 mod K) 0); destruct (Z.eqb_spec (c2 mod K) 0); try lia.
  assert (c1 / K < c2 / K \/ c1 / K = c2 / K) as [|Heq] by lia; [lia |].
  rewrite Heq in *. lia.
Qed.

Lemma sshift_sshift (c a b : Z) :
  0 <= a -> 0 <= b -> sshift (sshift c a) b = sshift c (a + b).
Proof.
  intros Ha Hb. unfold sshift at 1 3.
  pose proof (pow2_pos (a + 1) ltac:(lia)) as HA.
  pose proof (pow2_pos b Hb) as HB.
  replace (a + b + 1) with ((a + 1) + b) by lia.
  rewrite (pow2_add (a + 1) b) by lia.
  replace (2 ^ (b + 1)) with (2 * 2 ^ b) by (rewrite pow2_succ by lia; reflexivity).
  set (A := 2 ^ (a + 1)) in *. set (B := 2 ^ b) in *.
  set (c' := sshift c a).
  assert (Hc' : c' = 2 * (c / A) + (if c mod A =? 0 then 0 else 1)) by reflexivity.
  set (X := c / A) in *. set (rho := c mod A) in *.
  assert (HcX : c = A * X + rho) by (apply Z.div_mod; lia).
  assert (Hrho : 0 <= rho < A) by (apply Z.mod_pos_bound; lia).
  set (Y := X / B). set (sigma := X mod B).
  assert (HXY : X = B * Y + sigma) by (apply Z.div_mod; lia).
  assert (Hsigma : 0 <= sigma < B) by (apply Z.mod_pos_bound; lia).
  assert (Hdiv1 : c' / (2 * B) = Y).
  { symmetry. apply (Z.div_unique_pos c' (2 * B) Y (c' - 2 * B * Y)); [| lia].
    destruct (rho =? 0); nia. }
  assert (Hmod1 : c' mod (2 * B) = c' - 2 * B * Y).
  { rewrite Z.mod_eq by lia. rewrite Hdiv1. reflexivity. }
  assert (Hdiv2 : c / (A * B) = Y).
  { symmetry. apply (Z.div_unique_pos c (A * B) Y (A * sigma + rho)); nia. }
  assert (Hmod2 : c mod (A * B) = A * sigma + rho).
  { rewrite Z.mod_eq by nia. rewrite Hdiv2. nia. }
  rewrite Hdiv1, Hmod1, Hdiv2, Hmod2.
  destruct (Z.eqb_spec rho 0) as [Hr | Hr];
    destruct (Z.eqb_spec (c' - 2 * B * Y) 0); destruct (Z.eqb_spec (A * sigma + rho) 0);
    try lia; nia.
Qed.

Lemma shr_1_code (mrs : shr_record) :
  0 <= shr_m mrs ->
  code_of_rec (shr_1 mrs) = sshift (code_of_rec mrs) 1 /\ 0 <= shr_m (shr_1 mrs).
Proof.
  destruct mrs as [m r s]. cbn [shr_m]. intros Hm.
  unfold sshift. change (2 ^ (1 + 1)) with 4.
  assert (Hc : forall k j, 0 <= j < 4 -> (4 * k + j) / 4 = k /\ (4 * k + j) mod 4 = j).
  { intros k j Hj. split.
    - symmetry. apply (Z.div_unique_pos _ 4 k j); lia.
    - symmetry. apply (Z.mod_unique_pos _ 4 k j); lia. }
  unfold code_of_rec.
  destruct m as [| [p | p |] | p]; try lia; cbn [shr_1 shr_m shr_r shr_s];
    destruct r, s; cbn [orb];
    match goal with
    | |- context [(4 * ?k + ?a + ?b) / 4] =>
        destruct (Hc k (a + b) ltac:(lia)) as [Hd Hmd];
        replace (4 * k + a + b) with (4 * k + (a + b)) by lia;
        rewrite Hd, Hmd
    end;
    try rewrite Pos2Z.inj_xO; try rewrite Pos2Z.inj_xI;
    repeat match goal with |- context [?x =? 0] => destruct (Z.eqb_spec x 0) end;
    split; lia.
Qed.

Lemma iter_pos_shr_1_code (p : positive) (mrs : shr_record) :
  0 <= shr_m mrs ->
  code_of_rec (SpecFloat.iter_pos shr_1 p mrs) = sshift (code_of_rec mrs) (Z.pos p) /\
  0 <= shr_m (SpecFloat.iter_pos shr_1 p mrs).
Proof.
  revert mrs. induction p as [p IH | p IH |]; intros mrs Hm; cbn [SpecFloat.iter_pos].
  - destruct (shr_1_code mrs Hm) as [H1 Hm1].
    destruct (IH _ Hm1) as [H2 Hm2]. destruct (IH _ Hm2) as [H3 Hm3].
    split; [| exact Hm3].
    rewrite H3, H2, H1, !sshift_sshift by lia. f_equal. lia.
  - destruct (IH _ Hm) as [H2 Hm2]. destruct (IH _ Hm2) as [H3 Hm3].
    split; [| exact Hm3].
    rewrite H3, H2, !sshift_sshift by lia. f_equal. lia.
  - apply shr_1_code. exact Hm.
Qed.

Lemma shr_code (m e n : Z) (l : location) :
  0 <= m -> 0 <= n ->
  code_of_rec (fst (shr (shr_record_of_loc m l) e n)) = sshift (code m l) n /\
  snd (shr (shr_record_of_loc m l) e n) = e + n /\
  0 <= shr_m (fst (shr (shr_record_of_loc m l) e n)).
Proof.
  intros Hm Hn. destruct (code_of_loc m l) as [Hc Hsm].
  destruct n as [| p | p]; try lia; cbn [shr fst snd].
  - rewrite sshift_0, Hc, Hsm. repeat split; lia.
  - destruct (iter_pos_shr_1_code p (shr_record_of_loc m l)) as [H1 H2]; [lia |].
    rewrite H1, Hc. repeat split; lia.
Qed.

Lemma rne_code_rec (mrs : shr_record) :
  round_nearest_even (shr_m mrs) (loc_of_shr_record mrs) = rne_code (code_of_rec mrs).
Proof.
  destruct mrs as [m r s]. unfold rne_code, code_of_rec. cbn [shr_m shr_r shr_s].
  assert (Hc : forall j, 0 <= j < 4 -> (4 * m + j) / 4 = m /\ (4 * m + j) mod 4 = j).
  { intros j Hj. split.
    - symmetry. apply (Z.div_unique_pos _ 4 m j); lia.
    - symmetry. apply (Z.mod_unique_pos _ 4 m j); lia. }
  destruct r, s; cbn [loc_of_shr_record round_nearest_even];
    match goal with
    | |- context [(4 * m + ?a + ?b) / 4] =>
        destruct (Hc (a + b) ltac:(lia)) as [Hd Hmd];
        replace (4 * m + a + b) with (4 * m + (a + b)) by lia;
        rewrite Hd, Hmd
    end;
    repeat match goal with
           | |- context [?a + ?b =? ?c] =>
               let v := eval vm_compute in (a + b =? c) in change (a + b =? c) with v
           end;
    cbv iota; destruct (Z.even m); lia.
Qed.

Lemma rne_code_mono (c1 c2 : Z) : c1 <= c2 -> rne_code c1 <= rne_code c2.
Proof.
  intros Hc. unfold rne_code.
  pose proof (Z.div_le_mono c1 c2 4 ltac:(lia) Hc) as Hq.
  pose proof (Z.div_mod c1 4 ltac:(lia)). pose proof (Z.div_mod c2 4 ltac:(lia)).
  pose proof (Z.mod_pos_bound c1 4 ltac:(lia)). pose proof (Z.mod_pos_bound c2 4 ltac:(lia)).
  assert (c1 / 4 < c2 / 4 \/ c1 / 4 = c2 / 4) as [Hlt | Heq] by lia.
  - repeat match goal with |- context [if ?b then _ else _] => destruct b end; lia.
  - rewrite Heq in *.
    destruct (Z.eqb_spec (c1 mod 4) 3); destruct (Z.eqb_spec (c2 mod 4) 3);
      destruct (Z.eqb_spec (c1 mod 4) 2); destruct (Z.eqb_spec (c2 mod 4) 2);
      destruct (Z.even (c2 / 4)); lia.
Qed.

(** [binary_round_aux] on a position whose exponent is at most the one the
    format gives to its magnitude: shift to that exponent, round, finish. *)
Lemma bra_fine (s : bool) (m e : Z) (l : location) :
  0 <= m -> e <= fexp (Zdigits2 m + e) ->
  binary_round_aux prec emax s m e l =
    round_finish s (rne_code (sshift (code m l) (fexp (Zdigits2 m + e) - e)))
      (fexp (Zdigits2 m + e)).
Proof.
  intros Hm He. unfold binary_round_aux, shr_fexp at 1.
  fold fexp. set (n := fexp (Zdigits2 m + e) - e).
  destruct (shr_code m e n l Hm ltac:(lia)) as (Hc & He' & Hm').
  destruct (shr (shr_record_of_loc m l) e n) as [mrs e'] eqn:Hshr.
  cbn [fst snd] in *. rewrite rne_code_rec, Hc.
  replace e' with (fexp (Zdigits2 m + e)) by lia.
  unfold round_finish.
  destruct (shr_fexp prec emax _ _ loc_Exact) as [mrs'' e''].
  destruct (shr_m mrs''); reflexivity.
Qed.

End Shift.

Section Finish.
Import F64 rounding.

Lemma fexp_eq (k : Z) : fexp k = Z.max (k - 53) (-1074).
Proof. reflexivity. Qed.

Lemma emin_eq : emin = -1074.
Proof. reflexivity. Qed.

Lemma fexp_mono (a b : Z) : a <= b -> fexp a <= fexp b.
Proof. rewrite !fexp_eq. lia. Qed.

Lemma shr_no_shift (mrs : shr_record) (e n : Z) : n <= 0 -> shr mrs e n = (mrs, e).
Proof. destruct n; try lia; reflexivity. Qed.

(** The last step on a rounded mantissa of at most 53 bits, or [2^53]. *)
Lemma fin_shape (s : bool) (m E : Z) :
  emin <= E -> 0 <= m <= 2 ^ 53 ->
  round_finish s m E =
    if m =? 0 then S754_zero s
    else if m =? 2 ^ 53 then
      (if E + 1 <=? 971 then S754_finite s (2 ^ 52)%positive (E + 1) else S754_infinity s)
    else (if E <=? 971 then S754_finite s (Z.to_pos m) E else S754_infinity s).
Proof.
  intros HE [Hm0 Hm]. unfold emin in HE. change (SpecFloat.emin prec emax) with (-1074) in HE.
  unfold round_finish, shr_fexp. fold fexp.
  destruct (Z.eqb_spec m 0) as [-> | Hnz].
  - cbn [Zdigits2]. rewrite shr_no_shift by (rewrite fexp_eq; lia). reflexivity.
  - destruct (Z.eqb_spec m (2 ^ 53)) as [-> | Hne].
    + change (Zdigits2 (2 ^ 53)) with 54.
      replace (fexp (54 + E) - E) with 1 by (rewrite fexp_eq; lia).
      cbn [shr shr_record_of_loc SpecFloat.iter_pos].
      change (shr_m (shr_1 {| shr_m := 2 ^ 53; shr_r := false; shr_s := false |}))
        with (2 ^ 52).
      change (2 ^ 52) with (Z.pos (2 ^ 52)%positive). cbv iota.
      change (emax - prec) with 971. reflexivity.
    + assert (Hd : Zdigits2 m <= 53).
      { pose proof (Zdigits2_bounds m ltac:(lia)) as [Hlo _].
        pose proof (Zdigits2_pos m ltac:(lia)).
        assert (Zdigits2 m - 1 < 53) by (apply pow2_lt_inv; lia). lia. }
      rewrite shr_no_shift by (rewrite fexp_eq; lia).
      cbn [shr_record_of_loc shr_m].
      destruct m as [| p | p]; try lia. change (emax - prec) with 971. reflexivity.
Qed.

(** Comparing [m1 * 2^e1] with [m2 * 2^e2] at any common scale. *)
Lemma vle_at (c m1 e1 m2 e2 : Z) :
  c <= e1 -> c <= e2 ->
  (vle m1 e1 m2 e2 <-> m1 * 2 ^ (e1 - c) <= m2 * 2 ^ (e2 - c)).
Proof.
  intros H1 H2. unfold vle. set (c0 := Z.min e1 e2).
  assert (Hc0 : c <= c0) by lia.
  replace (e1 - c) with ((e1 - c0) + (c0 - c)) by lia.
  replace (e2 - c) with ((e2 - c0) + (c0 - c)) by lia.
  rewrite !pow2_add by lia.
  pose proof (pow2_pos (c0 - c) ltac:(lia)).
  split; intros; nia.
Qed.

Lemma vle_same_exp (m1 m2 e : Z) : vle m1 e m2 e <-> m1 <= m2.
Proof. rewrite (vle_at e) by lia. rewrite Z.sub_diag. cbn. lia. Qed.

Lemma vle_trans (m1 e1 m2 e2 m3 e3 : Z) :
  vle m1 e1 m2 e2 -> vle m2 e2 m3 e3 -> vle m1 e1 m3 e3.
Proof.
  set (c := Z.min e1 (Z.min e2 e3)).
  rewrite (vle_at c m1 e1 m2 e2), (vle_at c m2 e2 m3 e3), (vle_at c m1 e1 m3 e3) by lia.
  lia.
Qed.

(** A mantissa below [2^k] at a smaller exponent stays below a mantissa of
    at least [2^(k-1)] at a larger one. *)
Lemma vle_exp_lt (m1 e1 m2 e2 k : Z) :
  1 <= k -> e1 < e2 -> 0 <= m1 <= 2 ^ k -> 2 ^ (k - 1) <= m2 -> vle m1 e1 m2 e2.
Proof.
  intros Hk He [Hm1 Hm1'] Hm2. rewrite (vle_at e1) by lia.
  rewrite Z.sub_diag. change (2 ^ 0) with 1.
  replace (e2 - e1) with (1 + (e2 - e1 - 1)) by lia.
  rewrite pow2_add by lia. change (2 ^ 1) with 2.
  pose proof (pow2_pos (e2 - e1 - 1) ltac:(lia)).
  replace k with ((k - 1) + 1) in Hm1' by lia. rewrite pow2_succ in Hm1' by lia.
  pose proof (pow2_pos (k - 1) ltac:(lia)). nia.
Qed.

Lemma ifloor_at (c m e : Z) :
  c <= e -> c <= 0 -> ifloor m e = (m * 2 ^ (e - c)) / 2 ^ (- c).
Proof.
  intros Hce Hc0. unfold ifloor.
  pose proof (pow2_pos (- c) ltac:(lia)).
  destruct (Z.leb_spec 0 e).
  - replace (e - c) with (e + - c) by lia. rewrite pow2_add by lia.
    rewrite Z.mul_assoc, Z.div_mul by lia. reflexivity.
  - replace (- c) with ((- e) + (e - c)) by lia. rewrite pow2_add by lia.
    pose proof (pow2_pos (e - c) ltac:(lia)). pose proof (pow2_pos (- e) ltac:(lia)).
    rewrite Z.div_mul_cancel_r by lia. reflexivity.
Qed.

Lemma iceil_at (c m e : Z) :
  c <= e -> c <= 0 -> iceil m e = - ((- (m * 2 ^ (e - c))) / 2 ^ (- c)).
Proof.
  intros Hce Hc0. unfold iceil.
  pose proof (pow2_pos (- c) ltac:(lia)).
  destruct (Z.leb_spec 0 e).
  - replace (e - c) with (e + - c) by lia. rewrite pow2_add by lia.
    rewrite Z.mul_assoc, <- Z.mul_opp_l, Z.div_mul by lia. lia.
  - replace (- c) with ((- e) + (e - c)) by lia. rewrite pow2_add by lia.
    pose proof (pow2_pos (e - c) ltac:(lia)). pose proof (pow2_pos (- e) ltac:(lia)).
    rewrite <- Z.mul_opp_l, Z.div_mul_cancel_r by lia. reflexivity.
Qed.

Lemma ifloor_mono (m1 e1 m2 e2 : Z) :
  vle m1 e1 m2 e2 -> ifloor m1 e1 <= ifloor m2 e2.
Proof.
  set (c := Z.min 0 (Z.min e1 e2)).
  rewrite (vle_at c) by lia. intros Hv.
  rewrite (ifloor_at c m1 e1), (ifloor_at c m2 e2) by lia.
  apply Z.div_le_mono; [apply pow2_pos; lia | exact Hv].
Qed.

Lemma iceil_mono (m1 e1 m2 e2 : Z) :
  vle m1 e1 m2 e2 -> iceil m1 e1 <= iceil m2 e2.
Proof.
  set (c := Z.min 0 (Z.min e1 e2)).
  rewrite (vle_at c) by lia. intros Hv.
  rewrite (iceil_at c m1 e1), (iceil_at c m2 e2) by lia.
  pose proof (Z.div_le_mono (- (m2 * 2 ^ (e2 - c))) (- (m1 * 2 ^ (e1 - c))) (2 ^ (- c))
                ltac:(apply pow2_pos; lia) ltac:(lia)).
  lia.
Qed.

Lemma ifloor_nonneg (m e : Z) : 0 <= m -> 0 <= ifloor m e.
Proof.
  intros Hm. unfold ifloor. destruct (Z.leb_spec 0 e).
  - pose proof (pow2_pos e ltac:(lia)). nia.
  - apply Z.div_pos; [lia | apply pow2_pos; lia].
Qed.

Lemma iceil_nonneg (m e : Z) : 0 <= m -> 0 <= iceil m e.
Proof.
  intros Hm. unfold iceil. destruct (Z.leb_spec 0 e).
  - pose proof (pow2_pos e ltac:(lia)). nia.
  - pose proof (pow2_pos (- e) ltac:(lia)) as Hk.
    pose proof (Z.div_le_upper_bound (- m) (2 ^ (- e)) 0 Hk ltac:(lia)). lia.
Qed.

(** The integer part of the number [round_finish] returns is the integer part of
    [m * 2^E]. *)
Lemma floor_fin (s : bool) (m E t : Z) :
  emin <= E -> 0 <= m <= 2 ^ 53 ->
  F64.floor (round_finish s m E) = Ok t ->
  t = if s then - iceil m E else ifloor m E.
Proof.
  intros HE Hm. rewrite fin_shape by assumption.
  destruct (Z.eqb_spec m 0) as [-> | Hnz].
  - cbn. intros [= <-]. unfold iceil, ifloor. destruct s, (0 <=? E); cbn; reflexivity.
  - destruct (Z.eqb_spec m (2 ^ 53)) as [-> | Hne].
    + destruct (E + 1 <=? 971); [| discriminate]. cbn [F64.floor]. intros [= <-].
      assert (Hv1 : vle (2 ^ 52) (E + 1) (2 ^ 53) E)
        by (rewrite (vle_at E) by lia; replace (E + 1 - E) with 1 by lia;
            rewrite Z.sub_diag; cbn; lia).
      assert (Hv2 : vle (2 ^ 53) E (2 ^ 52) (E + 1))
        by (rewrite (vle_at E) by lia; replace (E + 1 - E) with 1 by lia;
            rewrite Z.sub_diag; cbn; lia).
      change (F64.mag_floor (2 ^ 52) (E + 1)) with (ifloor (2 ^ 52) (E + 1)).
      change (F64.mag_ceil (2 ^ 52) (E + 1)) with (iceil (2 ^ 52) (E + 1)).
      pose proof (ifloor_mono _ _ _ _ Hv1). pose proof (ifloor_mono _ _ _ _ Hv2).
      pose proof (iceil_mono _ _ _ _ Hv1). pose proof (iceil_mono _ _ _ _ Hv2).
      destruct s; lia.
    + destruct (E <=? 971); [| discriminate]. cbn [F64.floor]. intros [= <-].
      destruct m as [| p | p]; try lia. reflexivity.
Qed.

Lemma to_int_fin (m E t : Z) :
  emin <= E -> 0 <= m <= 2 ^ 53 ->
  F64.to_int (round_finish false m E) = Ok t -> t = ifloor m E.
Proof.
  intros HE Hm H. apply (floor_fin false m E t HE Hm).
  revert H. rewrite fin_shape by assumption.
  repeat match goal with |- context [if ?b then _ else _] => destruct b end;
    cbn [F64.to_int F64.floor]; auto.
Qed.

End Finish.

Section Sqrt.
Import F64 rounding.

Lemma bounded_facts (m : positive) (e : Z) :
  bounded prec emax m e = true ->
  Zdigits2 (Z.pos m) <= 53 /\ -1074 <= e <= 971 /\ fexp (Zdigits2 (Z.pos m) + e) = e.
Proof.
  unfold bounded, canonical_mantissa. fold fexp. cbn [Zdigits2].
  intros H. apply andb_prop in H as [H1 H2].
  apply Z.eqb_eq in H1. apply Z.leb_le in H2. change (emax - prec) with 971 in H2.
  rewrite fexp_eq in *. lia.
Qed.

(** A canonical double above the smallest exponent has all 53 bits. *)
Lemma bounded_normal (m : positive) (e : Z) :
  bounded prec emax m e = true -> -1074 < e -> Zdigits2 (Z.pos m) = 53.
Proof.
  intros H He. destruct (bounded_facts m e H) as (Hd & _ & Hf).
  rewrite fexp_eq in Hf. lia.
Qed.

Lemma rne_code_code (m : Z) (l : location) :
  rne_code (code m l) = round_nearest_even m l.
Proof.
  destruct (code_of_loc m l) as [Hc Hm].
  rewrite <- Hc, <- rne_code_rec, Hm. f_equal. destruct l as [| []]; reflexivity.
Qed.

Lemma isqrt_near_mono (M1 M2 : Z) : 0 <= M1 <= M2 -> isqrt_near M1 <= isqrt_near M2.
Proof.
  intros [H1 H12]. unfold isqrt_near.
  pose proof (Z.sqrt_le_mono M1 M2 H12) as Hq.
  pose proof (Z.sqrt_spec M1 H1) as Hs1. pose proof (Z.sqrt_spec M2 ltac:(lia)) as Hs2.
  cbv zeta in Hs1, Hs2.
  destruct (Z.leb_spec (M1 - Z.sqrt M1 * Z.sqrt M1) (Z.sqrt M1));
    destruct (Z.leb_spec (M2 - Z.sqrt M2 * Z.sqrt M2) (Z.sqrt M2)); try lia.
  assert (Z.sqrt M1 < Z.sqrt M2 \/ Z.sqrt M1 = Z.sqrt M2) as [| Heq] by lia; [lia |].
  rewrite Heq in *. lia.
Qed.

Lemma isqrt_near_bounds (M : Z) :
  2 ^ 104 <= M < 2 ^ 106 -> 2 ^ 52 <= Z.sqrt M < 2 ^ 53 /\ 2 ^ 52 <= isqrt_near M <= 2 ^ 53.
Proof.
  intros [Hlo Hhi].
  assert (H52 : 2 ^ 52 <= Z.sqrt M).
  { apply Z.sqrt_le_square; [lia | lia |]. exact Hlo. }
  assert (H53 : Z.sqrt M < 2 ^ 53).
  { apply Z.sqrt_lt_square; [lia | lia |]. exact Hhi. }
  split; [lia |]. unfold isqrt_near. destruct (_ <=? _); lia.
Qed.

Lemma sqrt_exp_facts (m : positive) (e : Z) :
  bounded prec emax m e = true ->
  let d := Zdigits2 (Z.pos m) in
  let E := sqrt_exp (Z.pos m) e in
  -600 <= E <= 460 /\ 52 <= e - 2 * E /\
  (d + (e - 2 * E) = 105 \/ d + (e - 2 * E) = 106) /\
  Z.min (fexp (Z.div2 (d + e + 1))) (Z.div2 e) = E.
Proof.
  intros H d E. destruct (bounded_facts m e H) as (Hd & He & _).
  pose proof (Zdigits2_pos (Z.pos m) ltac:(lia)) as Hd0. fold d in Hd, Hd0.
  unfold E, sqrt_exp. fold d. rewrite !Z.div2_div, fexp_eq.
  pose proof (Z.div_mod (d + e + 1) 2 ltac:(lia)).
  pose proof (Z.mod_pos_bound (d + e + 1) 2 ltac:(lia)).
  pose proof (Z.div_mod e 2 ltac:(lia)).
  pose proof (Z.mod_pos_bound e 2 ltac:(lia)).
  lia.
Qed.

(** The square root of a positive double: the nearest integer to the square
    root of its mantissa scaled to 105 or 106 bits, at half the exponent. *)
Lemma SFsqrt_fin (m : positive) (e : Z) :
  bounded prec emax m e = true ->
  let E := sqrt_exp (Z.pos m) e in
  let M := Z.pos m * 2 ^ (e - 2 * E) in
  fsqrt (S754_finite false m e) = round_finish false (isqrt_near M) E /\
  2 ^ 52 <= isqrt_near M <= 2 ^ 53.
Proof.
  intros H E M.
  destruct (sqrt_exp_facts m e H) as (HE & Hs & Hds & Hmin). fold E in HE, Hs, Hds, Hmin.
  pose proof (Zdigits2_bounds (Z.pos m) ltac:(lia)) as [Hmlo Hmhi].
  pose proof (Zdigits2_pos (Z.pos m) ltac:(lia)) as Hd0.
  assert (HM : 2 ^ 104 <= M < 2 ^ 106).
  { unfold M. set (s := e - 2 * E) in *. set (d := Zdigits2 (Z.pos m)) in *.
    assert (Hlo : 2 ^ (d - 1) * 2 ^ s <= Z.pos m * 2 ^ s)
      by (apply Z.mul_le_mono_nonneg_r; [pose proof (pow2_pos s); lia | lia]).
    assert (Hhi : Z.pos m * 2 ^ s < 2 ^ d * 2 ^ s)
      by (apply Z.mul_lt_mono_pos_r; [apply pow2_pos; lia | lia]).
    rewrite <- pow2_add in Hlo, Hhi by lia.
    pose proof (pow2_le 104 (d - 1 + s) ltac:(lia)).
    pose proof (pow2_le (d + s) 106 ltac:(lia)). lia. }
  destruct (isqrt_near_bounds M HM) as [Hq Hnear].
  split; [| exact Hnear].
  unfold fsqrt, SFsqrt, SFsqrt_core_binary. fold fexp. rewrite Hmin.
  destruct (e - 2 * E) as [| s | s] eqn:Hse; try lia.
  rewrite Z.shiftl_mul_pow2 by lia. fold M.
  pose proof (Z.sqrtrem_spec M ltac:(lia)) as Hspec.
  pose proof (Z.sqrtrem_sqrt M) as Hfst.
  destruct (Z.sqrtrem M) as [q r]. cbn [fst] in Hfst. subst q.
  destruct Hspec as [HMq Hr].
  assert (Hdq : Zdigits2 (Z.sqrt M) = 53) by (apply Zdigits2_unique; lia).
  rewrite bra_fine; [| lia | rewrite Hdq, fexp_eq; lia].
  rewrite Hdq. replace (fexp (53 + E)) with E by (rewrite fexp_eq; lia).
  rewrite Z.sub_diag, sshift_0, rne_code_code.
  f_equal. unfold isqrt_near.
  replace (M - Z.sqrt M * Z.sqrt M) with r by lia.
  destruct (Z.eqb_spec r 0) as [-> | Hr0]; cbn [round_nearest_even].
  - destruct (Z.leb_spec 0 (Z.sqrt M)); [reflexivity | lia].
  - destruct (r <=? Z.sqrt M); reflexivity.
Qed.

(** The order of two positive doubles in terms of the numbers they stand
    for. *)
Lemma finite_ltb_vle (m1 m2 : positive) (e1 e2 : Z) :
  bounded prec emax m1 e1 = true -> bounded prec emax m2 e2 = true ->
  SFltb (S754_finite false m1 e1) (S754_finite false m2 e2) = true ->
  vle (Z.pos m1) e1 (Z.pos m2) e2.
Proof.
  intros H1 H2. unfold SFltb, SFcompare.
  destruct (bounded_facts m1 e1 H1) as (Hd1 & He1 & _).
  destruct (Z.compare_spec e1 e2) as [-> | Hlt | Hgt]; try discriminate.
  - rewrite Pos.compare_cont_spec. cbn [Pos.switch_Eq].
    destruct (Pos.compare_spec m1 m2); try discriminate. intros _.
    apply vle_same_exp. lia.
  - intros _. apply (vle_exp_lt _ _ _ _ 53); [lia | exact Hlt | |].
    + pose proof (Zdigits2_bounds (Z.pos m1) ltac:(lia)) as [_ Hhi].
      pose proof (Zdigits2_pos (Z.pos m1) ltac:(lia)).
      pose proof (pow2_le (Zdigits2 (Z.pos m1)) 53 ltac:(lia)). lia.
    + pose proof (bounded_normal m2 e2 H2 ltac:(lia)) as Hd2.
      pose proof (Zdigits2_bounds (Z.pos m2) ltac:(lia)) as [Hlo _].
      rewrite Hd2 in Hlo. exact Hlo.
Qed.

(** A larger number has at least as many bits above the binary point. *)
Lemma vle_magnitude (m1 e1 m2 e2 : Z) :
  0 < m1 -> 0 < m2 -> vle m1 e1 m2 e2 -> Zdigits2 m1 + e1 <= Zdigits2 m2 + e2.
Proof.
  intros Hm1 Hm2. set (c := Z.min e1 e2). rewrite (vle_at c) by lia. intros Hv.
  pose proof (Zdigits2_bounds m1 Hm1) as [Hlo1 _].
  pose proof (Zdigits2_bounds m2 Hm2) as [_ Hhi2].
  pose proof (Zdigits2_pos m1 Hm1). pose proof (Zdigits2_pos m2 Hm2).
  pose proof (pow2_pos (e1 - c) ltac:(lia)). pose proof (pow2_pos (e2 - c) ltac:(lia)).
  assert (Hl : 2 ^ (Zdigits2 m1 - 1 + (e1 - c)) <= m1 * 2 ^ (e1 - c))
    by (rewrite pow2_add by lia; nia).
  assert (Hh : m2 * 2 ^ (e2 - c) < 2 ^ (Zdigits2 m2 + (e2 - c)))
    by (rewrite pow2_add by lia; nia).
  assert (Zdigits2 m1 - 1 + (e1 - c) < Zdigits2 m2 + (e2 - c))
    by (apply pow2_lt_inv; lia).
  lia.
Qed.

(** The rounded square root is monotone. *)
Lemma sqrt_position_mono (m1 m2 : positive) (e1 e2 : Z) :
  bounded prec emax m1 e1 = true -> bounded prec emax m2 e2 = true ->
  vle (Z.pos m1) e1 (Z.pos m2) e2 ->
  let E1 := sqrt_exp (Z.pos m1) e1 in
  let E2 := sqrt_exp (Z.pos m2) e2 in
  vle (isqrt_near (Z.pos m1 * 2 ^ (e1 - 2 * E1))) E1
      (isqrt_near (Z.pos m2 * 2 ^ (e2 - 2 * E2))) E2.
Proof.
  intros H1 H2 Hv E1 E2.
  destruct (SFsqrt_fin m1 e1 H1) as [_ Hn1]. destruct (SFsqrt_fin m2 e2 H2) as [_ Hn2].
  destruct (sqrt_exp_facts m1 e1 H1) as (_ & Hs1 & _).
  destruct (sqrt_exp_facts m2 e2 H2) as (_ & Hs2 & _).
  fold E1 in Hn1, Hs1. fold E2 in Hn2, Hs2.
  pose proof (vle_magnitude (Z.pos m1) e1 (Z.pos m2) e2 ltac:(lia) ltac:(lia) Hv) as Hmag.
  assert (HE : E1 <= E2).
  { unfold E1, E2, sqrt_exp. rewrite !Z.div2_div.
    pose proof (Z.div_le_mono (Zdigits2 (Z.pos m1) + e1 + 1) (Zdigits2 (Z.pos m2) + e2 + 1) 2
                  ltac:(lia) ltac:(lia)). lia. }
  assert (E1 < E2 \/ E1 = E2) as [Hlt | Heq] by lia.
  - apply (vle_exp_lt _ _ _ _ 53); [lia | exact Hlt | lia | lia].
  - rewrite <- Heq in *. apply vle_same_exp. apply isqrt_near_mono. split.
    + pose proof (pow2_pos (e1 - 2 * E1) ltac:(lia)). lia.
    + apply (vle_at (2 * E1)); [lia | lia | exact Hv].
Qed.

End Sqrt.

Section SqrtPrice.
Import F64 rounding.

Lemma div4_code (k j : Z) : 0 <= j < 4 -> (4 * k + j) / 4 = k /\ (4 * k + j) mod 4 = j.
Proof.
  intros Hj. split.
  - symmetry. apply (Z.div_unique_pos _ 4 k j); lia.
  - symmetry. apply (Z.mod_unique_pos _ 4 k j); lia.
Qed.

Lemma rne_code_exact (k : Z) : rne_code (4 * k) = k.
Proof.
  unfold rne_code. destruct (div4_code k 0 ltac:(lia)) as [Hd Hm].
  rewrite Z.add_0_r in Hd, Hm. rewrite Hd, Hm. cbn. lia.
Qed.

(** Multiplying a normal double by [2^96] adds 96 to its exponent. *)
Lemma mul_Q96 (p : positive) (e : Z) :
  2 ^ 52 <= Z.pos p < 2 ^ 53 -> -1074 <= e <= 875 ->
  F64.mul (S754_finite false p e) (S754_finite false (2 ^ 52)%positive 44)
    = S754_finite false p (e + 96).
Proof.
  intros Hp He. unfold F64.mul, SFmul. cbn [xorb].
  rewrite Pos2Z.inj_mul. change (Z.pos (2 ^ 52)%positive) with (2 ^ 52).
  assert (Hd : Zdigits2 (Z.pos p * 2 ^ 52) = 105).
  { apply Zdigits2_unique; [lia |].
    change (2 ^ (105 - 1)) with (2 ^ 52 * 2 ^ 52).
    change (2 ^ 105) with (2 ^ 53 * 2 ^ 52).
    pose proof (pow2_pos 52 ltac:(lia)). nia. }
  rewrite bra_fine; [| lia | rewrite Hd, fexp_eq; lia].
  rewrite Hd. replace (fexp (105 + (e + 44))) with (e + 96) by (rewrite fexp_eq; lia).
  replace (e + 96 - (e + 44)) with 52 by lia.
  assert (Hs : sshift (code (Z.pos p * 2 ^ 52) loc_Exact) 52 = 4 * Z.pos p).
  { unfold code, sshift. change (2 ^ (52 + 1)) with (2 ^ 53).
    replace (4 * (Z.pos p * 2 ^ 52) + 0) with (2 * Z.pos p * 2 ^ 53)
      by (change (2 ^ 53) with (2 * 2 ^ 52); lia).
    rewrite Z.div_mul, Z.mod_mul by lia. cbn [Z.eqb]. lia. }
  rewrite Hs, rne_code_exact, fin_shape; [| rewrite emin_eq; lia | lia].
  destruct (Z.eqb_spec (Z.pos p) 0); [lia |].
  destruct (Z.eqb_spec (Z.pos p) (2 ^ 53)); [lia |].
  destruct (Z.leb_spec (e + 96) 971); [| lia]. reflexivity.
Qed.

Lemma of_int_Q96 : F64.of_int (2 ^ 96) = Ok (S754_finite false (2 ^ 52)%positive 44).
Proof. vm_compute. reflexivity. Qed.

(** [int(math.sqrt(P) * 2**96)] for a positive double [P]. *)
Lemma sqrtPriceX96_float_eq (m : positive) (e : Z) :
  bounded prec emax m e = true ->
  let E := sqrt_exp (Z.pos m) e in
  uniswapv3.sqrtPriceX96_float (S754_finite false m e)
    = Ok (ifloor (isqrt_near (Z.pos m * 2 ^ (e - 2 * E))) (E + 96)).
Proof.
  intros H E. destruct (SFsqrt_fin m e H) as [Hsq Hnear].
  destruct (sqrt_exp_facts m e H) as (HE & _). fold E in Hsq, Hnear, HE.
  set (near := isqrt_near (Z.pos m * 2 ^ (e - 2 * E))) in *.
  unfold uniswapv3.sqrtPriceX96_float. cbn [F64.math_sqrt mbind result_bind].
  rewrite Hsq. change uniswapv3.Q96_INT with (2 ^ 96). rewrite of_int_Q96.
  cbn [mbind result_bind Ok].
  rewrite fin_shape; [| rewrite emin_eq; lia | lia].
  destruct (Z.eqb_spec near 0); [lia |].
  destruct (Z.eqb_spec near (2 ^ 53)) as [Heq | Hne].
  - destruct (Z.leb_spec (E + 1) 971); [| lia].
    rewrite mul_Q96 by lia. cbn [F64.to_int]. f_equal.
    change (F64.mag_floor (2 ^ 52) (E + 1 + 96)) with (ifloor (2 ^ 52) (E + 1 + 96)).
    rewrite Heq. apply Z.le_antisymm; apply ifloor_mono;
      (rewrite (vle_at (E + 96)) by lia);
      replace (E + 1 + 96 - (E + 96)) with 1 by lia; rewrite Z.sub_diag; cbn; lia.
  - destruct (Z.leb_spec E 971); [| lia].
    destruct near as [| p | p] eqn:Hp; try lia. cbn [Z.to_pos].
    rewrite mul_Q96 by lia. reflexivity.
Qed.

(** The fixed-point square-root price is monotone in the price. *)
Lemma sqrtPriceX96_float_mono (P1 P2 : float) (s1 s2 : Z) :
  valid_double P1 -> valid_double P2 ->
  SFltb zero P1 = true -> SFltb P1 P2 = true ->
  uniswapv3.sqrtPriceX96_float P1 = Ok s1 ->
  uniswapv3.sqrtPriceX96_float P2 = Ok s2 ->
  s1 <= s2.
Proof.
  intros V1 V2 Hpos Hlt.
  destruct P1 as [| [] | | [] m1 e1]; try discriminate Hpos.
  { destruct P2 as [| [] | | [] m2 e2]; discriminate Hlt. }
  destruct P2 as [| [] | | [] m2 e2]; try discriminate Hlt.
  { intros _ H. discriminate H. }
  unfold valid_double in V1, V2. cbn [valid_binary] in V1, V2.
  rewrite (sqrtPriceX96_float_eq m1 e1 V1), (sqrtPriceX96_float_eq m2 e2 V2).
  intros [= <-] [= <-]. apply ifloor_mono.
  pose proof (sqrt_position_mono m1 m2 e1 e2 V1 V2 (finite_ltb_vle m1 m2 e1 e2 V1 V2 Hlt))
    as Hv. cbv zeta in Hv.
  set (E1 := sqrt_exp (Z.pos m1) e1) in *. set (E2 := sqrt_exp (Z.pos m2) e2) in *.
  set (c := Z.min E1 E2).
  apply (vle_at c) in Hv; [| lia | lia]. apply (vle_at (c + 96)); [lia | lia |].
  replace (E1 + 96 - (c + 96)) with (E1 - c) by lia.
  replace (E2 + 96 - (c + 96)) with (E2 - c) by lia. exact Hv.
Qed.

End SqrtPrice.

Section Division.
Import F64 rounding.

Lemma sfloor_sfloor (N D B : Z) :
  0 < D -> 0 < B -> sfloor (sfloor N D) (2 * B) = sfloor N (D * B).
Proof.
  intros HD HB. unfold sfloor at 1 3.
  set (c' := sfloor N D).
  assert (Hc' : c' = 2 * (N / D) + (if N mod D =? 0 then 0 else 1)) by reflexivity.
  set (X := N / D) in *. set (rho := N mod D) in *.
  assert (HcX : N = D * X + rho) by (apply Z.div_mod; lia).
  assert (Hrho : 0 <= rho < D) by (apply Z.mod_pos_bound; lia).
  set (Y := X / B). set (sigma := X mod B).
  assert (HXY : X = B * Y + sigma) by (apply Z.div_mod; lia).
  assert (Hsigma : 0 <= sigma < B) by (apply Z.mod_pos_bound; lia).
  assert (Hdiv1 : c' / (2 * B) = Y).
  { symmetry. apply (Z.div_unique_pos c' (2 * B) Y (c' - 2 * B * Y)); [| lia].
    destruct (rho =? 0); nia. }
  assert (Hmod1 : c' mod (2 * B) = c' - 2 * B * Y).
  { rewrite Z.mod_eq by lia. rewrite Hdiv1. reflexivity. }
  assert (Hdiv2 : N / (D * B) = Y).
  { symmetry. apply (Z.div_unique_pos N (D * B) Y (D * sigma + rho)); nia. }
  assert (Hmod2 : N mod (D * B) = D * sigma + rho).
  { rewrite Z.mod_eq by nia. rewrite Hdiv2. nia. }
  rewrite Hdiv1, Hmod1, Hdiv2, Hmod2.
  destruct (Z.eqb_spec rho 0) as [Hr | Hr];
    destruct (Z.eqb_spec (c' - 2 * B * Y) 0); destruct (Z.eqb_spec (D * sigma + rho) 0);
    try lia; nia.
Qed.

Lemma sshift_sfloor (c n : Z) : 0 <= n -> sshift c n = sfloor c (2 * 2 ^ n).
Proof. intros Hn. unfold sshift, sfloor. rewrite pow2_succ by lia. reflexivity. Qed.

Lemma sshift_of_sfloor (N D n : Z) :
  0 < D -> 0 <= n -> sshift (sfloor N D) n = sfloor N (D * 2 ^ n).
Proof.
  intros HD Hn. rewrite sshift_sfloor by lia.
  apply sfloor_sfloor; [lia | apply pow2_pos; lia].
Qed.

Lemma sfloor_mono (N1 D1 N2 D2 : Z) :
  0 < D1 -> 0 < D2 -> N1 * D2 <= N2 * D1 -> sfloor N1 D1 <= sfloor N2 D2.
Proof.
  intros HD1 HD2 H. unfold sfloor.
  pose proof (Z.div_mod N1 D1 ltac:(lia)) as E1.
  pose proof (Z.div_mod N2 D2 ltac:(lia)) as E2.
  pose proof (Z.mod_pos_bound N1 D1 HD1) as B1.
  pose proof (Z.mod_pos_bound N2 D2 HD2) as B2.
  set (q1 := N1 / D1) in *. set (q2 := N2 / D2) in *.
  set (r1 := N1 mod D1) in *. set (r2 := N2 mod D2) in *.
  assert (Hq : q1 <= q2).
  { destruct (Z.le_gt_cases q1 q2) as [| Hgt]; [assumption |]. exfalso.
    assert (q2 + 1 <= q1) by lia.
    assert (N2 * D1 < (q2 + 1) * D2 * D1) by nia.
    assert ((q2 + 1) * D2 * D1 <= q1 * D1 * D2) by nia.
    nia. }
  destruct (Z.eqb_spec r1 0); destruct (Z.eqb_spec r2 0); try lia.
  assert (q1 < q2 \/ q1 = q2) as [| Heq] by lia; [lia |].
  exfalso. subst r2. nia.
Qed.

(** The position the division core returns is the code of the quotient. *)
Lemma div_core_code (N b : Z) :
  0 <= N -> 0 < b ->
  code (fst (Z.div_eucl N b)) (new_location b (snd (Z.div_eucl N b))) = sfloor (2 * N) b /\
  fst (Z.div_eucl N b) = N / b.
Proof.
  intros HN Hb.
  pose proof (Z_div_mod N b ltac:(lia)) as Hspec.
  assert (Hq : fst (Z.div_eucl N b) = N / b) by reflexivity.
  destruct (Z.div_eucl N b) as [q r]. cbn [fst snd] in *. destruct Hspec as [HNq Hr].
  split; [| exact Hq].
  unfold sfloor.
  assert (Hcases : (2 * r < b /\ (2 * N) / b = 2 * q /\ (2 * N) mod b = 2 * r) \/
                   (b <= 2 * r /\ (2 * N) / b = 2 * q + 1 /\ (2 * N) mod b = 2 * r - b)).
  { destruct (Z.lt_ge_cases (2 * r) b); [left | right]; (split; [lia |]); split.
    - symmetry. apply (Z.div_unique_pos _ b (2 * q) (2 * r)); lia.
    - symmetry. apply (Z.mod_unique_pos _ b (2 * q) (2 * r)); lia.
    - symmetry. apply (Z.div_unique_pos _ b (2 * q + 1) (2 * r - b)); lia.
    - symmetry. apply (Z.mod_unique_pos _ b (2 * q + 1) (2 * r - b)); lia. }
  unfold code, new_location, new_location_even, new_location_odd.
  destruct (Z.even b) eqn:Hev.
  - destruct (Z.eqb_spec r 0) as [-> | Hr0].
    + destruct Hcases as [(_ & -> & ->) | (? & _)]; [change (2 * 0) with 0; cbn [Z.eqb]; lia | lia].
    + destruct (Z.compare_spec (2 * r) b) as [Heq | Hlt | Hgt];
        destruct Hcases as [(? & -> & ->) | (? & -> & ->)]; try lia;
        match goal with |- context [?x =? 0] => destruct (Z.eqb_spec x 0) end; lia.
  - assert (Hodd : Z.odd b = true) by (rewrite <- Z.negb_even, Hev; reflexivity).
    apply Z.odd_spec in Hodd as [k Hk].
    destruct (Z.eqb_spec r 0) as [-> | Hr0].
    + destruct Hcases as [(_ & -> & ->) | (? & _)]; [change (2 * 0) with 0; cbn [Z.eqb]; lia | lia].
    + destruct (Z.compare_spec (2 * r + 1) b) as [Heq | Hlt | Hgt];
        destruct Hcases as [(? & -> & ->) | (? & -> & ->)]; try lia;
        match goal with |- context [?x =? 0] => destruct (Z.eqb_spec x 0) end; lia.
Qed.

Lemma rne_code_bounds (c : Z) : c / 4 <= rne_code c <= c / 4 + 1.
Proof.
  unfold rne_code.
  repeat match goal with |- context [if ?b then _ else _] => destruct b end; lia.
Qed.

Lemma sfloor_div4 (N D : Z) : 0 < D -> sfloor N D / 4 = N / (2 * D).
Proof.
  intros HD. unfold sfloor.
  pose proof (Z.div_mod N D ltac:(lia)) as E1.
  pose proof (Z.mod_pos_bound N D HD) as B1.
  set (X := N / D) in *. set (r := N mod D) in *.
  pose proof (Z.div_mod X 2 ltac:(lia)) as E2.
  pose proof (Z.mod_pos_bound X 2 ltac:(lia)) as B2.
  assert (H1 : (2 * X + (if r =? 0 then 0 else 1)) / 4 = X / 2).
  { symmetry.
    apply (Z.div_unique_pos _ 4 (X / 2) (2 * (X mod 2) + (if r =? 0 then 0 else 1)));
      destruct (r =? 0); lia. }
  rewrite H1.
  apply (Z.div_unique_pos N (2 * D) (X / 2) (D * (X mod 2) + r)); nia.
Qed.

End Division.

Section DivRound.
Import F64 rounding.

Lemma dcore_s_nonneg a ea b eb : 0 <= dcore_s a ea b eb.
Proof. unfold dcore_s, dcore_e. lia. Qed.

Lemma dcore_q_spec a ea b eb :
  0 < a -> 0 < b ->
  let q := dcore_q a ea b eb in
  let N := a * 2 ^ dcore_s a ea b eb in
  0 <= q /\ q * b <= N < (q + 1) * b /\ 0 < N.
Proof.
  intros Ha Hb q N. pose proof (dcore_s_nonneg a ea b eb) as Hs.
  pose proof (pow2_pos _ Hs) as Hp.
  assert (HN : 0 < N) by (unfold N; nia).
  pose proof (Z.div_mod N b ltac:(lia)) as E1.
  pose proof (Z.mod_pos_bound N b Hb) as B1.
  pose proof (Z.div_pos N b ltac:(lia) Hb).
  unfold q, dcore_q. fold N. split; [lia |]. split; [nia | lia].
Qed.

(** The position of the core is never coarser than the format asks. *)
Lemma dcore_fine a ea b eb :
  0 < a -> 0 < b ->
  let e' := dcore_e a ea b eb in
  let q := dcore_q a ea b eb in
  e' <= fexp (Zdigits2 q + e') /\ (q = 0 -> fexp (Zdigits2 q + e') = -1074).
Proof.
  intros Ha Hb e' q.
  destruct (dcore_q_spec a ea b eb Ha Hb) as (Hq0 & [HqN HNq] & HN). fold q in Hq0, HqN, HNq.
  pose proof (dcore_s_nonneg a ea b eb) as Hs.
  set (s := dcore_s a ea b eb) in *.
  pose proof (Zdigits2_bounds a Ha) as [Halo Hahi]. pose proof (Zdigits2_pos a Ha) as Hda.
  pose proof (Zdigits2_bounds b Hb) as [Hblo Hbhi]. pose proof (Zdigits2_pos b Hb) as Hdb.
  set (da := Zdigits2 a) in *. set (db := Zdigits2 b) in *.
  assert (He' : e' <= fexp (da + ea - (db + eb))) by (unfold e', dcore_e; fold da db; lia).
  assert (Hes : e' = ea - eb - s) by (unfold s, dcore_s; fold e'; lia).
  pose proof (pow2_pos s Hs) as Hps.
  assert (HNlo : 2 ^ (da - 1 + s) <= a * 2 ^ s) by (rewrite pow2_add by lia; nia).
  assert (q = 0 \/ 0 < q) as [Hz | Hpos] by lia.
  - assert (Hlt : 2 ^ (da - 1 + s) < 2 ^ db) by lia.
    apply pow2_lt_inv in Hlt; [| lia | lia].
    rewrite Hz. cbn [Zdigits2]. rewrite !fexp_eq in *. lia.
  - split; [| lia].
    pose proof (Zdigits2_bounds q Hpos) as [Hqlo Hqhi]. pose proof (Zdigits2_pos q Hpos) as Hdq.
    set (dq := Zdigits2 q) in *.
    assert (Hdig : da - db + s <= dq).
    { destruct (Z.le_gt_cases (da - db + s) dq) as [| Hgt]; [assumption |]. exfalso.
      assert (H1 : (q + 1) * b < 2 ^ dq * 2 ^ db) by nia.
      rewrite <- pow2_add in H1 by lia.
      pose proof (pow2_le (dq + db) (da - 1 + s) ltac:(lia)). lia. }
    apply Z.le_trans with (1 := He'). apply fexp_mono. lia.
Qed.

Lemma SFdiv_fin (sx : bool) (a b : positive) (ea eb : Z) :
  div (S754_finite sx a ea) (S754_finite false b eb) =
    round_finish sx (fst (div_round (Z.pos a) ea (Z.pos b) eb))
           (snd (div_round (Z.pos a) ea (Z.pos b) eb)).
Proof.
  unfold div, SFdiv, SFdiv_core_binary, div_round. fold fexp. cbn [fst snd].
  rewrite xorb_false_r.
  destruct (dcore_fine (Z.pos a) ea (Z.pos b) eb) as [Hfine _]; [lia | lia |].
  destruct (dcore_q_spec (Z.pos a) ea (Z.pos b) eb) as (Hq0 & _); [lia | lia |].
  pose proof (dcore_s_nonneg (Z.pos a) ea (Z.pos b) eb) as Hs.
  unfold dcore_q, dcore_s, dcore_e in *.
  set (e' := Z.min (fexp (Zdigits2 (Z.pos a) + ea - (Zdigits2 (Z.pos b) + eb))) (ea - eb)) in *.
  set (s := ea - eb - e') in *.
  assert (Hm' : match s with
                | 0 => Z.pos a
                | Z.pos _ => Z.shiftl (Z.pos a) s
                | Z.neg _ => 0
                end = Z.pos a * 2 ^ s).
  { destruct s as [| p | p] eqn:Hse; [cbn; lia | | lia].
    rewrite Z.shiftl_mul_pow2 by lia. reflexivity. }
  rewrite Hm'. set (N := Z.pos a * 2 ^ s) in *.
  destruct (div_core_code N (Z.pos b)) as [Hcode Hfst];
    [pose proof (pow2_pos s Hs); unfold N; lia | lia |].
  destruct (Z.div_eucl N (Z.pos b)) as [q r]. cbn [fst snd] in Hcode, Hfst. subst q.
  rewrite bra_fine by assumption.
  rewrite Hcode, sshift_of_sfloor by lia. reflexivity.
Qed.

Lemma div_round_bounds a ea b eb :
  0 < a -> 0 < b ->
  let m' := fst (div_round a ea b eb) in
  let E := snd (div_round a ea b eb) in
  0 <= m' <= 2 ^ 53 /\ emin <= E /\ (emin < E -> 2 ^ 52 <= m').
Proof.
  intros Ha Hb. unfold div_round. cbn [fst snd]. fold (dcore_e a ea b eb).
  fold (dcore_s a ea b eb). fold (dcore_q a ea b eb).
  destruct (dcore_fine a ea b eb Ha Hb) as [Hfine Hzero].
  destruct (dcore_q_spec a ea b eb Ha Hb) as (Hq0 & [HqN HNq] & HN).
  pose proof (dcore_s_nonneg a ea b eb) as Hs.
  set (e' := dcore_e a ea b eb) in *. set (s := dcore_s a ea b eb) in *.
  set (q := dcore_q a ea b eb) in *. set (N := a * 2 ^ s) in *.
  set (E := fexp (Zdigits2 q + e')) in *. set (n := E - e').
  assert (Hn : 0 <= n) by (unfold n; lia).
  pose proof (pow2_pos n Hn) as Hpn.
  assert (HD : 0 < b * 2 ^ n) by nia.
  pose proof (rne_code_bounds (sfloor (2 * N) (b * 2 ^ n))) as Hr.
  rewrite sfloor_div4 in Hr by lia.
  rewrite Z.div_mul_cancel_l in Hr by lia.
  set (qs := N / (b * 2 ^ n)) in *.
  rewrite emin_eq.
  assert (HEmin : -1074 <= E) by (unfold E; rewrite fexp_eq; lia).
  assert (Hqs0 : 0 <= qs) by (apply Z.div_pos; lia).
  assert (Hqs53 : qs < 2 ^ 53).
  { apply Z.div_lt_upper_bound; [lia |].
    assert (q = 0 \/ 0 < q) as [Hz | Hpos] by lia.
    - rewrite Hz in HNq. pose proof (pow2_pos 53 ltac:(lia)). nia.
    - pose proof (Zdigits2_bounds q Hpos) as [_ Hqhi].
      pose proof (Zdigits2_pos q Hpos) as Hdq.
      assert (Hdn : Zdigits2 q <= n + 53) by (unfold n, E; rewrite fexp_eq; lia).
      pose proof (pow2_le (Zdigits2 q) (n + 53) ltac:(lia)) as Hle.
      rewrite pow2_add in Hle by lia. nia. }
  split; [lia |]. split; [lia |]. intros HE.
  assert (Hpos : 0 < q) by (destruct (Z.eq_dec q 0) as [Hz |]; [specialize (Hzero Hz); lia | lia]).
  pose proof (Zdigits2_bounds q Hpos) as [Hqlo _].
  pose proof (Zdigits2_pos q Hpos) as Hdq.
  assert (Hnd : n = Zdigits2 q - 53) by (unfold n, E in *; rewrite fexp_eq in *; lia).
  assert (2 ^ 52 <= qs); [| lia].
  apply Z.div_le_lower_bound; [lia |].
  assert (Hpw : 2 ^ n * 2 ^ 52 = 2 ^ (Zdigits2 q - 1))
    by (rewrite <- pow2_add by lia; f_equal; lia).
  nia.
Qed.

End DivRound.

Section DivMono.
Import F64 rounding.

(** A larger dividend gives a larger rounded quotient. *)
Lemma div_round_mono (a1 ea1 a2 ea2 b eb : Z) :
  0 < a1 -> 0 < a2 -> 0 < b ->
  vle a1 ea1 a2 ea2 ->
  vle (fst (div_round a1 ea1 b eb)) (snd (div_round a1 ea1 b eb))
      (fst (div_round a2 ea2 b eb)) (snd (div_round a2 ea2 b eb)).
Proof.
  intros Ha1 Ha2 Hb Hv.
  destruct (div_round_bounds a1 ea1 b eb Ha1 Hb) as (Hm1 & HE1 & _).
  destruct (div_round_bounds a2 ea2 b eb Ha2 Hb) as (Hm2 & HE2 & Hn2).
  revert Hm1 HE1 Hm2 HE2 Hn2.
  unfold div_round. cbn [fst snd].
  fold (dcore_e a1 ea1 b eb). fold (dcore_s a1 ea1 b eb). fold (dcore_q a1 ea1 b eb).
  fold (dcore_e a2 ea2 b eb). fold (dcore_s a2 ea2 b eb). fold (dcore_q a2 ea2 b eb).
  destruct (dcore_fine a1 ea1 b eb Ha1 Hb) as [Hf1 Hz1].
  destruct (dcore_fine a2 ea2 b eb Ha2 Hb) as [Hf2 Hz2].
  destruct (dcore_q_spec a1 ea1 b eb Ha1 Hb) as (Hq1 & [HqN1 HNq1] & HN1).
  destruct (dcore_q_spec a2 ea2 b eb Ha2 Hb) as (Hq2 & [HqN2 HNq2] & HN2).
  pose proof (dcore_s_nonneg a1 ea1 b eb) as Hs1.
  pose proof (dcore_s_nonneg a2 ea2 b eb) as Hs2.
  assert (Hes1 : dcore_s a1 ea1 b eb = ea1 - eb - dcore_e a1 ea1 b eb) by reflexivity.
  assert (Hes2 : dcore_s a2 ea2 b eb = ea2 - eb - dcore_e a2 ea2 b eb) by reflexivity.
  set (e1 := dcore_e a1 ea1 b eb) in *. set (s1 := dcore_s a1 ea1 b eb) in *.
  set (q1 := dcore_q a1 ea1 b eb) in *. set (N1 := a1 * 2 ^ s1) in *.
  set (e2 := dcore_e a2 ea2 b eb) in *. set (s2 := dcore_s a2 ea2 b eb) in *.
  set (q2 := dcore_q a2 ea2 b eb) in *. set (N2 := a2 * 2 ^ s2) in *.
  set (E1 := fexp (Zdigits2 q1 + e1)) in *. set (E2 := fexp (Zdigits2 q2 + e2)) in *.
  intros Hm1 HE1 Hm2 HE2 Hn2. rewrite emin_eq in *.
  (* the dividends compared at the scale of the two core positions *)
  set (c := Z.min e1 e2).
  assert (HvN : N1 * 2 ^ (e1 - c) <= N2 * 2 ^ (e2 - c)).
  { apply (vle_at (c + eb)) in Hv; [| lia | lia].
    unfold N1, N2. rewrite <- !Z.mul_assoc, <- !pow2_add by lia.
    replace (s1 + (e1 - c)) with (ea1 - (c + eb)) by lia.
    replace (s2 + (e2 - c)) with (ea2 - (c + eb)) by lia. exact Hv. }
  assert (HE12 : E1 <= E2).
  { assert (q1 = 0 \/ 0 < q1) as [Hz | Hpos] by lia.
    - rewrite (Hz1 Hz). unfold E2. rewrite fexp_eq. lia.
    - apply fexp_mono.
      pose proof (Zdigits2_bounds q1 Hpos) as [Hq1lo _].
      pose proof (Zdigits2_pos q1 Hpos) as Hdq1.
      assert (Hq2hi : q2 + 1 <= 2 ^ Zdigits2 q2).
      { assert (q2 = 0 \/ 0 < q2) as [-> | Hpos2] by lia; [cbn; lia |].
        pose proof (Zdigits2_bounds q2 Hpos2). lia. }
      assert (Hdq2 : 0 <= Zdigits2 q2) by (destruct q2; cbn; lia).
      pose proof (pow2_pos (e1 - c) ltac:(lia)) as Hp1.
      pose proof (pow2_pos (e2 - c) ltac:(lia)) as Hp2.
      assert (Hlt : q1 * 2 ^ (e1 - c) < (q2 + 1) * 2 ^ (e2 - c)).
      { assert (q1 * b * 2 ^ (e1 - c) < (q2 + 1) * b * 2 ^ (e2 - c)) by nia. nia. }
      assert (Hl : 2 ^ (Zdigits2 q1 - 1 + (e1 - c)) <= q1 * 2 ^ (e1 - c))
        by (rewrite pow2_add by lia; nia).
      assert (Hh : (q2 + 1) * 2 ^ (e2 - c) <= 2 ^ (Zdigits2 q2 + (e2 - c)))
        by (rewrite pow2_add by lia; nia).
      assert (Zdigits2 q1 - 1 + (e1 - c) < Zdigits2 q2 + (e2 - c))
        by (apply pow2_lt_inv; lia).
      lia. }
  assert (E1 < E2 \/ E1 = E2) as [Hlt | Heq] by lia.
  - apply (vle_exp_lt _ _ _ _ 53); [lia | exact Hlt | lia | apply Hn2; lia].
  - rewrite <- Heq in *. apply vle_same_exp. apply rne_code_mono.
    pose proof (pow2_pos (E1 - e1) ltac:(lia)). pose proof (pow2_pos (E1 - e2) ltac:(lia)).
    apply sfloor_mono; [nia | nia |].
    assert (Hk : 0 <= E1 - e1 - e2 + c) by lia.
    pose proof (pow2_pos _ Hk) as Hpk.
    assert (H1 : 2 ^ (E1 - e2) = 2 ^ (e1 - c) * 2 ^ (E1 - e1 - e2 + c))
      by (rewrite <- pow2_add by lia; f_equal; lia).
    assert (H2 : 2 ^ (E1 - e1) = 2 ^ (e2 - c) * 2 ^ (E1 - e1 - e2 + c))
      by (rewrite <- pow2_add by lia; f_equal; lia).
    rewrite H1, H2. nia.
Qed.

End DivMono.

Section TickOrder.
Import F64 rounding.

Lemma canonical_vle (m1 m2 : positive) (e1 e2 : Z) :
  bounded prec emax m1 e1 = true -> bounded prec emax m2 e2 = true ->
  e1 < e2 \/ (e1 = e2 /\ (m1 <= m2)%positive) ->
  vle (Z.pos m1) e1 (Z.pos m2) e2.
Proof.
  intros H1 H2 [Hlt | [-> Hm]].
  - destruct (bounded_facts m1 e1 H1) as (Hd1 & He1 & _).
    apply (vle_exp_lt _ _ _ _ 53); [lia | exact Hlt | |].
    + pose proof (Zdigits2_bounds (Z.pos m1) ltac:(lia)) as [_ Hhi].
      pose proof (Zdigits2_pos (Z.pos m1) ltac:(lia)).
      pose proof (pow2_le (Zdigits2 (Z.pos m1)) 53 ltac:(lia)). lia.
    + pose proof (bounded_normal m2 e2 H2 ltac:(lia)) as Hd2.
      pose proof (Zdigits2_bounds (Z.pos m2) ltac:(lia)) as [Hlo _].
      rewrite Hd2 in Hlo. exact Hlo.
  - apply vle_same_exp. lia.
Qed.

Lemma finite_leb_vle (m1 m2 : positive) (e1 e2 : Z) :
  bounded prec emax m1 e1 = true -> bounded prec emax m2 e2 = true ->
  SFleb (S754_finite false m1 e1) (S754_finite false m2 e2) = true ->
  vle (Z.pos m1) e1 (Z.pos m2) e2.
Proof.
  intros H1 H2. unfold SFleb, SFcompare. intros H.
  apply canonical_vle; try assumption.
  destruct (Z.compare_spec e1 e2) as [-> | Hlt | Hgt]; [| left; lia | discriminate].
  right. split; [reflexivity |].
  rewrite Pos.compare_cont_spec in H. cbn [Pos.switch_Eq] in H.
  destruct (Pos.compare_spec m1 m2); [lia | lia | discriminate].
Qed.

Lemma finite_leb_vle_neg (m1 m2 : positive) (e1 e2 : Z) :
  bounded prec emax m1 e1 = true -> bounded prec emax m2 e2 = true ->
  SFleb (S754_finite true m1 e1) (S754_finite true m2 e2) = true ->
  vle (Z.pos m2) e2 (Z.pos m1) e1.
Proof.
  intros H1 H2. unfold SFleb, SFcompare. intros H.
  apply canonical_vle; try assumption.
  destruct (Z.compare_spec e1 e2) as [-> | Hlt | Hgt]; [| discriminate | left; lia].
  right. split; [reflexivity |].
  rewrite Pos.compare_cont_spec in H. cbn [Pos.switch_Eq] in H.
  destruct (Pos.compare_spec m1 m2); cbn in H; [lia | discriminate | lia].
Qed.

(** The floor of a quotient by a positive double. *)
Lemma floor_div_finite (s : bool) (a b : positive) (ea eb t : Z) :
  F64.floor (div (S754_finite s a ea) (S754_finite false b eb)) = Ok t ->
  t = if s
      then - iceil (fst (div_round (Z.pos a) ea (Z.pos b) eb))
                   (snd (div_round (Z.pos a) ea (Z.pos b) eb))
      else ifloor (fst (div_round (Z.pos a) ea (Z.pos b) eb))
                  (snd (div_round (Z.pos a) ea (Z.pos b) eb)).
Proof.
  rewrite SFdiv_fin.
  destruct (div_round_bounds (Z.pos a) ea (Z.pos b) eb) as (Hm & HE & _); [lia | lia |].
  apply floor_fin; assumption.
Qed.

(** Dividing by a positive double and taking the floor is monotone. *)
Lemma floor_div_mono (n1 n2 : float) (b : positive) (eb t1 t2 : Z) :
  valid_double n1 -> valid_double n2 -> SFleb n1 n2 = true ->
  F64.floor (div n1 (S754_finite false b eb)) = Ok t1 ->
  F64.floor (div n2 (S754_finite false b eb)) = Ok t2 ->
  t1 <= t2.
Proof.
  intros V1 V2 Hle H1 H2.
  destruct n1 as [s1 | s1 | | s1 a1 e1]; try discriminate H1;
    destruct n2 as [s2 | s2 | | s2 a2 e2]; try discriminate H2.
  - cbn in H1, H2. injection H1 as <-. injection H2 as <-. lia.
  - cbn in H1. injection H1 as <-.
    apply floor_div_finite in H2.
    destruct (div_round_bounds (Z.pos a2) e2 (Z.pos b) eb) as (Hm & _); [lia | lia |].
    destruct s2; [discriminate Hle |].
    pose proof (ifloor_nonneg _ (snd (div_round (Z.pos a2) e2 (Z.pos b) eb)) (proj1 Hm)). lia.
  - cbn in H2. injection H2 as <-.
    apply floor_div_finite in H1.
    destruct (div_round_bounds (Z.pos a1) e1 (Z.pos b) eb) as (Hm & _); [lia | lia |].
    destruct s1; [| discriminate Hle].
    pose proof (iceil_nonneg _ (snd (div_round (Z.pos a1) e1 (Z.pos b) eb)) (proj1 Hm)). lia.
  - apply floor_div_finite in H1. apply floor_div_finite in H2.
    unfold valid_double in V1, V2. cbn [valid_binary] in V1, V2.
    destruct (div_round_bounds (Z.pos a1) e1 (Z.pos b) eb) as (Hm1 & _); [lia | lia |].
    destruct (div_round_bounds (Z.pos a2) e2 (Z.pos b) eb) as (Hm2 & _); [lia | lia |].
    destruct s1, s2.
    + pose proof (finite_leb_vle_neg a1 a2 e1 e2 V1 V2 Hle) as Hv.
      pose proof (div_round_mono (Z.pos a2) e2 (Z.pos a1) e1 (Z.pos b) eb
                    (Pos2Z.is_pos a2) (Pos2Z.is_pos a1) (Pos2Z.is_pos b) Hv) as H.
      pose proof (iceil_mono _ _ _ _ H). lia.
    + pose proof (iceil_nonneg _ (snd (div_round (Z.pos a1) e1 (Z.pos b) eb)) (proj1 Hm1)).
      pose proof (ifloor_nonneg _ (snd (div_round (Z.pos a2) e2 (Z.pos b) eb)) (proj1 Hm2)).
      lia.
    + discriminate Hle.
    + pose proof (finite_leb_vle a1 a2 e1 e2 V1 V2 Hle) as Hv.
      pose proof (div_round_mono (Z.pos a1) e1 (Z.pos a2) e2 (Z.pos b) eb
                    (Pos2Z.is_pos a1) (Pos2Z.is_pos a2) (Pos2Z.is_pos b) Hv) as H.
      pose proof (ifloor_mono _ _ _ _ H). lia.
Qed.

End TickOrder.

Section PriceOrder.
Import F64 rounding.

Variable libm_log : float -> float.

(** The three tick functions floor the same quotient. *)
Lemma tick_floor_div (m b : positive) (e eb : Z) :
  let P := S754_finite false m e in
  libm_log f1_0001 = S754_finite false b eb ->
  uniswapv3.tick_from_price libm_log P
    = F64.floor (div (libm_log P) (S754_finite false b eb)) /\
  first_swap.price_to_tick libm_log P
    = F64.floor (div (libm_log P) (S754_finite false b eb)).
Proof.
  intros P Hd.
  destruct (tick_of_positive libm_log m e (div (libm_log P) (S754_finite false b eb)))
    as [H1 H2].
  - intros s. rewrite Hd. discriminate.
  - rewrite Hd. reflexivity.
  - split; assumption.
Qed.

(** The tick is monotone where the logarithm is. *)
Lemma tick_order (m1 m2 b : positive) (e1 e2 eb t1 t2 : Z) :
  let P1 := S754_finite false m1 e1 in
  let P2 := S754_finite false m2 e2 in
  libm_log f1_0001 = S754_finite false b eb ->
  valid_double (libm_log P1) -> valid_double (libm_log P2) ->
  SFleb (libm_log P1) (libm_log P2) = true ->
  (uniswapv3.tick_from_price libm_log P1 = Ok t1 ->
   uniswapv3.tick_from_price libm_log P2 = Ok t2 -> t1 <= t2) /\
  (first_swap.price_to_tick libm_log P1 = Ok t1 ->
   first_swap.price_to_tick libm_log P2 = Ok t2 -> t1 <= t2).
Proof.
  intros P1 P2 Hd V1 V2 Hle.
  destruct (tick_floor_div m1 b e1 eb Hd) as [A1 B1].
  destruct (tick_floor_div m2 b e2 eb Hd) as [A2 B2].
  fold P1 in A1, B1. fold P2 in A2, B2.
  rewrite A1, A2, B1, B2.
  split; apply (floor_div_mono _ _ b eb t1 t2 V1 V2 Hle).
Qed.

(** The square-root price of a positive finite double is always returned. *)
Lemma sqrtPriceX96_float_total (m : positive) (e : Z) :
  bounded prec emax m e = true ->
  exists s, uniswapv3.sqrtPriceX96_float (S754_finite false m e) = Ok s.
Proof. intros V. rewrite (sqrtPriceX96_float_eq m e V). eauto. Qed.

(** C8, amended.  For two positive finite doubles [P1 < P2] the fixed-point
    square-root price of both pages is returned for both and is monotone,
    not strictly: [sqrtPriceX96(P1) <= sqrtPriceX96(P2)].  The tick is
    monotone, [tick(P1) <= tick(P2)], for all three tick functions whenever
    both ticks are returned, [log(1.0001)] is a positive finite double and
    the C library's [log] is ordered on the two prices,
    [log(P1) <= log(P2)]: dividing by [log(1.0001)], rounding the quotient
    and taking the floor keep the order. *)
Theorem C8_price_conversions_monotone (m1 m2 : positive) (e1 e2 : Z) :
  let P1 := S754_finite false m1 e1 in
  let P2 := S754_finite false m2 e2 in
  valid_double P1 -> valid_double P2 -> F64.ltb P1 P2 = true ->
  (exists s1 s2,
     uniswapv3.sqrtPriceX96_float P1 = Ok s1 /\
     uniswapv3.sqrtPriceX96_float P2 = Ok s2 /\
     first_swap.price_to_sqrtp_x96 P1 = Ok s1 /\
     first_swap.price_to_sqrtp_x96 P2 = Ok s2 /\
     s1 <= s2) /\
  (forall b eb t1 t2,
     libm_log f1_0001 = S754_finite false b eb ->
     valid_double (libm_log P1) -> valid_double (libm_log P2) ->
     F64.leb (libm_log P1) (libm_log P2) = true ->
     (uniswapv3.tick_from_price libm_log P1 = Ok t1 ->
      uniswapv3.tick_from_price libm_log P2 = Ok t2 -> t1 <= t2) /\
     (first_swap.price_to_tick libm_log P1 = Ok t1 ->
      first_swap.price_to_tick libm_log P2 = Ok t2 -> t1 <= t2) /\
     (manager_contract.price_to_tick libm_log P1 = Ok t1 ->
      manager_contract.price_to_tick libm_log P2 = Ok t2 -> t1 <= t2)).
Proof.
  intros P1 P2 V1 V2 Hlt. split.
  - destruct (sqrtPriceX96_float_total m1 e1 V1) as [s1 H1].
    destruct (sqrtPriceX96_float_total m2 e2 V2) as [s2 H2].
    exists s1, s2. repeat split; try assumption.
    exact (sqrtPriceX96_float_mono P1 P2 s1 s2 V1 V2 eq_refl Hlt H1 H2).
  - intros b eb t1 t2 Hd L1 L2 Hle.
    destruct (tick_order m1 m2 b e1 e2 eb t1 t2 Hd L1 L2 Hle) as [A B].
    repeat split; assumption.
Qed.

End PriceOrder.

(** C8, as stated, fails in its strict half: the price [1.0] and the next
    double above it, [1 + 2^-52], have the same rounded square root [1.0],
    so both give the square-root price [2^96]. *)
Lemma C8_counterexample :
  let P1 := F64.one in
  let P2 := S754_finite false 4503599627370497 (-52) in
  rounding.valid_double P1 /\ rounding.valid_double P2 /\
  F64.ltb F64.zero P1 = true /\ F64.ltb P1 P2 = true /\
  uniswapv3.sqrtPriceX96_float P1 = Ok (2 ^ 96) /\
  uniswapv3.sqrtPriceX96_float P2 = Ok (2 ^ 96) /\
  first_swap.price_to_sqrtp_x96 P1 = Ok (2 ^ 96) /\
  first_swap.price_to_sqrtp_x96 P2 = Ok (2 ^ 96) /\
  ~ (forall s1 s2,
       uniswapv3.sqrtPriceX96_float P1 = Ok s1 ->
       uniswapv3.sqrtPriceX96_float P2 = Ok s2 -> s1 < s2).
Proof.
  cbv zeta. repeat (split; [vm_compute; reflexivity |]).
  intros H. specialize (H (2 ^ 96) (2 ^ 96)).
  assert (2 ^ 96 < 2 ^ 96); [| lia].
  apply H; vm_compute; reflexivity.
Qed.

(** The prices [1.0] and [1.0001], with the identity standing for [log]:
    the ticks are 0 and 1. *)
Lemma C8_price_conversions_monotone_witness :
  let P1 := F64.one in
  let P2 := F64.f1_0001 in
  (exists s1 s2,
     uniswapv3.sqrtPriceX96_float P1 = Ok s1 /\
     uniswapv3.sqrtPriceX96_float P2 = Ok s2 /\
     first_swap.price_to_sqrtp_x96 P1 = Ok s1 /\
     first_swap.price_to_sqrtp_x96 P2 = Ok s2 /\
     s1 <= s2) /\
  uniswapv3.tick_from_price (fun x => x) P1 = Ok 0 /\
  uniswapv3.tick_from_price (fun x => x) P2 = Ok 1 /\
  0 <= 1.
Proof.
  cbv zeta.
  destruct (C8_price_conversions_monotone (fun x => x)
              4503599627370496 4504049987333233 (-52) (-52)) as [Hs Ht];
    [reflexivity | reflexivity | reflexivity |].
  split; [exact Hs |].
  destruct (Ht 4504049987333233%positive (-52) 0 1) as (A & _);
    [reflexivity | reflexivity | reflexivity | reflexivity |].
  split; [reflexivity |]. split; [reflexivity |].
  apply A; reflexivity.
Defined.

(** ** The round trip from a tick to its price and back *)

Section TickRoundTrip.
Import F64 rounding.

(** The floor is the only integer just below a double. *)
Lemma floor_unique (q : float) (t t' : Z) :
  int_le t q -> lt_int q (t + 1) -> F64.floor q = Ok t' -> t = t'.
Proof.
  intros Hle Hlt Hfl. destruct (floor_spec q t' Hfl) as [Hle' Hlt'].
  destruct q as [s | s | | s m e]; cbn in Hle, Hlt, Hle', Hlt'.
  - lia.
  - congruence.
  - contradiction.
  - destruct (Z.leb_spec 0 e); [lia |].
    assert (Hk : 0 < 2 ^ (- e)) by (apply pow2_pos; lia). nia.
Qed.

(** The quotient of two doubles of neighbouring binades whose mantissas
    are in order lies in [[1, 2)], and so does its rounding. *)
Lemma floor_div_binade (mn md : positive) (e : Z) :
  2 ^ 52 <= Z.pos mn -> (mn < md)%positive -> Z.pos md < 2 ^ 53 ->
  -1000 <= e <= 900 ->
  F64.floor (div (S754_finite false mn (e + 1)) (S754_finite false md e)) = Ok 1.
Proof.
  intros Hlo Hlt Hhi He.
  assert (Hdn : Zdigits2 (Z.pos mn) = 53) by (apply Zdigits2_unique; lia).
  assert (Hdd : Zdigits2 (Z.pos md) = 53) by (apply Zdigits2_unique; lia).
  rewrite SFdiv_fin.
  destruct (div_round_bounds (Z.pos mn) (e + 1) (Z.pos md) e) as (Hm & HE & Hnorm);
    [lia | lia |].
  cbv zeta in Hm, HE, Hnorm.
  assert (Hdr : snd (div_round (Z.pos mn) (e + 1) (Z.pos md) e) = -52 /\
                fst (div_round (Z.pos mn) (e + 1) (Z.pos md) e) < 2 ^ 53).
  { unfold div_round. cbn [fst snd]. rewrite Hdn, Hdd.
    replace (53 + (e + 1) - (53 + e)) with 1 by lia.
    replace (e + 1 - e) with 1 by lia.
    change (Z.min (fexp 1) 1) with (-52).
    change (1 - -52) with 53.
    assert (Hq : 2 ^ 52 <= Z.pos mn * 2 ^ 53 / Z.pos md < 2 ^ 53).
    { split.
      - apply Z.div_le_lower_bound; lia.
      - apply Z.div_lt_upper_bound; lia. }
    rewrite (Zdigits2_unique (Z.pos mn * 2 ^ 53 / Z.pos md) 53) by lia.
    change (fexp (53 + -52)) with (-52). split; [reflexivity |].
    change (-52 - -52) with 0. rewrite Z.mul_1_r.
    pose proof (rne_code_bounds (sfloor (2 * (Z.pos mn * 2 ^ 53)) (Z.pos md))) as [_ Hup].
    rewrite sfloor_div4 in Hup by lia.
    assert (2 * (Z.pos mn * 2 ^ 53) / (2 * Z.pos md) < 2 ^ 53 - 1); [| lia].
    apply Z.div_lt_upper_bound; lia. }
  destruct Hdr as [HEq Hlt53].
  set (m' := fst (div_round (Z.pos mn) (e + 1) (Z.pos md) e)) in *.
  rewrite HEq in *.
  assert (Hm52 : 2 ^ 52 <= m').
  { apply Hnorm. unfold emin. vm_compute. reflexivity. }
  rewrite fin_shape by (assumption || lia).
  destruct (Z.eqb_spec m' 0); [lia |].
  destruct (Z.eqb_spec m' (2 ^ 53)); [lia |].
  cbn [Z.leb Z.compare]. cbn [F64.floor]. f_equal.
  unfold mag_floor. cbn [Z.leb Z.compare Z.opp].
  rewrite Z2Pos.id by lia.
  symmetry. apply Z.div_unique with (r := m' - 2 ^ 52); lia.
Qed.

Variable libm_log : float -> float.
Variable float_pow : float -> Z -> result float.

(** C7, amended.  The round trip is not an identity in binary64: it
    returns the floor of the double [q = log(1.0001 ** t) / log(1.0001)],
    so it gives back [t] exactly when [t <= q < t + 1].  It does at the
    tick 0, where [1.0001 ** 0] is [1.0] and [log(1.0)] is a zero.  It does
    not at the tick 2: [1.0001 ** 2] is the double [0x1.000d1b9c68abep+0],
    its logarithm lies in the binade above the one of [log(1.0001)] with
    the smaller mantissa (the correctly rounded values are 2242 units in
    the last place apart), and for every [log] with that order the round
    trip returns 1, on the two pages and on the explorer. *)
Theorem C7_tick_round_trip :
  (forall t m e q,
     let P := S754_finite false m e in
     first_swap.tick_to_price float_pow t = Ok P ->
     (forall s, libm_log f1_0001 <> S754_zero s) ->
     div (libm_log P) (libm_log f1_0001) = q ->
     ((p ← first_swap.tick_to_price float_pow t; first_swap.price_to_tick libm_log p) = Ok t
        <-> int_le t q /\ lt_int q (t + 1)) /\
     ((p ← manager_contract.tick_to_price float_pow t;
       manager_contract.price_to_tick libm_log p) = Ok t
        <-> int_le t q /\ lt_int q (t + 1))) /\
  (forall s0 sd md ed,
     float_pow f1_0001 0 = Ok one ->
     libm_log one = S754_zero s0 ->
     libm_log f1_0001 = S754_finite sd md ed ->
     (p ← first_swap.tick_to_price float_pow 0; first_swap.price_to_tick libm_log p) = Ok 0 /\
     (p ← manager_contract.tick_to_price float_pow 0;
      manager_contract.price_to_tick libm_log p) = Ok 0) /\
  (forall mn md,
     let p2 := S754_finite false 4504500392331966 (-52) in
     float_pow f1_0001 2 = Ok p2 ->
     libm_log p2 = S754_finite false mn (-65) ->
     libm_log f1_0001 = S754_finite false md (-66) ->
     2 ^ 52 <= Z.pos mn -> (mn < md)%positive -> Z.pos md < 2 ^ 53 ->
     (p ← first_swap.tick_to_price float_pow 2; first_swap.price_to_tick libm_log p) = Ok 1 /\
     (p ← manager_contract.tick_to_price float_pow 2;
      manager_contract.price_to_tick libm_log p) = Ok 1 /\
     uniswapv3.tick_from_price libm_log p2 = Ok 1).
Proof.
  split; [| split].
  - intros t m e q P Hpow Hd Hq.
    change (manager_contract.tick_to_price float_pow t)
      with (first_swap.tick_to_price float_pow t).
    rewrite Hpow. cbv beta iota delta [mbind result_bind Ok].
    change (manager_contract.price_to_tick libm_log P)
      with (first_swap.price_to_tick libm_log P).
    destruct (tick_of_positive libm_log m e q Hd Hq) as [H1 _]. fold P in H1.
    rewrite H1.
    assert (Hiff : F64.floor q = inr t <-> int_le t q /\ lt_int q (t + 1)).
    { split.
      - apply floor_spec.
      - intros [Hle Hlt].
        destruct (F64.floor q) as [err | t'] eqn:Hfl.
        + destruct q as [s | s | | s mq eq]; cbn in Hfl, Hle, Hlt; try discriminate Hfl;
            [congruence | contradiction].
        + rewrite (floor_unique q t t' Hle Hlt Hfl). reflexivity. }
    split; exact Hiff.
  - intros s0 sd md ed Hpow Hone Hlog.
    change (manager_contract.tick_to_price float_pow 0)
      with (first_swap.tick_to_price float_pow 0).
    unfold first_swap.tick_to_price. rewrite Hpow.
    cbv beta iota delta [mbind result_bind Ok].
    change (manager_contract.price_to_tick libm_log one)
      with (first_swap.price_to_tick libm_log one).
    assert (Hd : forall s, libm_log f1_0001 <> S754_zero s) by (rewrite Hlog; discriminate).
    destruct (tick_of_positive libm_log 4503599627370496 (-52) _ Hd eq_refl) as [H1 _].
    change (S754_finite false 4503599627370496 (-52)) with one in H1.
    rewrite H1, Hone, Hlog. destruct s0, sd; split; reflexivity.
  - intros mn md p2 Hpow Hn Hdl Hlo Hlt Hhi.
    change (manager_contract.tick_to_price float_pow 2)
      with (first_swap.tick_to_price float_pow 2).
    unfold first_swap.tick_to_price. rewrite Hpow.
    cbv beta iota delta [mbind result_bind Ok].
    change (manager_contract.price_to_tick libm_log p2)
      with (first_swap.price_to_tick libm_log p2).
    assert (Hd : forall s, libm_log f1_0001 <> S754_zero s) by (rewrite Hdl; discriminate).
    destruct (tick_of_positive libm_log 4504500392331966 (-52) _ Hd eq_refl) as [H1 H2].
    fold p2 in H1, H2. rewrite H1, H2, Hn, Hdl.
    pose proof (floor_div_binade mn md (-66) Hlo Hlt Hhi ltac:(lia)) as Hfl.
    change (-66 + 1) with (-65) in Hfl. rewrite Hfl. auto.
Qed.

End TickRoundTrip.

(** C7, as stated, fails at the tick 2.  [1.0001 ** 2] is the double
    [0x1.000d1b9c68abep+0]; with the correctly rounded logarithms, the
    quotient [log(1.0001 ** 2) / log(1.0001)] is the double
    [1.9999999999993923] and the tick is 1, on the two pages and on the
    explorer.  At the tick 0 the round trip holds. *)
Lemma C7_counterexample :
  first_swap.tick_to_price demo.float_pow 2
    = Ok (S754_finite false 4504500392331966 (-52)) /\
  manager_contract.tick_to_price demo.float_pow 2
    = Ok (S754_finite false 4504500392331966 (-52)) /\
  F64.div (demo.libm_log (S754_finite false 4504500392331966 (-52)))
          (demo.libm_log F64.f1_0001)
    = S754_finite false 9007199254738255 (-52) /\
  first_swap.price_to_tick demo.libm_log (S754_finite false 4504500392331966 (-52)) = Ok 1 /\
  manager_contract.price_to_tick demo.libm_log (S754_finite false 4504500392331966 (-52))
    = Ok 1 /\
  uniswapv3.tick_from_price demo.libm_log (S754_finite false 4504500392331966 (-52)) = Ok 1 /\
  1 <> 2.
Proof. vm_compute. repeat split; discriminate. Qed.

Lemma C7_tick_round_trip_witness :
  ((p ← first_swap.tick_to_price demo.float_pow 0;
    first_swap.price_to_tick demo.libm_log p) = Ok 0
   <-> F64.int_le 0 F64.zero /\ F64.lt_int F64.zero (0 + 1)) /\
  (p ← first_swap.tick_to_price demo.float_pow 0;
   first_swap.price_to_tick demo.libm_log p) = Ok 0 /\
  (p ← first_swap.tick_to_price demo.float_pow 2;
   first_swap.price_to_tick demo.libm_log p) = Ok 1 /\
  (p ← manager_contract.tick_to_price demo.float_pow 2;
   manager_contract.price_to_tick demo.libm_log p) = Ok 1.
Proof.
  destruct (C7_tick_round_trip demo.libm_log demo.float_pow) as (HA & HB & HC).
  split; [| split].
  - refine (proj1 (HA 0 4503599627370496%positive (-52) F64.zero _ _ _));
      [vm_compute; reflexivity | intros s; discriminate | vm_compute; reflexivity].
  - refine (proj1 (HB false false 7378328719195348%positive (-66) _ _ _));
      vm_compute; reflexivity.
  - destruct (HC 7378328719193106%positive 7378328719195348%positive) as (H1 & H2 & _);
      [vm_compute; reflexivity | vm_compute; reflexivity | vm_compute; reflexivity
      | vm_compute; discriminate | reflexivity | reflexivity |].
    split; [exact H1 | exact H2].
Defined.

(** * More of the manager-contract page: the ledger, the callbacks and the log *)

Section TransferFacts.
Import manager_contract session.

(** [Token.transfer], case by case: a negative amount raises and so does
    an amount above the balance of the sender, both with the ledger as it
    was; a transfer of zero from an address that has no entry raises
    [KeyError]; any other call returns with the amount moved from the sender
    to the recipient (nothing moved when the two are the same address) and
    no other balance, no allowance, no other token, neither the pool nor
    the log touched. *)
Theorem transfer_checked self sender to raw w :
  let t := store w !!! self in
  (raw < 0 ->
     Token_transfer self sender to raw w = (Raise (ValueError "transfer amount < 0"), w)) /\
  (0 <= raw -> balance w self sender < raw ->
     Token_transfer self sender to raw w =
       (Raise (ValueError (symbol t +:+ ": insufficient balance")), w)) /\
  (0 <= raw <= balance w self sender -> bal t !! sender = None ->
     raw = 0 /\ Token_transfer self sender to raw w = (Raise (KeyError sender), w)) /\
  (0 <= raw <= balance w self sender -> 0 < raw \/ is_Some (bal t !! sender) ->
     exists w',
       Token_transfer self sender to raw w = (Ok tt, w') /\
       balance w' self sender =
         (if decide (sender = to) then balance w self sender
          else balance w self sender - raw) /\
       balance w' self to =
         (if decide (sender = to) then balance w self to else balance w self to + raw) /\
       (forall a, a <> sender -> a <> to -> balance w' self a = balance w self a) /\
       (forall o s, allowance_of w' self o s = allowance_of w self o s) /\
       (forall l, l <> self -> store w' !!! l = store w !!! l) /\
       pool w' = pool w /\ log w' = log w).
Proof.
  intros t. rewrite Token_transfer_eq. cbv zeta. fold t.
  assert (Hbal : balance w self sender = default 0 (bal t !! sender)) by reflexivity.
  split; [| split; [| split]].
  - intros Hneg. destruct (Z.ltb_spec raw 0); [reflexivity | lia].
  - intros Hraw Hb. destruct (Z.ltb_spec raw 0); [lia |].
    destruct (Z.ltb_spec (balance w self sender) raw); [reflexivity | lia].
  - intros Hraw Hnone. rewrite Hbal, Hnone in Hraw. cbn in Hraw.
    split; [lia |].
    destruct (Z.ltb_spec raw 0); [lia |].
    destruct (Z.ltb_spec (balance w self sender) raw) as [Hlt |].
    + rewrite Hbal, Hnone in Hlt. cbn in Hlt. lia.
    + rewrite Hnone. reflexivity.
  - intros Hraw Hsome.
    destruct (Z.ltb_spec raw 0); [lia |].
    destruct (Z.ltb_spec (balance w self sender) raw); [lia |].
    destruct (bal t !! sender) as [b |] eqn:Hb.
    2:{ destruct Hsome as [Hpos | [b Hb']]; [cbn in Hbal; lia | discriminate]. }
    cbn in Hbal. rewrite Hbal.
    eexists. split; [reflexivity |].
    unfold allowance_of, balance. rewrite !store_set_token. cbn. fold t.
    repeat split.
    + destruct (decide (sender = to)) as [<- | Hne].
      * rewrite !lookup_insert_eq. cbn. lia.
      * rewrite lookup_insert_ne, lookup_insert_eq by congruence. reflexivity.
    + rewrite lookup_insert_eq. cbn.
      destruct (decide (sender = to)) as [<- | Hne].
      * rewrite lookup_insert_eq, Hb. cbn. lia.
      * rewrite lookup_insert_ne by congruence. reflexivity.
    + intros a Ha1 Ha2. rewrite !lookup_insert_ne by congruence. reflexivity.
    + intros l Hl. apply lookup_total_insert_ne. congruence.
Qed.

Lemma transfer_checked_witness :
  exists w',
    Token_transfer demo.ETH "Alice" "Bob" 5 demo.world0 = (Ok tt, w') /\
    balance w' demo.ETH "Alice" = 10 * 10 ^ 18 - 5 /\
    balance w' demo.ETH "Bob" = 5.
Proof.
  destruct (transfer_checked demo.ETH "Alice" "Bob" 5 demo.world0) as (_ & _ & _ & H).
  destruct H as (w' & Hrun & Hs & Ht & _).
  - vm_compute. split; discriminate.
  - left. lia.
  - exists w'. split; [exact Hrun |]. split.
    + rewrite Hs. reflexivity.
    + rewrite Ht. reflexivity.
Defined.

End TransferFacts.

(** ** Relations every call of the page keeps *)

Section ManagerKeeps.
Import manager_contract session.

Variable R : World -> World -> Prop.
Hypothesis R_refl : forall w, R w w.
Hypothesis R_trans : forall w1 w2 w3, R w1 w2 -> R w2 w3 -> R w1 w3.
Hypothesis R_put_pool : forall p, keeps R (put_pool p).
Hypothesis R_log_append : forall entry, keeps R (log_append entry).
Hypothesis R_transfer : forall self sender to raw, keeps R (Token_transfer self sender to raw).
Hypothesis R_transfer_from :
  forall self spender owner to raw, keeps R (Token_transfer_from self spender owner to raw).

Variable float_pow : F64.float -> Z -> result F64.float.

Ltac walk_with leaf :=
  repeat first
    [ solve [ leaf | apply keeps_ret; exact R_refl | apply keeps_raise; exact R_refl
            | apply keeps_lift; exact R_refl | apply keeps_get_token; exact R_refl
            | apply keeps_get_pool; exact R_refl | apply keeps_getitem; exact R_refl
            | apply R_put_pool | apply R_log_append | apply R_transfer
            | apply R_transfer_from ]
    | match goal with |- keeps _ (let '(_, _) := ?x in _) => destruct x end
    | match goal with |- keeps _ (if _ then _ else _) => apply keeps_if end
    | match goal with
      | |- keeps _ (mbind _ _) => apply keeps_bind; [exact R_trans | | intros]
      end ].

Ltac walk := walk_with fail.

Lemma kept_balance_of self addr : keeps R (Token_balance_of self addr).
Proof. unfold Token_balance_of. walk. Qed.

Lemma kept_mint_callback mgr amount0 amount1 data :
  keeps R (Manager_uniswapV3MintCallback mgr amount0 amount1 data).
Proof. unfold Manager_uniswapV3MintCallback. walk. Qed.

Lemma kept_swap_callback mgr amount0 amount1 data :
  keeps R (Manager_uniswapV3SwapCallback mgr amount0 amount1 data).
Proof. unfold Manager_uniswapV3SwapCallback. walk. Qed.

Lemma kept_Pool_mint owner lo up liq data mgr :
  keeps R (Pool_mint float_pow owner lo up liq data mgr).
Proof.
  unfold Pool_mint, Pool_set_range, Pool__required_amounts_for_liquidity.
  walk_with ltac:(apply kept_mint_callback).
Qed.

Lemma kept_Pool_swap recipient amt data mgr :
  keeps R (Pool_swap_token1_in_for_token0_out float_pow recipient amt data mgr).
Proof.
  unfold Pool_swap_token1_in_for_token0_out.
  walk_with ltac:(first [apply kept_swap_callback | apply kept_balance_of]).
Qed.

Lemma kept_Manager_mint mgr caller lo up liq :
  keeps R (Manager_mint float_pow mgr caller lo up liq).
Proof. unfold Manager_mint. walk_with ltac:(apply kept_Pool_mint). Qed.

Lemma kept_Manager_swap mgr caller recipient amt :
  keeps R (Manager_swap float_pow mgr caller recipient amt).
Proof. unfold Manager_swap. walk_with ltac:(apply kept_Pool_swap). Qed.

(** A session keeps what each of its calls keeps. *)
Lemma kept_run (ok : action -> Prop) (acts : list action) (w : World) :
  (forall self addr raw, ok (Act_mint self addr raw) -> keeps R (Token_mint self addr raw)) ->
  (forall self owner spender raw,
     ok (Act_approve self owner spender raw) -> keeps R (Token_approve self owner spender raw)) ->
  Forall ok acts -> R w (run float_pow acts w).
Proof.
  intros Hmint Happrove Hok. revert w.
  induction Hok as [| a acts Ha _ IH]; intros w; [apply R_refl |].
  rewrite run_cons. eapply R_trans; [| apply IH].
  destruct a; cbn [run_action].
  - apply Hmint, Ha.
  - apply Happrove, Ha.
  - apply R_transfer.
  - apply R_transfer_from.
  - apply (keeps_bind R R_trans); [apply kept_Manager_mint | intros; apply keeps_ret, R_refl].
  - apply (keeps_bind R R_trans); [apply kept_Manager_swap | intros; apply keeps_ret, R_refl].
Qed.

End ManagerKeeps.

(** ** Invariants of the ledger *)

Section LedgerInvariants.
Import manager_contract session.

Lemma preserved_refl (Inv : World -> Prop) w : preserved Inv w w.
Proof. intros H. exact H. Qed.

Lemma preserved_trans (Inv : World -> Prop) w1 w2 w3 :
  preserved Inv w1 w2 -> preserved Inv w2 w3 -> preserved Inv w1 w3.
Proof. unfold preserved. auto. Qed.

Lemma balance_set_token w self t' l a :
  balance (set_token w self t') l a =
    if decide (l = self) then default 0 (bal t' !! a) else balance w l a.
Proof.
  unfold balance. destruct (decide (l = self)) as [-> | Hne].
  - rewrite store_set_token. reflexivity.
  - rewrite store_set_token_ne by congruence. reflexivity.
Qed.

Lemma allowance_set_token w self t' l o s :
  allowance_of (set_token w self t') l o s =
    if decide (l = self) then default 0 (allow t' !! (o, s)) else allowance_of w l o s.
Proof.
  unfold allowance_of. destruct (decide (l = self)) as [-> | Hne].
  - rewrite store_set_token. reflexivity.
  - rewrite store_set_token_ne by congruence. reflexivity.
Qed.

(** The balances after moving [raw] from [sender] to [to]. *)
Lemma moved_lookup (m : gmap string Z) (sender to a : string) (b raw : Z) :
  m !! sender = Some b ->
  default 0 (<[to := default 0 (<[sender := b - raw]> m !! to) + raw]>
               (<[sender := b - raw]> m) !! a) =
    if decide (a = to) then
      (if decide (to = sender) then b else default 0 (m !! to) + raw)
    else if decide (a = sender) then b - raw
    else default 0 (m !! a).
Proof.
  intros Hb. destruct (decide (a = to)) as [-> | Hat].
  - rewrite lookup_insert_eq. cbn.
    destruct (decide (to = sender)) as [-> | Hts].
    + rewrite lookup_insert_eq. cbn. lia.
    + rewrite lookup_insert_ne by congruence. reflexivity.
  - rewrite lookup_insert_ne by congruence.
    destruct (decide (a = sender)) as [-> | Has].
    + rewrite lookup_insert_eq. reflexivity.
    + rewrite lookup_insert_ne by congruence. reflexivity.
Qed.

Lemma moved_nonneg (m : gmap string Z) (sender to a : string) (b raw : Z) :
  m !! sender = Some b -> 0 <= raw <= b ->
  (forall x, 0 <= default 0 (m !! x)) ->
  0 <= default 0 (<[to := default 0 (<[sender := b - raw]> m !! to) + raw]>
                    (<[sender := b - raw]> m) !! a).
Proof.
  intros Hb Hraw Hm. rewrite (moved_lookup m sender to a b raw Hb).
  pose proof (Hm to). pose proof (Hm a).
  repeat destruct (decide _); lia.
Qed.

Lemma solvent_transfer self sender to raw :
  keeps (preserved solvent) (Token_transfer self sender to raw).
Proof.
  intros w Hs. rewrite Token_transfer_eq. cbv zeta.
  destruct (Z.ltb_spec raw 0) as [| Hraw]; [exact Hs |].
  destruct (Z.ltb_spec (balance w self sender) raw) as [| Hbal]; [exact Hs |].
  destruct (bal (store w !!! self) !! sender) as [b |] eqn:Hb; [| exact Hs].
  cbn [snd]. intros l a. rewrite balance_set_token.
  destruct (decide (l = self)) as [-> |]; [| apply Hs].
  unfold balance in Hbal. rewrite Hb in Hbal. cbn in Hbal.
  apply moved_nonneg; [exact Hb | lia | intros x; apply (Hs self x)].
Qed.

Lemma solvent_transfer_from self spender owner to raw :
  keeps (preserved solvent) (Token_transfer_from self spender owner to raw).
Proof.
  intros w Hs. rewrite Token_transfer_from_eq. cbv zeta.
  destruct (Z.ltb_spec raw 0) as [| Hraw]; [exact Hs |].
  destruct (Z.ltb_spec (allowance_of w self owner spender) raw); [exact Hs |].
  destruct (Z.ltb_spec (balance w self owner) raw) as [| Hbal]; [exact Hs |].
  destruct (bal (store w !!! self) !! owner) as [b |] eqn:Hb; cbn [snd];
    intros l a; rewrite balance_set_token;
    (destruct (decide (l = self)) as [-> |]; [| apply Hs]).
  - unfold balance in Hbal. rewrite Hb in Hbal. cbn in Hbal.
    apply (moved_nonneg (bal (store w !!! self)));
      [exact Hb | lia | intros x; apply (Hs self x)].
  - apply (Hs self a).
Qed.

Lemma solvent_store w w' : store w' = store w -> preserved solvent w w'.
Proof. intros Hst Hs l a. unfold balance. rewrite Hst. apply Hs. Qed.

Lemma solvent_mint self addr raw :
  0 <= raw -> keeps (preserved solvent) (Token_mint self addr raw).
Proof.
  intros Hraw w Hs. rewrite Token_mint_eq. cbn [snd]. intros l a.
  rewrite balance_set_token. destruct (decide (l = self)) as [-> |]; [| apply Hs].
  unfold credit. cbn [bal with_bal].
  pose proof (Hs self addr) as H1. pose proof (Hs self a) as H2. unfold balance in H1, H2.
  destruct (decide (a = addr)) as [-> |].
  - rewrite lookup_insert_eq. cbn. lia.
  - rewrite lookup_insert_ne by congruence. exact H2.
Qed.

Section WithLibm.
Variable float_pow : F64.float -> Z -> result F64.float.

(** No address is ever overdrawn: if every balance is non-negative and the
    session mints no negative amount, every balance is non-negative after
    it, whichever of its calls raised. *)
Theorem session_never_overdraws (acts : list action) (w : World) :
  Forall mints_nonneg acts -> solvent w -> solvent (run float_pow acts w).
Proof.
  intros Hok.
  apply (kept_run (preserved solvent) (preserved_refl solvent) (preserved_trans solvent))
    with (ok := mints_nonneg); try assumption.
  - intros p w0. apply solvent_store. reflexivity.
  - intros entry w0. apply solvent_store. reflexivity.
  - apply solvent_transfer.
  - apply solvent_transfer_from.
  - intros self addr raw Hraw. apply solvent_mint. exact Hraw.
  - intros self owner spender raw _ w0 Hs. rewrite Token_approve_eq. cbn [snd].
    intros l a. rewrite balance_set_token.
    destruct (decide (l = self)) as [-> |]; [exact (Hs self a) | exact (Hs l a)].
Qed.
End WithLibm.

End LedgerInvariants.

Section SessionWitnesses.
Import manager_contract session.

Lemma solvent_world0 : solvent demo.world0.
Proof.
  intros l a. unfold balance, demo.world0. cbn [store].
  destruct (decide (l = demo.ETH)) as [-> | H1].
  - rewrite lookup_total_insert_eq. unfold credit. cbn [bal with_bal Token_init].
    destruct (decide (a = "Alice")) as [-> | Ha].
    + rewrite lookup_insert_eq. now vm_compute.
    + rewrite lookup_insert_ne, lookup_empty by congruence. reflexivity.
  - rewrite lookup_total_insert_ne by congruence.
    destruct (decide (l = demo.USDC)) as [-> | H2].
    + rewrite lookup_total_singleton, decide_True by reflexivity. unfold credit. cbn [bal with_bal Token_init].
      destruct (decide (a = "Alice")) as [-> | Ha].
      * rewrite lookup_insert_eq. now vm_compute.
      * rewrite lookup_insert_ne, lookup_empty by congruence. reflexivity.
    + rewrite lookup_total_singleton_ne by congruence. cbn.
      rewrite lookup_empty. reflexivity.
Qed.

Lemma session_never_overdraws_witness :
  solvent (run demo.float_pow
             [Act_mint demo.ETH "Bob" 7;
              Act_transfer demo.ETH "Alice" "Bob" (11 * 10 ^ 18);
              Act_manager_swap demo.manager "Alice" "Bob" 5]
             demo.world0).
Proof.
  apply session_never_overdraws; [| exact solvent_world0].
  repeat constructor. cbn. lia.
Defined.

End SessionWitnesses.

Section AllowanceInvariants.
Import manager_contract session.

Lemma shrink_refl w : allowances_shrink w w.
Proof. intros t o s. lia. Qed.

Lemma shrink_trans w1 w2 w3 :
  allowances_shrink w1 w2 -> allowances_shrink w2 w3 -> allowances_shrink w1 w3.
Proof. intros H1 H2 t o s. specialize (H1 t o s). specialize (H2 t o s). lia. Qed.

Lemma shrink_allow w w' : 
  (forall l, allow (store w' !!! l) = allow (store w !!! l)) -> allowances_shrink w w'.
Proof. intros H t o s. unfold allowance_of. rewrite H. lia. Qed.

Lemma allow_set_token_bal w self b l :
  allow (store (set_token w self (with_bal (store w !!! self) b)) !!! l)
    = allow (store w !!! l).
Proof.
  destruct (decide (l = self)) as [-> | Hne].
  - rewrite store_set_token. reflexivity.
  - rewrite store_set_token_ne by congruence. reflexivity.
Qed.

(** What [transfer] leaves of the allowances: all of them. *)
Lemma transfer_allow self sender to raw w l :
  allow (store (snd (Token_transfer self sender to raw w)) !!! l) = allow (store w !!! l).
Proof.
  rewrite Token_transfer_eq. cbv zeta.
  destruct (raw <? 0); [reflexivity |].
  destruct (balance w self sender <? raw); [reflexivity |].
  destruct (bal (store w !!! self) !! sender) as [b |]; [| reflexivity].
  cbn [snd]. destruct (decide (l = self)) as [-> | Hne].
  - rewrite store_set_token. reflexivity.
  - rewrite store_set_token_ne by congruence. reflexivity.
Qed.

(** What [transfer_from] leaves of the allowances: all but the one it
    spends, which it lowers by the amount, never below zero. *)
Lemma transfer_from_allowance self spender owner to raw w l o s :
  allowance_of (snd (Token_transfer_from self spender owner to raw w)) l o s =
    allowance_of w l o s \/
  (0 <= raw <= allowance_of w l o s /\
   allowance_of (snd (Token_transfer_from self spender owner to raw w)) l o s =
     allowance_of w l o s - raw).
Proof.
  rewrite Token_transfer_from_eq. cbv zeta.
  destruct (Z.ltb_spec raw 0) as [| Hraw]; [left; reflexivity |].
  destruct (Z.ltb_spec (allowance_of w self owner spender) raw) as [| Hal];
    [left; reflexivity |].
  destruct (balance w self owner <? raw); [left; reflexivity |].
  assert (Hgoal : forall t',
            allow t' = <[(owner, spender) := allowance_of w self owner spender - raw]>
                         (allow (store w !!! self)) ->
            allowance_of (set_token w self t') l o s = allowance_of w l o s \/
            (0 <= raw <= allowance_of w l o s /\
             allowance_of (set_token w self t') l o s = allowance_of w l o s - raw)).
  { intros t' Ht'. rewrite allowance_set_token.
    destruct (decide (l = self)) as [-> |]; [| left; reflexivity].
    rewrite Ht'. destruct (decide ((o, s) = (owner, spender))) as [[= -> ->] | Hne].
    - right. rewrite lookup_insert_eq. cbn. split; [lia | reflexivity].
    - left. rewrite lookup_insert_ne by congruence. reflexivity. }
  destruct (bal (store w !!! self) !! owner) as [b |]; cbn [snd]; apply Hgoal; reflexivity.
Qed.

Lemma shrink_transfer_from self spender owner to raw :
  keeps allowances_shrink (Token_transfer_from self spender owner to raw).
Proof.
  intros w l o s.
  destruct (transfer_from_allowance self spender owner to raw w l o s) as [-> | [H ->]]; lia.
Qed.

Lemma nonneg_transfer_from self spender owner to raw :
  keeps (preserved allowances_nonneg) (Token_transfer_from self spender owner to raw).
Proof.
  intros w Hn l o s. specialize (Hn l o s).
  destruct (transfer_from_allowance self spender owner to raw w l o s) as [-> | [H ->]]; lia.
Qed.

Lemma mint_allow self addr raw w l :
  allow (store (snd (Token_mint self addr raw w)) !!! l) = allow (store w !!! l).
Proof.
  rewrite Token_mint_eq. cbn [snd]. destruct (decide (l = self)) as [-> | Hne].
  - rewrite store_set_token. reflexivity.
  - rewrite store_set_token_ne by congruence. reflexivity.
Qed.

Lemma nonneg_allow w w' :
  (forall l, allow (store w' !!! l) = allow (store w !!! l)) ->
  preserved allowances_nonneg w w'.
Proof. intros H Hn t o s. unfold allowance_of. rewrite H. apply Hn. Qed.

Section WithLibm.
Variable float_pow : F64.float -> Z -> result F64.float.

(** An allowance is only ever spent down.  Over a session that approves no
    negative amount, no allowance becomes negative; over a session without
    [approve], no allowance grows, whichever calls raised: [transfer_from]
    lowers the allowance it uses by exactly what it moves, and nothing else
    writes one. *)
Theorem allowance_only_spent :
  (forall acts w,
     Forall approves_nonneg acts -> allowances_nonneg w ->
     allowances_nonneg (run float_pow acts w)) /\
  (forall acts w,
     Forall not_approve acts -> allowances_shrink w (run float_pow acts w)).
Proof.
  split.
  - intros acts w Hok.
    apply (kept_run (preserved allowances_nonneg)
             (preserved_refl allowances_nonneg) (preserved_trans allowances_nonneg))
      with (ok := approves_nonneg); try assumption.
    + intros p w0. apply nonneg_allow. reflexivity.
    + intros entry w0. apply nonneg_allow. reflexivity.
    + intros self sender to raw w0. apply nonneg_allow. intros l. apply transfer_allow.
    + apply nonneg_transfer_from.
    + intros self addr raw _ w0. apply nonneg_allow. intros l. apply mint_allow.
    + intros self owner spender raw Hraw w0 Hn l o s. cbn in Hraw.
      rewrite Token_approve_eq. cbn [snd]. rewrite allowance_set_token.
      destruct (decide (l = self)) as [-> |]; [| apply Hn]. cbn [allow with_allow].
      destruct (decide ((o, s) = (owner, spender))) as [[= -> ->] | Hne].
      * rewrite lookup_insert_eq. exact Hraw.
      * rewrite lookup_insert_ne by congruence. apply (Hn self o s).
  - intros acts w Hok.
    apply (kept_run allowances_shrink shrink_refl shrink_trans) with (ok := not_approve);
      try assumption.
    + intros p w0. apply shrink_allow. reflexivity.
    + intros entry w0. apply shrink_allow. reflexivity.
    + intros self sender to raw w0. apply shrink_allow. intros l. apply transfer_allow.
    + apply shrink_transfer_from.
    + intros self addr raw _ w0. apply shrink_allow. intros l. apply mint_allow.
    + intros self owner spender raw [].
Qed.
End WithLibm.

End AllowanceInvariants.

Section AllowanceWitness.
Import manager_contract session.

Lemma allowance_only_spent_witness :
  allowances_shrink demo.world_approved
    (run demo.float_pow
       [Act_manager_mint demo.manager "Alice" 0 1 (10 ^ 15);
        Act_transfer_from demo.USDC "Manager" "Alice" "Bob" 10]
       demo.world_approved).
Proof.
  destruct (allowance_only_spent demo.float_pow) as [_ H].
  refine (H _ _ _). repeat constructor.
Defined.

End AllowanceWitness.

(** ** The event log *)

Section EventLog.
Import manager_contract session.

Lemma log_grows_refl w : log_grows w w.
Proof. unfold log_grows. reflexivity. Qed.

Lemma log_grows_trans w1 w2 w3 : log_grows w1 w2 -> log_grows w2 w3 -> log_grows w1 w3.
Proof. unfold log_grows. intros H1 H2. etrans; eassumption. Qed.

Lemma log_grows_eq w w' : log w' = log w -> log_grows w w'.
Proof. unfold log_grows. intros ->. reflexivity. Qed.

(** The ledger does not write the log. *)
Lemma transfer_log self sender to raw w :
  log (snd (Token_transfer self sender to raw w)) = log w.
Proof.
  rewrite Token_transfer_eq. cbv zeta.
  destruct (raw <? 0); [reflexivity |].
  destruct (balance w self sender <? raw); [reflexivity |].
  destruct (bal (store w !!! self) !! sender); reflexivity.
Qed.

Lemma transfer_from_log self spender owner to raw w :
  log (snd (Token_transfer_from self spender owner to raw w)) = log w.
Proof.
  rewrite Token_transfer_from_eq. cbv zeta.
  destruct (raw <? 0); [reflexivity |].
  destruct (allowance_of w self owner spender <? raw); [reflexivity |].
  destruct (balance w self owner <? raw); [reflexivity |].
  destruct (bal (store w !!! self) !! owner); reflexivity.
Qed.

Section WithLibm.
Variable float_pow : F64.float -> Z -> result F64.float.

Lemma log_grows_put_pool p : keeps log_grows (put_pool p).
Proof. intros w. apply log_grows_eq. reflexivity. Qed.

Lemma log_grows_log_append entry : keeps log_grows (log_append entry).
Proof. intros w. unfold log_grows. cbn. apply prefix_app_r. reflexivity. Qed.

Lemma log_grows_transfer self sender to raw :
  keeps log_grows (Token_transfer self sender to raw).
Proof. intros w. apply log_grows_eq, transfer_log. Qed.

Lemma log_grows_transfer_from self spender owner to raw :
  keeps log_grows (Token_transfer_from self spender owner to raw).
Proof. intros w. apply log_grows_eq, transfer_from_log. Qed.

Lemma log_grows_Pool_mint owner lo up liq data mgr :
  keeps log_grows (Pool_mint float_pow owner lo up liq data mgr).
Proof.
  apply (kept_Pool_mint log_grows log_grows_refl log_grows_trans);
    auto using log_grows_put_pool, log_grows_log_append, log_grows_transfer_from.
Qed.

Lemma log_grows_Pool_swap recipient amt data mgr :
  keeps log_grows (Pool_swap_token1_in_for_token0_out float_pow recipient amt data mgr).
Proof.
  apply (kept_Pool_swap log_grows log_grows_refl log_grows_trans);
    auto using log_grows_put_pool, log_grows_log_append, log_grows_transfer,
      log_grows_transfer_from.
Qed.

(** A bind whose first statement is [log.append(entry)]: the entry is on
    the log after it, whatever the rest does. *)
Lemma logged_first {A} (entry : string) (k : M A) (w : World) :
  keeps log_grows k ->
  exists rest, log (snd ((log_append entry;; k) w)) = log w ++ entry :: rest.
Proof.
  intros Hk. rewrite bind_eq. cbn [log_append].
  cbv beta iota delta [Ok].
  destruct (Hk {| store := store w; pool := pool w; log := log w ++ [entry] |}) as [rest Hr].
  exists rest. rewrite Hr. cbn [log]. rewrite <- app_assoc. reflexivity.
Qed.

(** The event log is append-only.  Over any session the log before is a
    prefix of the log after; the calls on the ledger write nothing to it;
    and [Manager.mint] and [Manager.swap] record the call before they run
    it, so the entry of the call is on the log even when the call raises. *)
Theorem log_append_only :
  (forall acts w, log w `prefix_of` log (run float_pow acts w)) /\
  (forall a w,
     match a with
     | Act_manager_mint _ _ _ _ _ | Act_manager_swap _ _ _ _ => True
     | _ => log (snd (run_action float_pow a w)) = log w
     end) /\
  (forall mgr caller lo up liq w,
     exists rest,
       log (snd (Manager_mint float_pow mgr caller lo up liq w)) =
         log w ++ ("Manager.mint(pool=" +:+ address (pool w) +:+ ", caller=" +:+ caller
                     +:+ ", L=" +:+ fmt liq +:+ ", ticks=[" +:+ fmt lo
                     +:+ "," +:+ fmt up +:+ "])") :: rest) /\
  (forall mgr caller recipient amt w,
     exists rest,
       log (snd (Manager_swap float_pow mgr caller recipient amt w)) =
         log w ++ ("Manager.swap(pool=" +:+ address (pool w) +:+ ", caller=" +:+ caller
                     +:+ ", recipient=" +:+ recipient +:+ ", token1_in="
                     +:+ fmt amt +:+ ")") :: rest).
Proof.
  split; [| split; [| split]].
  - intros acts w.
    apply (kept_run log_grows log_grows_refl log_grows_trans) with (ok := fun _ => True);
      auto using log_grows_put_pool, log_grows_log_append, log_grows_transfer,
        log_grows_transfer_from.
    + intros self addr raw _ w0. apply log_grows_eq. reflexivity.
    + intros self owner spender raw _ w0. apply log_grows_eq. reflexivity.
    + clear. induction acts; constructor; auto.
  - intros [] w; cbn [run_action]; auto using transfer_log, transfer_from_log.
  - intros mgr caller lo up liq w. unfold Manager_mint.
    rewrite bind_eq. cbn [get_pool]. cbv beta iota delta [Ok].
    rewrite bind_eq. cbn [get_token]. cbv beta iota delta [Ok].
    rewrite bind_eq. cbn [get_token]. cbv beta iota delta [Ok].
    apply logged_first.
    apply (keeps_bind log_grows log_grows_trans); [apply log_grows_Pool_mint |].
    intros [amt0 amt1].
    apply (keeps_bind log_grows log_grows_trans); [apply log_grows_log_append |].
    intros _. apply keeps_ret, log_grows_refl.
  - intros mgr caller recipient amt w. unfold Manager_swap.
    rewrite bind_eq. cbn [get_pool]. cbv beta iota delta [Ok].
    rewrite bind_eq. cbn [get_token]. cbv beta iota delta [Ok].
    rewrite bind_eq. cbn [get_token]. cbv beta iota delta [Ok].
    apply logged_first.
    apply (keeps_bind log_grows log_grows_trans); [apply log_grows_Pool_swap |].
    intros [used out].
    apply (keeps_bind log_grows log_grows_trans); [apply log_grows_log_append |].
    intros _. apply keeps_ret, log_grows_refl.
Qed.

End WithLibm.
End EventLog.

Section Moves.
Import manager_contract session.

Lemma at_true (cond : Prop) `{Decision cond} (x : Z) : cond -> at_ cond x = x.
Proof. intros Hc. unfold at_. destruct (decide cond); [reflexivity | contradiction]. Qed.

Lemma at_false (cond : Prop) `{Decision cond} (x : Z) : ~ cond -> at_ cond x = 0.
Proof. intros Hc. unfold at_. destruct (decide cond); [contradiction | reflexivity]. Qed.

Lemma at_zero (cond : Prop) `{Decision cond} : at_ cond 0 = 0.
Proof. unfold at_. destruct (decide cond); reflexivity. Qed.

Lemma at_and (P Q : Prop) `{Decision P, Decision Q} (x : Z) :
  at_ (P /\ Q) x = if decide P then at_ Q x else 0.
Proof.
  unfold at_. destruct (decide (P /\ Q)), (decide P), (decide Q); tauto || reflexivity.
Qed.

Lemma moved_delta (m : gmap string Z) (sender to a : string) (b raw : Z) :
  m !! sender = Some b ->
  default 0 (<[to := default 0 (<[sender := b - raw]> m !! to) + raw]>
               (<[sender := b - raw]> m) !! a) =
    default 0 (m !! a) + at_ (a = to) raw - at_ (a = sender) raw.
Proof.
  intros Hb. rewrite (moved_lookup m sender to a b raw Hb). unfold at_.
  destruct (decide (a = to)) as [-> | Hat].
  - destruct (decide (to = sender)) as [-> | Hts]; [rewrite Hb; cbn; lia | lia].
  - destruct (decide (a = sender)) as [-> | Has]; [rewrite Hb; cbn; lia | lia].
Qed.

Lemma after_move_set_token w self t' src dst raw :
  (forall a, default 0 (bal t' !! a) =
             default 0 (bal (store w !!! self) !! a) + at_ (a = dst) raw - at_ (a = src) raw) ->
  forall l a, balance (set_token w self t') l a = after_move (balance w) self src dst raw l a.
Proof.
  intros Ht' l a. rewrite balance_set_token. unfold after_move. rewrite !at_and.
  destruct (decide (l = self)) as [-> |]; [apply Ht' | lia].
Qed.

(** A [transfer] that returns has moved exactly [raw]. *)
Lemma transfer_ok self sender to raw w w' :
  Token_transfer self sender to raw w = (Ok tt, w') ->
  0 <= raw <= balance w self sender /\
  (forall l a, balance w' l a = after_move (balance w) self sender to raw l a) /\
  (forall l o s, allowance_of w' l o s = allowance_of w l o s) /\
  pool w' = pool w /\ log w' = log w.
Proof.
  rewrite Token_transfer_eq. cbv zeta.
  destruct (Z.ltb_spec raw 0) as [| Hraw]; [discriminate |].
  destruct (Z.ltb_spec (balance w self sender) raw) as [| Hbal]; [discriminate |].
  destruct (bal (store w !!! self) !! sender) as [b |] eqn:Hb; [| discriminate].
  intros [= <-]. split; [lia |]. split; [| split; [| split; reflexivity]].
  - apply after_move_set_token. intros a. cbn [bal credit debit with_bal].
    apply moved_delta. exact Hb.
  - intros l o s. rewrite allowance_set_token.
    destruct (decide (l = self)) as [-> |]; reflexivity.
Qed.

(** A [transfer_from] that returns has moved exactly [raw] and spent
    exactly [raw] of the allowance. *)
Lemma transfer_from_ok self spender owner to raw w w' :
  Token_transfer_from self spender owner to raw w = (Ok tt, w') ->
  0 <= raw <= balance w self owner /\ raw <= allowance_of w self owner spender /\
  (forall l a, balance w' l a = after_move (balance w) self owner to raw l a) /\
  (forall l o s,
     allowance_of w' l o s = after_spend (allowance_of w) self owner spender raw l o s) /\
  pool w' = pool w /\ log w' = log w.
Proof.
  rewrite Token_transfer_from_eq. cbv zeta.
  destruct (Z.ltb_spec raw 0) as [| Hraw]; [discriminate |].
  destruct (Z.ltb_spec (allowance_of w self owner spender) raw) as [| Hal]; [discriminate |].
  destruct (Z.ltb_spec (balance w self owner) raw) as [| Hbal]; [discriminate |].
  destruct (bal (store w !!! self) !! owner) as [b |] eqn:Hb; [| discriminate].
  intros [= <-]. split; [lia |]. split; [lia |].
  split; [| split; [| split; reflexivity]].
  - apply after_move_set_token. intros a. cbn [bal credit debit spend with_bal with_allow].
    apply moved_delta. exact Hb.
  - intros l o s. rewrite allowance_set_token. unfold after_spend. rewrite !at_and.
    destruct (decide (l = self)) as [-> |]; [| lia].
    cbn [allow credit debit spend with_bal with_allow]. unfold at_.
    destruct (decide (o = owner)) as [-> | Ho];
      [destruct (decide (s = spender)) as [-> | Hs] |].
    + rewrite lookup_insert_eq. reflexivity.
    + rewrite lookup_insert_ne by congruence. unfold allowance_of. lia.
    + rewrite lookup_insert_ne by congruence. unfold allowance_of. lia.
Qed.
End Moves.

(** ** Square-root prices are never negative *)

Section SqrtSign.
Import F64.

Lemma bra_shape (s : bool) (m e : Z) (l : location) :
  binary_round_aux prec emax s m e l = S754_zero s \/
  (exists m' e', binary_round_aux prec emax s m e l = S754_finite s m' e') \/
  binary_round_aux prec emax s m e l = S754_infinity s \/
  binary_round_aux prec emax s m e l = S754_nan.
Proof.
  unfold binary_round_aux.
  destruct (shr_fexp prec emax m e l) as [mrs' e'].
  destruct (shr_fexp prec emax _ e' loc_Exact) as [mrs'' e''].
  destruct (shr_m mrs'') as [| p | p]; [auto | | auto].
  destruct (e'' <=? emax - prec); eauto.
Qed.

Lemma mag_floor_nonneg (m : positive) (e : Z) : 0 <= mag_floor m e.
Proof.
  unfold mag_floor. destruct (Z.leb_spec 0 e).
  - pose proof (pow2_pos e ltac:(lia)). nia.
  - apply Z.div_pos; [lia | apply pow2_pos; lia].
Qed.

Lemma to_int_nonneg (x : float) (t : Z) :
  (forall m e, x <> S754_finite true m e) -> to_int x = Ok t -> 0 <= t.
Proof.
  intros Hx. destruct x as [s | s | | [] m e]; cbn; try discriminate.
  - intros [= <-]. lia.
  - destruct (Hx m e eq_refl).
  - intros [= <-]. apply mag_floor_nonneg.
Qed.

(** [int(math.sqrt(p) * 2**96)] is never negative. *)
Lemma sqrtp_nonneg (p : float) (s : Z) : first_swap.price_to_sqrtp_x96 p = Ok s -> 0 <= s.
Proof.
  unfold first_swap.price_to_sqrtp_x96.
  change (of_int first_swap.Q96) with (of_int (2 ^ 96)). rewrite of_int_Q96.
  destruct (math_sqrt p) as [e | r] eqn:Hsq; [discriminate |].
  cbn [mbind result_bind Ok]. apply to_int_nonneg.
  intros m e Hm.
  assert (Hr : r = S754_zero false \/ r = S754_zero true \/ (exists m' e', r = S754_finite false m' e')
               \/ r = S754_infinity false \/ r = S754_nan).
  { destruct p as [[] | [] | | [] mp ep]; cbn in Hsq; try discriminate;
      injection Hsq as <-; unfold fsqrt, SFsqrt; auto 6.
    destruct (SFsqrt_core_binary prec emax (Z.pos mp) ep) as [[mz ez] lz].
    destruct (bra_shape false mz ez lz) as [-> | [(m' & e' & ->) | [-> | ->]]]; eauto 10. }
  destruct Hr as [-> | [-> | [(m' & e' & ->) | [-> | ->]]]]; try discriminate Hm.
  unfold mul, SFmul in Hm.
  destruct (bra_shape (xorb false false) (Z.pos (m' * 2 ^ 52)) (e' + 44) loc_Exact)
    as [H | [(m2 & e2 & H) | [H | H]]]; rewrite H in Hm; discriminate Hm.
Qed.

Section WithLibm.
Variable float_pow : float -> Z -> result float.

Lemma tick_sqrtp_nonneg (tick s : Z) :
  manager_contract.tick_to_sqrtp_x96 float_pow tick = Ok s -> 0 <= s.
Proof.
  unfold manager_contract.tick_to_sqrtp_x96, manager_contract.tick_to_price.
  destruct (float_pow f1_0001 tick) as [e | p]; [discriminate |].
  cbn [mbind result_bind]. apply sqrtp_nonneg.
Qed.
End WithLibm.
End SqrtSign.

(** ** Settlement: what the callbacks move *)

Section Settlement.
Import manager_contract session.

Lemma after_move_zero bal0 t src dst l a : after_move bal0 t src dst 0 l a = bal0 l a.
Proof. unfold after_move. rewrite !at_zero. lia. Qed.

Lemma after_spend_zero al0 t owner spender l o s :
  after_spend al0 t owner spender 0 l o s = al0 l o s.
Proof. unfold after_spend. rewrite at_zero. lia. Qed.

Lemma after_move_ext bal0 bal1 t src dst raw l a :
  (forall l a, bal0 l a = bal1 l a) ->
  after_move bal0 t src dst raw l a = after_move bal1 t src dst raw l a.
Proof. intros H. unfold after_move. rewrite H. reflexivity. Qed.

Lemma after_spend_ext al0 al1 t owner spender raw l o s :
  (forall l o s, al0 l o s = al1 l o s) ->
  after_spend al0 t owner spender raw l o s = after_spend al1 t owner spender raw l o s.
Proof. intros H. unfold after_spend. rewrite H. reflexivity. Qed.

(** One pull of a callback that returns: [max amount 0] has gone from the
    payer to the pool, out of the allowance the payer gave the manager. *)
Lemma pull_settles (t : loc) (mgr : Manager) (data : CallbackData) (amount : Z)
    (tag : string) w w' :
  (if amount >? 0 then
     p ← get_pool;
     Token_transfer_from t (manager_address mgr) (payer data) (address p) amount;;
     s ← get_token t;
     log_append (tag +:+ address p +:+ ": " +:+ fmt amount +:+ " " +:+ symbol s)
   else mret tt) w = (Ok tt, w') ->
  (forall l a,
     balance w' l a =
       after_move (balance w) t (payer data) (address (pool w)) (Z.max amount 0) l a) /\
  (forall l o s,
     allowance_of w' l o s =
       after_spend (allowance_of w) t (payer data) (manager_address mgr)
         (Z.max amount 0) l o s) /\
  pool w' = pool w /\
  (amount <= 0 -> w' = w).
Proof.
  rewrite pull_eq. destruct (Z.gtb_spec amount 0) as [Hpos | Hle].
  - destruct (Token_transfer_from _ _ _ _ _ _) as [[e | []] w1] eqn:Htf; [discriminate |].
    intros [= <-].
    apply transfer_from_ok in Htf as (_ & _ & Hb & Ha & Hp & _).
    rewrite Z.max_l by lia.
    split; [exact Hb |]. split; [exact Ha |]. split; [exact Hp | lia].
  - intros [= <-]. rewrite Z.max_r by lia.
    split; [intros; rewrite after_move_zero; reflexivity |].
    split; [intros; rewrite after_spend_zero; reflexivity |]. auto.
Qed.

(** The two pulls of a callback, one after the other. *)
Lemma callback_settles (tag : string) (t0 t1 : loc) (mgr : Manager) (data : CallbackData)
    (amount0 amount1 : Z) w w' :
  ((if amount0 >? 0 then
      p ← get_pool;
      Token_transfer_from t0 (manager_address mgr) (payer data) (address p) amount0;;
      s ← get_token t0;
      log_append (tag +:+ address p +:+ ": " +:+ fmt amount0 +:+ " " +:+ symbol s)
    else mret tt);;
   (if amount1 >? 0 then
      p ← get_pool;
      Token_transfer_from t1 (manager_address mgr) (payer data) (address p) amount1;;
      s ← get_token t1;
      log_append (tag +:+ address p +:+ ": " +:+ fmt amount1 +:+ " " +:+ symbol s)
    else mret tt)) w = (Ok tt, w') ->
  (forall l a,
     balance w' l a =
       after_move
         (after_move (balance w) t0 (payer data) (address (pool w)) (Z.max amount0 0))
         t1 (payer data) (address (pool w)) (Z.max amount1 0) l a) /\
  (forall l o s,
     allowance_of w' l o s =
       after_spend
         (after_spend (allowance_of w) t0 (payer data) (manager_address mgr)
            (Z.max amount0 0))
         t1 (payer data) (manager_address mgr) (Z.max amount1 0) l o s) /\
  pool w' = pool w /\
  (amount0 <= 0 -> amount1 <= 0 -> w' = w).
Proof.
  rewrite bind_eq.
  match goal with
  | |- context [match ?m w with _ => _ end] => destruct (m w) as [[e0 | []] w1] eqn:H0
  end; [discriminate |].
  intros H1.
  apply pull_settles in H0 as (Hb0 & Ha0 & Hp0 & Hz0).
  apply pull_settles in H1 as (Hb1 & Ha1 & Hp1 & Hz1).
  rewrite Hp0 in Hb1.
  split; [| split; [| split]].
  - intros l a. rewrite Hb1. apply after_move_ext. exact Hb0.
  - intros l o s. rewrite Ha1. apply after_spend_ext. exact Ha0.
  - congruence.
  - intros Hz Hz'. rewrite (Hz1 Hz'). apply Hz0, Hz.
Qed.

Lemma mint_callback_settles mgr amount0 amount1 data w w' :
  Manager_uniswapV3MintCallback mgr amount0 amount1 data w = (Ok tt, w') ->
  exists t0 t1,
    tokens mgr !! token0_symbol data = Some t0 /\
    tokens mgr !! token1_symbol data = Some t1 /\
    (forall l a,
       balance w' l a =
         after_move
           (after_move (balance w) t0 (payer data) (address (pool w)) (Z.max amount0 0))
           t1 (payer data) (address (pool w)) (Z.max amount1 0) l a) /\
    (forall l o s,
       allowance_of w' l o s =
         after_spend
           (after_spend (allowance_of w) t0 (payer data) (manager_address mgr)
              (Z.max amount0 0))
           t1 (payer data) (manager_address mgr) (Z.max amount1 0) l o s) /\
    pool w' = pool w /\
    (amount0 <= 0 -> amount1 <= 0 -> w' = w).
Proof.
  unfold Manager_uniswapV3MintCallback.
  rewrite bind_eq. unfold getitem at 1.
  destruct (tokens mgr !! token0_symbol data) as [t0 |]; [| discriminate].
  cbn [mret M_ret]. cbv beta iota delta [Ok].
  rewrite bind_eq. unfold getitem at 1.
  destruct (tokens mgr !! token1_symbol data) as [t1 |]; [| discriminate].
  cbn [mret M_ret]. cbv beta iota delta [Ok].
  intros H. exists t0, t1. split; [reflexivity |]. split; [reflexivity |].
  exact (callback_settles _ t0 t1 mgr data amount0 amount1 w w' H).
Qed.

Lemma swap_callback_settles mgr amount0 amount1 data w w' :
  Manager_uniswapV3SwapCallback mgr amount0 amount1 data w = (Ok tt, w') ->
  exists t0 t1,
    tokens mgr !! token0_symbol data = Some t0 /\
    tokens mgr !! token1_symbol data = Some t1 /\
    (forall l a,
       balance w' l a =
         after_move
           (after_move (balance w) t0 (payer data) (address (pool w)) (Z.max amount0 0))
           t1 (payer data) (address (pool w)) (Z.max amount1 0) l a) /\
    (forall l o s,
       allowance_of w' l o s =
         after_spend
           (after_spend (allowance_of w) t0 (payer data) (manager_address mgr)
              (Z.max amount0 0))
           t1 (payer data) (manager_address mgr) (Z.max amount1 0) l o s) /\
    pool w' = pool w /\
    (amount0 <= 0 -> amount1 <= 0 -> w' = w).
Proof.
  unfold Manager_uniswapV3SwapCallback.
  rewrite bind_eq. unfold getitem at 1.
  destruct (tokens mgr !! token0_symbol data) as [t0 |]; [| discriminate].
  cbn [mret M_ret]. cbv beta iota delta [Ok].
  rewrite bind_eq. unfold getitem at 1.
  destruct (tokens mgr !! token1_symbol data) as [t1 |]; [| discriminate].
  cbn [mret M_ret]. cbv beta iota delta [Ok].
  intros H. exists t0, t1. split; [reflexivity |]. split; [reflexivity |].
  exact (callback_settles _ t0 t1 mgr data amount0 amount1 w w' H).
Qed.

End Settlement.

(** ** Pool.mint *)

Section MintFacts.
Import manager_contract session.

Variable float_pow : F64.float -> Z -> result F64.float.

Lemma amount0_delta_eq (l x y : Z) :
  amount0_delta l x y =
    if x * y =? 0 then Raise (ZeroDivisionError "integer division or modulo by zero")
    else Ok (l * Z.abs (x - y) * Q96 / (x * y)).
Proof.
  unfold amount0_delta. destruct (Z.ltb_spec x y).
  - replace (y * x) with (x * y) by lia.
    destruct (x * y =? 0); [reflexivity |]. do 4 f_equal. lia.
  - destruct (x * y =? 0); [reflexivity |]. do 4 f_equal. lia.
Qed.

Lemma div_sign (n d : Z) : 0 < d -> (0 <= n -> 0 <= n / d) /\ (n <= 0 -> n / d <= 0).
Proof.
  intros Hd. split; intros Hn.
  - apply Z.div_pos; lia.
  - apply Z.div_le_upper_bound; lia.
Qed.

(** The amounts of a mint, once the two ticks have square-root prices. *)
Lemma required_amounts_cases (p : Pool) (L_add sqrtL sqrtU : Z) :
  tick_to_sqrtp_x96 float_pow (lower_tick p) = Ok sqrtL ->
  tick_to_sqrtp_x96 float_pow (upper_tick p) = Ok sqrtU ->
  let sqrtC := sqrtp_x96 p in
  0 <= sqrtL /\
  required_amounts float_pow p L_add =
    if negb ((sqrtL <=? sqrtC) && (sqrtC <=? sqrtU)) then
      Raise (ValueError "Current price must be inside the range for this simplified mint.")
    else if sqrtU * sqrtC =? 0 then
      Raise (ZeroDivisionError "integer division or modulo by zero")
    else Ok (L_add * (sqrtU - sqrtC) * Q96 / (sqrtU * sqrtC),
             L_add * (sqrtC - sqrtL) / Q96).
Proof.
  intros HsL HsU sqrtC.
  split; [exact (tick_sqrtp_nonneg float_pow _ _ HsL) |].
  unfold required_amounts.
  rewrite HsL, HsU. cbv beta iota delta [mbind result_bind Ok]. fold sqrtC.
  destruct (Z.leb_spec sqrtL sqrtC), (Z.leb_spec sqrtC sqrtU); cbn [negb andb];
    try reflexivity.
  rewrite amount0_delta_eq. destruct (sqrtU * sqrtC =? 0); [reflexivity |].
  rewrite amount1_delta_ge by lia. rewrite Z.abs_eq by lia. reflexivity.
Qed.

Lemma required_amounts_sign (p : Pool) (liq amt0 amt1 : Z) :
  required_amounts float_pow p liq = Ok (amt0, amt1) ->
  (0 <= liq -> 0 <= amt0 /\ 0 <= amt1) /\ (liq <= 0 -> amt0 <= 0 /\ amt1 <= 0).
Proof.
  intros Hreq.
  destruct (tick_to_sqrtp_x96 float_pow (lower_tick p)) as [e | sqrtL] eqn:HsL;
    [unfold required_amounts in Hreq; rewrite HsL in Hreq; discriminate |].
  destruct (tick_to_sqrtp_x96 float_pow (upper_tick p)) as [e | sqrtU] eqn:HsU;
    [unfold required_amounts in Hreq; rewrite HsL, HsU in Hreq; discriminate |].
  destruct (required_amounts_cases p liq sqrtL sqrtU HsL HsU) as [HL0 Heq].
  cbv zeta in Heq. rewrite Heq in Hreq.
  destruct (Z.leb_spec sqrtL (sqrtp_x96 p)), (Z.leb_spec (sqrtp_x96 p) sqrtU);
    cbn [negb andb] in Hreq; try discriminate.
  destruct (Z.eqb_spec (sqrtU * sqrtp_x96 p) 0); [discriminate |].
  injection Hreq as <- <-.
  pose proof Q96_pos as HQ. change first_swap.Q96 with Q96 in HQ.
  assert (Hden : 0 < sqrtU * sqrtp_x96 p) by nia.
  split; intros HLadd; split;
    try (apply (div_sign _ _ Hden); nia); apply (div_sign _ _ HQ); nia.
Qed.

(** [Pool._required_amounts_for_liquidity] reads the pool and writes
    nothing.  With the square-root prices [sqrtL], [sqrtU] of the two ticks:
    a current price outside [[sqrtL, sqrtU]] raises the range error; the
    current price 0 inside the range raises a division by zero; otherwise
    it returns two amounts with the sign of [L_add], zero for [L_add = 0]. *)
Theorem required_amounts_checked (L_add sqrtL sqrtU : Z) (w : World) :
  tick_to_sqrtp_x96 float_pow (lower_tick (pool w)) = Ok sqrtL ->
  tick_to_sqrtp_x96 float_pow (upper_tick (pool w)) = Ok sqrtU ->
  let sqrtC := sqrtp_x96 (pool w) in
  (~ (sqrtL <= sqrtC <= sqrtU) ->
     Pool__required_amounts_for_liquidity float_pow L_add w =
       (Raise (ValueError "Current price must be inside the range for this simplified mint."),
        w)) /\
  (sqrtL <= sqrtC <= sqrtU -> sqrtC = 0 ->
     Pool__required_amounts_for_liquidity float_pow L_add w =
       (Raise (ZeroDivisionError "integer division or modulo by zero"), w)) /\
  (sqrtL <= sqrtC <= sqrtU -> sqrtC <> 0 ->
     exists amt0 amt1,
       Pool__required_amounts_for_liquidity float_pow L_add w = (Ok (amt0, amt1), w) /\
       amt0 = L_add * (sqrtU - sqrtC) * Q96 / (sqrtU * sqrtC) /\
       amt1 = L_add * (sqrtC - sqrtL) / Q96 /\
       (0 <= L_add -> 0 <= amt0 /\ 0 <= amt1) /\
       (L_add <= 0 -> amt0 <= 0 /\ amt1 <= 0)).
Proof.
  intros HsL HsU sqrtC.
  destruct (required_amounts_cases (pool w) L_add sqrtL sqrtU HsL HsU) as [HL0 Heq].
  cbv zeta in Heq. fold sqrtC in Heq.
  rewrite Pool__required_amounts_eq, Heq.
  split; [| split].
  - intros Hout.
    destruct (Z.leb_spec sqrtL sqrtC), (Z.leb_spec sqrtC sqrtU); cbn [negb andb];
      try reflexivity; lia.
  - intros Hin Hz.
    destruct (Z.leb_spec sqrtL sqrtC), (Z.leb_spec sqrtC sqrtU); try lia. cbn [negb andb].
    destruct (Z.eqb_spec (sqrtU * sqrtC) 0); [reflexivity | nia].
  - intros Hin Hnz.
    destruct (Z.leb_spec sqrtL sqrtC), (Z.leb_spec sqrtC sqrtU); try lia. cbn [negb andb].
    destruct (Z.eqb_spec (sqrtU * sqrtC) 0); [nia |].
    eexists _, _. split; [reflexivity |]. split; [reflexivity |]. split; [reflexivity |].
    pose proof Q96_pos as HQ. change first_swap.Q96 with Q96 in HQ.
    assert (Hden : 0 < sqrtU * sqrtC) by nia.
    split; intros HLadd; split;
      try (apply (div_sign _ _ Hden); nia); apply (div_sign _ _ HQ); nia.
Qed.

(** What a mint that returns has done. *)
Lemma Pool_mint_ok owner lo up liq data mgr w amt0 amt1 w' :
  Pool_mint float_pow owner lo up liq data mgr w = (Ok (amt0, amt1), w') ->
  exists w2,
    lo < up /\
    required_amounts float_pow (with_range (pool w) lo up) liq = Ok (amt0, amt1) /\
    Manager_uniswapV3MintCallback mgr amt0 amt1 data
      (set_pool w (with_range (pool w) lo up)) = (Ok tt, w2) /\
    w' = set_pool w2 (with_L (with_range (pool w) lo up) (L (pool w) + liq)).
Proof.
  rewrite Pool_mint_eq. destruct (Z.geb_spec lo up) as [| Hlu]; [discriminate |].
  cbv zeta. change (pool (set_pool w (with_range (pool w) lo up)))
    with (with_range (pool w) lo up).
  destruct (required_amounts _ _ liq) as [e | [a0 a1]]; [discriminate |].
  destruct (Manager_uniswapV3MintCallback _ _ _ _ _) as [[e | []] w2] eqn:Hcb;
    [discriminate |].
  intros [= <- <- <-]. exists w2. split; [lia |]. split; [reflexivity |].
  split; [exact Hcb |].
  pose proof (pool_kept_mint_callback mgr a0 a1 data
                (set_pool w (with_range (pool w) lo up))) as Hk.
  rewrite Hcb in Hk. unfold same_pool in Hk. cbn in Hk. rewrite Hk. reflexivity.
Qed.

(** A mint that returns has settled exactly the amounts it returns: each
    positive amount has gone from the payer to the pool, on the token the
    manager holds under the symbol of the callback data, and has been taken
    off the allowance the payer gave the manager; the liquidity has grown by
    [liquidity] and the range is the requested one.  For a non-negative
    [liquidity] both amounts are non-negative. *)
Theorem mint_settles owner lo up liq data mgr w amt0 amt1 w' :
  Pool_mint float_pow owner lo up liq data mgr w = (Ok (amt0, amt1), w') ->
  exists t0 t1,
    tokens mgr !! token0_symbol data = Some t0 /\
    tokens mgr !! token1_symbol data = Some t1 /\
    (forall l a,
       balance w' l a =
         after_move
           (after_move (balance w) t0 (payer data) (address (pool w)) (Z.max amt0 0))
           t1 (payer data) (address (pool w)) (Z.max amt1 0) l a) /\
    (forall l o s,
       allowance_of w' l o s =
         after_spend
           (after_spend (allowance_of w) t0 (payer data) (manager_address mgr)
              (Z.max amt0 0))
           t1 (payer data) (manager_address mgr) (Z.max amt1 0) l o s) /\
    pool w' = with_L (with_range (pool w) lo up) (L (pool w) + liq) /\
    (0 <= liq -> 0 <= amt0 /\ 0 <= amt1).
Proof.
  intros Hrun. apply Pool_mint_ok in Hrun as (w2 & Hlu & Hreq & Hcb & ->).
  apply mint_callback_settles in Hcb as (t0 & t1 & Ht0 & Ht1 & Hb & Ha & _ & _).
  exists t0, t1. split; [exact Ht0 |]. split; [exact Ht1 |].
  split; [exact Hb |]. split; [exact Ha |]. split; [reflexivity |].
  apply (required_amounts_sign _ _ _ _ Hreq).
Qed.

(** [Pool.mint] does not look at the sign of [liquidity].  A mint of zero or
    negative liquidity that returns has asked for nothing and moved
    nothing: the ledger and the log are untouched, yet the range is the
    requested one and [L] has changed by [liquidity]. *)
Theorem mint_nonpositive_liquidity owner lo up liq data mgr w amt0 amt1 w' :
  liq <= 0 ->
  Pool_mint float_pow owner lo up liq data mgr w = (Ok (amt0, amt1), w') ->
  amt0 <= 0 /\ amt1 <= 0 /\
  store w' = store w /\ log w' = log w /\
  pool w' = with_L (with_range (pool w) lo up) (L (pool w) + liq).
Proof.
  intros Hliq Hrun. apply Pool_mint_ok in Hrun as (w2 & Hlu & Hreq & Hcb & ->).
  destruct (required_amounts_sign _ _ _ _ Hreq) as [_ Hneg].
  destruct (Hneg Hliq) as [H0 H1].
  apply mint_callback_settles in Hcb as (t0 & t1 & _ & _ & _ & _ & _ & Hsame).
  rewrite (Hsame H0 H1). repeat split; assumption.
Qed.

End MintFacts.

(** ** Pool.swap_token1_in_for_token0_out *)

Section SwapSettlement.
Import manager_contract session.

Variable libm_log : F64.float -> F64.float.
Variable float_pow : F64.float -> Z -> result F64.float.

(** A swap that returns has settled exactly the amounts it returns:
    [amt1_used] of token1 has gone from the payer to the pool, out of the
    allowance the payer gave the manager, and [amt0_out] of the pool's
    token0 from the pool to the recipient; neither amount is negative, and
    the callback has pulled no token0. *)
Theorem swap_settles recipient amt data mgr w used out w' :
  Pool_swap_token1_in_for_token0_out float_pow recipient amt data mgr w
    = (Ok (used, out), w') ->
  exists t1,
    tokens mgr !! token1_symbol data = Some t1 /\
    0 <= used /\ 0 <= out /\
    (forall l a,
       balance w' l a =
         after_move
           (after_move (balance w) t1 (payer data) (address (pool w)) used)
           (token0 (pool w)) (address (pool w)) recipient out l a) /\
    (forall l o s,
       allowance_of w' l o s =
         after_spend (allowance_of w) t1 (payer data) (manager_address mgr) used l o s).
Proof.
  intros Hrun.
  apply Pool_swap_ok in Hrun as (sqrtN & w2 & w3 & HL & Hq & Hcb & Htr & ->).
  apply swap_quote_ok in Hq as (sqrtL & sqrtU & _ & _ & _ & Hused & _).
  apply swap_callback_settles in Hcb as (t0 & t1 & _ & Ht1 & Hb2 & Ha2 & Hp2 & _).
  apply transfer_ok in Htr as (Hout & Hb3 & Ha3 & _ & _).
  assert (Hu : 0 <= used).
  { rewrite Hused. unfold amount1_delta.
    pose proof Q96_pos as HQ. change first_swap.Q96 with Q96 in HQ.
    destruct (Z.ltb_spec sqrtN (sqrtp_x96 (pool w))); apply Z.div_pos; nia. }
  exists t1. split; [exact Ht1 |]. split; [exact Hu |]. split; [lia |].
  split.
  - intros l a. change (balance (set_pool w3 ?p) l a) with (balance w3 l a).
    rewrite Hb3. apply after_move_ext. intros l' a'. rewrite Hb2.
    rewrite Z.max_r by lia. rewrite Z.max_l by lia.
    apply after_move_ext. intros l'' a''. apply after_move_zero.
  - intros l o s. change (allowance_of (set_pool w3 ?p) l o s) with (allowance_of w3 l o s).
    rewrite Ha3, Ha2. rewrite Z.max_r by lia. rewrite Z.max_l by lia.
    apply after_spend_ext. intros l' o' s'. apply after_spend_zero.
Qed.

(** A pool has no liquidity when it is built, and a pool without liquidity
    rejects every swap before it computes or moves anything; through the
    manager the only trace of the call is its entry on the log. *)
Theorem swap_needs_liquidity :
  (forall addr t0 t1 price_init p,
     Pool_init libm_log addr t0 t1 price_init = Ok p -> L p = 0) /\
  (forall recipient amt data mgr w,
     L (pool w) <= 0 ->
     Pool_swap_token1_in_for_token0_out float_pow recipient amt data mgr w
       = (Raise (ValueError "Pool has no liquidity. Mint first."), w)) /\
  (forall mgr caller recipient amt w,
     L (pool w) <= 0 ->
     Manager_swap float_pow mgr caller recipient amt w
       = (Raise (ValueError "Pool has no liquidity. Mint first."),
          log_entry w ("Manager.swap(pool=" +:+ address (pool w) +:+ ", caller=" +:+ caller
                         +:+ ", recipient=" +:+ recipient +:+ ", token1_in="
                         +:+ fmt amt +:+ ")"))).
Proof.
  split; [| split].
  - intros addr t0 t1 price_init p. unfold Pool_init.
    repeat match goal with
           | |- context [mbind _ ?r] => destruct r; cbn [mbind result_bind]; [discriminate |]
           end.
    intros [= <-]. reflexivity.
  - intros recipient amt data mgr w HL. rewrite Pool_swap_eq. cbv zeta.
    destruct (Z.leb_spec (L (pool w)) 0); [reflexivity | lia].
  - intros mgr caller recipient amt w HL. unfold Manager_swap.
    rewrite bind_eq. cbn [get_pool]. cbv beta iota delta [Ok].
    rewrite bind_eq. cbn [get_token]. cbv beta iota delta [Ok].
    rewrite bind_eq. cbn [get_token]. cbv beta iota delta [Ok].
    rewrite bind_eq. cbn [log_append]. cbv beta iota delta [Ok].
    rewrite bind_eq, Pool_swap_eq. cbv zeta. cbn [pool].
    destruct (Z.leb_spec (L (pool w)) 0); [reflexivity | lia].
Qed.

End SwapSettlement.

(** ** Runs *)

Section SettlementRuns.
Import manager_contract session.

Lemma required_amounts_checked_witness :
  exists amt0 amt1,
    Pool__required_amounts_for_liquidity demo.float_pow (10 ^ 15)
      (set_pool demo.world0 (with_range demo.pool0 0 1))
    = (Ok (amt0, amt1), set_pool demo.world0 (with_range demo.pool0 0 1)) /\
    0 <= amt0 /\ 0 <= amt1.
Proof.
  destruct (required_amounts_checked demo.float_pow (10 ^ 15)
              79228162514264337593543950336 79232123823359791237469044736
              (set_pool demo.world0 (with_range demo.pool0 0 1)))
    as (_ & _ & Hok); [vm_compute; reflexivity | vm_compute; reflexivity |].
  destruct Hok as (amt0 & amt1 & Hrun & _ & _ & Hpos & _).
  - vm_compute. split; discriminate.
  - vm_compute. discriminate.
  - exists amt0, amt1. split; [exact Hrun |]. apply Hpos. lia.
Defined.

Lemma mint_settles_witness :
  let r := Pool_mint demo.float_pow "Alice" 0 1 (10 ^ 15) demo.data demo.manager
             demo.world_approved in
  fst r = Ok (24997187773, 24999687507) /\
  balance (snd r) demo.ETH "Pool1"
    = balance demo.world_approved demo.ETH "Pool1" + 24997187773 /\
  balance (snd r) demo.USDC "Alice"
    = balance demo.world_approved demo.USDC "Alice" - 24999687507 /\
  allowance_of (snd r) demo.USDC "Alice" "Manager"
    = allowance_of demo.world_approved demo.USDC "Alice" "Manager" - 24999687507.
Proof.
  intros r.
  assert (Hrun : r = (Ok (24997187773, 24999687507), snd r)) by (vm_compute; reflexivity).
  destruct (mint_settles demo.float_pow "Alice" 0 1 (10 ^ 15) demo.data demo.manager
              demo.world_approved _ _ _ Hrun)
    as (t0 & t1 & Ht0 & Ht1 & Hb & Ha & _ & _).
  vm_compute in Ht0, Ht1. injection Ht0 as <-. injection Ht1 as <-.
  split; [vm_compute; reflexivity |].
  rewrite !Hb, Ha. vm_compute. repeat split.
Defined.

Lemma mint_nonpositive_liquidity_witness :
  let r := Pool_mint demo.float_pow "Alice" 0 1 (- 10 ^ 15) demo.data demo.manager
             demo.world_minted in
  fst r = Ok (-24997187774, -24999687508) /\
  L (pool demo.world_minted) = 10 ^ 15 /\ L (pool (snd r)) = 0 /\
  store (snd r) = store demo.world_minted /\ log (snd r) = log demo.world_minted.
Proof.
  intros r.
  assert (Hrun : r = (Ok (-24997187774, -24999687508), snd r)) by (vm_compute; reflexivity).
  destruct (mint_nonpositive_liquidity demo.float_pow "Alice" 0 1 (- 10 ^ 15) demo.data
              demo.manager demo.world_minted _ _ _ ltac:(lia) Hrun)
    as (_ & _ & Hs & Hl & Hp).
  split; [vm_compute; reflexivity |]. split; [vm_compute; reflexivity |].
  split; [rewrite Hp; vm_compute; reflexivity |].
  split; [exact Hs | exact Hl].
Defined.

Lemma swap_settles_witness :
  exists t1,
    tokens demo.manager !! token1_symbol demo.data = Some t1 /\
    0 <= 999999 /\ 0 <= 999950 /\
    balance (snd demo.swapped) demo.USDC "Pool1"
      = balance demo.world_minted demo.USDC "Pool1" + 999999 /\
    balance (snd demo.swapped) demo.ETH "Alice"
      = balance demo.world_minted demo.ETH "Alice" + 999950.
Proof.
  assert (Hrun : Pool_swap_token1_in_for_token0_out demo.float_pow "Alice" (10 ^ 6)
                   demo.data demo.manager demo.world_minted
                 = (Ok (999999, 999950), snd demo.swapped))
    by (vm_compute; reflexivity).
  destruct (swap_settles demo.float_pow "Alice" (10 ^ 6) demo.data demo.manager
              demo.world_minted 999999 999950 (snd demo.swapped) Hrun)
    as (t1 & Ht1 & Hu & Ho & Hb & _).
  exists t1. split; [exact Ht1 |]. split; [exact Hu |]. split; [exact Ho |].
  vm_compute in Ht1. injection Ht1 as <-.
  rewrite !Hb. vm_compute. split; reflexivity.
Defined.

Lemma swap_needs_liquidity_witness :
  Manager_swap demo.float_pow demo.manager "Alice" "Alice" 42 demo.world_approved
    = (Raise (ValueError "Pool has no liquidity. Mint first."),
       log_entry demo.world_approved
         "Manager.swap(pool=Pool1, caller=Alice, recipient=Alice, token1_in=42)").
Proof.
  destruct (swap_needs_liquidity demo.no_log demo.float_pow) as (_ & _ & H).
  rewrite (H demo.manager "Alice" "Alice" 42 demo.world_approved) by (vm_compute; discriminate).
  vm_compute. reflexivity.
Defined.

End SettlementRuns.

(** ** Missing tokens *)

Section MissingToken.
Import manager_contract session.

(** Both callbacks look up the two tokens before they move anything: a
    symbol the manager does not hold raises [KeyError] on that symbol with
    nothing transferred and nothing logged, whatever the amounts; the first
    symbol is looked up first. *)
Theorem callback_missing_token mgr amount0 amount1 data w :
  (tokens mgr !! token0_symbol data = None ->
     Manager_uniswapV3MintCallback mgr amount0 amount1 data w
       = (Raise (KeyError (token0_symbol data)), w) /\
     Manager_uniswapV3SwapCallback mgr amount0 amount1 data w
       = (Raise (KeyError (token0_symbol data)), w)) /\
  (is_Some (tokens mgr !! token0_symbol data) ->
   tokens mgr !! token1_symbol data = None ->
     Manager_uniswapV3MintCallback mgr amount0 amount1 data w
       = (Raise (KeyError (token1_symbol data)), w) /\
     Manager_uniswapV3SwapCallback mgr amount0 amount1 data w
       = (Raise (KeyError (token1_symbol data)), w)).
Proof.
  unfold Manager_uniswapV3MintCallback, Manager_uniswapV3SwapCallback.
  split.
  - intros H0. rewrite !bind_eq. unfold getitem. rewrite H0. split; reflexivity.
  - intros [t0 H0] H1. rewrite !bind_eq. unfold getitem at 1 3. rewrite H0.
    cbn [mret M_ret]. cbv beta iota delta [Ok].
    rewrite !bind_eq. unfold getitem. rewrite H1. split; reflexivity.
Qed.

Lemma callback_missing_token_witness :
  Manager_uniswapV3MintCallback demo.manager 5 7
    {| token0_symbol := "ETH"; token1_symbol := "DAI"; payer := "Alice" |} demo.world_approved
  = (Raise (KeyError "DAI"), demo.world_approved).
Proof.
  destruct (callback_missing_token demo.manager 5 7
              {| token0_symbol := "ETH"; token1_symbol := "DAI"; payer := "Alice" |}
              demo.world_approved) as [_ H].
  apply H; [eexists; vm_compute; reflexivity | vm_compute; reflexivity].
Defined.

End MissingToken.

(** * More of the first-swap page *)

(** ** The amounts of a move of the price *)

Section Amounts.
Import first_swap.

(** Comparing two floors by cross-multiplication. *)
Lemma div_le_cross (N1 D1 N2 D2 : Z) :
  0 < D1 -> 0 < D2 -> 0 <= N1 -> N1 * D2 <= N2 * D1 -> N1 / D1 <= N2 / D2.
Proof.
  intros HD1 HD2 HN1 Hc.
  apply Z.div_le_lower_bound; [exact HD2 |].
  pose proof (Z.mul_div_le N1 D1 HD1) as Hq.
  assert (Hq0 : 0 <= N1 / D1) by (apply Z.div_pos; lia).
  assert (H : D2 * (N1 / D1) * D1 <= N2 * D1) by nia.
  nia.
Qed.

Lemma floor_spec_pos (N D : Z) : 0 < D -> (N / D) * D <= N < (N / D + 1) * D.
Proof.
  intros HD. pose proof (Z.mul_div_le N D HD). pose proof (Z.mul_succ_div_gt N D HD). lia.
Qed.

Lemma floor_add_le (x y D : Z) : 0 < D -> x / D + y / D <= (x + y) / D <= x / D + y / D + 1.
Proof.
  intros HD.
  pose proof (floor_spec_pos x D HD). pose proof (floor_spec_pos y D HD).
  split.
  - apply Z.div_le_lower_bound; [exact HD | nia].
  - assert ((x + y) / D < x / D + y / D + 2); [| lia].
    apply Z.div_lt_upper_bound; [exact HD | nia].
Qed.

(** The token1 amount of a move is the floor of [L * |a - b| / 2^96],
    whichever way round the two prices are given, on both pages. *)
Theorem amount1_is_floor (L a b : Z) :
  manager_contract.amount1_delta L a b = calc_amount1 L a b /\
  calc_amount1 L a b = calc_amount1 L b a /\
  calc_amount1 L a b * 2 ^ 96 <= L * Z.abs (a - b) < (calc_amount1 L a b + 1) * 2 ^ 96 /\
  calc_amount1 L a a = 0 /\
  (0 <= L -> 0 <= calc_amount1 L a b).
Proof.
  assert (Heq : forall x y, calc_amount1 L x y = L * Z.abs (x - y) / 2 ^ 96).
  { intros x y. unfold calc_amount1. change Q96 with (2 ^ 96).
    destruct (Z.ltb_spec x y); f_equal; f_equal; lia. }
  split; [reflexivity |]. rewrite !Heq.
  split; [f_equal; f_equal; lia |].
  split; [apply floor_spec_pos; lia |].
  split.
  - replace (a - a) with 0 by lia. cbn. rewrite Z.mul_0_r. reflexivity.
  - intros HL. apply Z.div_pos; [| lia]. pose proof (Z.abs_nonneg (a - b)). nia.
Qed.

Lemma amount1_is_floor_witness : 0 <= calc_amount1 3 (2 ^ 96) 0.
Proof.
  destruct (amount1_is_floor 3 (2 ^ 96) 0) as (_ & _ & _ & _ & H).
  apply H. lia.
Defined.

(** Moving the price in two steps asks for the same token1 as moving it in
    one, up to one raw unit lost to rounding. *)
Theorem amount1_splits (L a b c : Z) :
  a <= b <= c ->
  calc_amount1 L b a + calc_amount1 L c b <= calc_amount1 L c a
    <= calc_amount1 L b a + calc_amount1 L c b + 1.
Proof.
  intros Habc. rewrite !calc_amount1_ge by lia.
  replace (L * (c - a)) with (L * (b - a) + L * (c - b)) by lia.
  apply floor_add_le. apply Q96_pos.
Qed.

Lemma amount1_splits_witness :
  calc_amount1 3 (2 ^ 95) 0 + calc_amount1 3 (2 ^ 96) (2 ^ 95) <= calc_amount1 3 (2 ^ 96) 0
    <= calc_amount1 3 (2 ^ 95) 0 + calc_amount1 3 (2 ^ 96) (2 ^ 95) + 1.
Proof. apply amount1_splits. lia. Defined.

(** The token0 amount of a move: a division by zero exactly when one of the
    prices is zero; otherwise the same number whichever way round the prices
    are given, on both pages, and for two positive prices the floor of
    [L * |a - b| * 2^96 / (a * b)]. *)
Theorem amount0_is_floor (L a b : Z) :
  manager_contract.amount0_delta L a b = calc_amount0 L a b /\
  calc_amount0 L a b = calc_amount0 L b a /\
  (a = 0 \/ b = 0 ->
     calc_amount0 L a b =
       Raise (ZeroDivisionError "integer division or modulo by zero")) /\
  (a <> 0 -> b <> 0 -> exists out, calc_amount0 L a b = Ok out) /\
  (0 < a -> 0 < b -> forall out,
     calc_amount0 L a b = Ok out ->
     out * (a * b) <= L * Z.abs (a - b) * 2 ^ 96 < (out + 1) * (a * b) /\
     (0 <= L -> 0 <= out)).
Proof.
  assert (Heq : forall x y,
            calc_amount0 L x y =
              if x * y =? 0 then Raise (ZeroDivisionError "integer division or modulo by zero")
              else Ok (L * Z.abs (x - y) * 2 ^ 96 / (x * y))).
  { intros x y. unfold calc_amount0. change Q96 with (2 ^ 96).
    destruct (Z.ltb_spec x y).
    - replace (y * x) with (x * y) by lia.
      destruct (x * y =? 0); [reflexivity |]. do 4 f_equal. lia.
    - destruct (x * y =? 0); [reflexivity |]. do 4 f_equal. lia. }
  split; [reflexivity |]. rewrite !Heq.
  split; [| split; [| split]].
  - replace (b * a) with (a * b) by lia. replace (b - a) with (- (a - b)) by lia.
    rewrite Z.abs_opp. reflexivity.
  - intros Hz. destruct (Z.eqb_spec (a * b) 0); [reflexivity | nia].
  - intros Ha Hb. destruct (Z.eqb_spec (a * b) 0); [nia | eauto].
  - intros Ha Hb out. destruct (Z.eqb_spec (a * b) 0); [nia |].
    intros [= <-]. split.
    + apply floor_spec_pos. nia.
    + intros HL. apply Z.div_pos; [| nia].
      pose proof (Z.abs_nonneg (a - b)). nia.
Qed.

Lemma amount0_is_floor_witness :
  calc_amount0 5 0 7 = Raise (ZeroDivisionError "integer division or modulo by zero") /\
  exists out, calc_amount0 (2 ^ 96) (2 ^ 96) (2 ^ 97) = Ok out /\ 0 <= out.
Proof.
  destruct (amount0_is_floor 5 0 7) as (_ & _ & Hz & _).
  destruct (amount0_is_floor (2 ^ 96) (2 ^ 96) (2 ^ 97)) as (_ & _ & _ & Hok & Hpos).
  split; [apply Hz; left; reflexivity |].
  destruct Hok as [out Hout]; [lia | lia |].
  exists out. split; [exact Hout |].
  apply (Hpos ltac:(lia) ltac:(lia) out Hout). lia.
Defined.

End Amounts.

(** ** The swap of the first-swap page *)

Section SwapFacts.
Import first_swap.

(** What a swap that returns has computed. *)
Lemma swap_ok (L cur a next out : Z) :
  swap_token1_in_for_token0_out_single_range L cur a = Ok (next, out) ->
  0 < L /\ 0 < cur /\ 0 <= a /\
  next = cur + a * Q96 / L /\
  out = L * (next - cur) * Q96 / (next * cur).
Proof.
  unfold swap_token1_in_for_token0_out_single_range.
  destruct (Z.leb_spec L 0) as [| HL]; [discriminate |].
  destruct (Z.leb_spec cur 0) as [| Hc]; [discriminate |].
  destruct (Z.ltb_spec a 0) as [| Ha]; [discriminate |].
  cbv zeta. unfold calc_amount0.
  assert (Hd : 0 <= a * Q96 / L) by (apply Z.div_pos; [pose proof Q96_pos; nia | lia]).
  destruct (Z.ltb_spec (cur + a * Q96 / L) cur); [lia |].
  destruct (Z.eqb_spec ((cur + a * Q96 / L) * cur) 0); [discriminate |].
  cbn [mbind result_bind]. intros [= <- <-]. repeat split; lia.
Qed.

(** A swap never pays more than the input is worth at the price it starts
    from: the price does not fall, the output is not negative and
    [amount0_out * P <= amount1_in] for the starting price
    [P = (sqrtP / 2^96)^2]; nothing in gives nothing out and leaves the
    price where it was. *)
Theorem swap_never_beats_spot (L cur a next out : Z) :
  swap_token1_in_for_token0_out_single_range L cur a = Ok (next, out) ->
  cur <= next /\ 0 <= out /\
  out * (cur * cur) <= a * (Q96 * Q96) /\
  (a = 0 -> next = cur /\ out = 0).
Proof.
  intros Hrun. apply swap_ok in Hrun as (HL & Hc & Ha & Hn & Ho).
  pose proof Q96_pos as HQ.
  assert (Hd : 0 <= a * Q96 / L) by (apply Z.div_pos; [nia | lia]).
  assert (HdL : L * (a * Q96 / L) <= a * Q96) by (apply Z.mul_div_le; lia).
  assert (Hnc : 0 < next * cur) by nia.
  assert (Hnum : 0 <= L * (next - cur) * Q96) by nia.
  pose proof (floor_spec_pos (L * (next - cur) * Q96) (next * cur) Hnc) as [Hlo _].
  rewrite <- Ho in Hlo.
  assert (Hout : 0 <= out) by (rewrite Ho; apply Z.div_pos; lia).
  split; [lia |]. split; [exact Hout |]. split.
  - assert (H1 : out * (cur * cur) <= out * (next * cur)) by nia.
    assert (H2 : L * (next - cur) * Q96 <= a * Q96 * Q96).
    { replace (next - cur) with (a * Q96 / L) by lia. nia. }
    lia.
  - intros Hz. assert (Hnext : next = cur).
    { rewrite Hn, Hz, Z.mul_0_l, Z.div_0_l by lia. lia. }
    split; [exact Hnext |].
    assert (Hz0 : L * (next - cur) * Q96 = 0) by (rewrite Hnext; ring).
    nia.
Qed.

Lemma swap_never_beats_spot_witness :
  swap_token1_in_for_token0_out_single_range (10 ^ 24) (2 ^ 96) 42000000
    = Ok (79228162514264340921126775935, 41999999) /\
  2 ^ 96 <= 79228162514264340921126775935 /\ 0 <= 41999999 /\
  41999999 * (2 ^ 96 * 2 ^ 96) <= 42000000 * (Q96 * Q96).
Proof.
  assert (Hrun : swap_token1_in_for_token0_out_single_range (10 ^ 24) (2 ^ 96) 42000000
                 = Ok (79228162514264340921126775935, 41999999))
    by (vm_compute; reflexivity).
  split; [exact Hrun |].
  destruct (swap_never_beats_spot (10 ^ 24) (2 ^ 96) 42000000 _ _ Hrun) as (H1 & H2 & H3 & _).
  repeat split; assumption.
Defined.

(** A larger input moves the price at least as far and pays at least as
    much. *)
Theorem swap_monotone (L cur a1 a2 next1 out1 next2 out2 : Z) :
  a1 <= a2 ->
  swap_token1_in_for_token0_out_single_range L cur a1 = Ok (next1, out1) ->
  swap_token1_in_for_token0_out_single_range L cur a2 = Ok (next2, out2) ->
  next1 <= next2 /\ out1 <= out2.
Proof.
  intros Hle H1 H2.
  apply swap_ok in H1 as (HL & Hc & Ha1 & Hn1 & Ho1).
  apply swap_ok in H2 as (_ & _ & Ha2 & Hn2 & Ho2).
  pose proof Q96_pos as HQ.
  assert (Hd1 : 0 <= a1 * Q96 / L) by (apply Z.div_pos; [nia | lia]).
  assert (Hd : a1 * Q96 / L <= a2 * Q96 / L) by (apply Z.div_le_mono; [lia | nia]).
  split; [lia |].
  rewrite Ho1, Ho2. apply div_le_cross; try nia.
  set (d1 := next1 - cur). set (d2 := next2 - cur).
  assert (Hd12 : 0 <= d1 <= d2) by (unfold d1, d2; lia).
  replace next1 with (cur + d1) by (unfold d1; lia).
  replace next2 with (cur + d2) by (unfold d2; lia).
  assert (Hx : d1 * (cur + d2) <= d2 * (cur + d1)) by nia.
  assert (HLQ : 0 <= L * Q96 * cur) by nia.
  replace (L * d1 * Q96 * ((cur + d2) * cur)) with (L * Q96 * cur * (d1 * (cur + d2))) by ring.
  replace (L * d2 * Q96 * ((cur + d1) * cur)) with (L * Q96 * cur * (d2 * (cur + d1))) by ring.
  apply Z.mul_le_mono_nonneg_l; assumption.
Qed.

Lemma swap_monotone_witness :
  swap_token1_in_for_token0_out_single_range (10 ^ 24) (2 ^ 96) 42
    = Ok (79228162514264337593547277918, 41) /\
  swap_token1_in_for_token0_out_single_range (10 ^ 24) (2 ^ 96) 42000000
    = Ok (79228162514264340921126775935, 41999999) /\
  79228162514264337593547277918 <= 79228162514264340921126775935 /\ 41 <= 41999999.
Proof.
  assert (H1 : swap_token1_in_for_token0_out_single_range (10 ^ 24) (2 ^ 96) 42
               = Ok (79228162514264337593547277918, 41)) by (vm_compute; reflexivity).
  assert (H2 : swap_token1_in_for_token0_out_single_range (10 ^ 24) (2 ^ 96) 42000000
               = Ok (79228162514264340921126775935, 41999999)) by (vm_compute; reflexivity).
  assert (Hle : 42 <= 42000000) by lia.
  split; [exact H1 |]. split; [exact H2 |].
  exact (swap_monotone (10 ^ 24) (2 ^ 96) 42 42000000 _ _ _ _ Hle H1 H2).
Defined.

(** Splitting an input into two swaps gains nothing: the price ends no
    higher, and the two outputs together are no more, than with the whole
    input in one swap. *)
Theorem swap_split_gains_nothing (L cur a1 a2 n1 o1 n2 o2 n o : Z) :
  swap_token1_in_for_token0_out_single_range L cur a1 = Ok (n1, o1) ->
  swap_token1_in_for_token0_out_single_range L n1 a2 = Ok (n2, o2) ->
  swap_token1_in_for_token0_out_single_range L cur (a1 + a2) = Ok (n, o) ->
  n2 <= n /\ o1 + o2 <= o.
Proof.
  intros H1 H2 H.
  apply swap_ok in H1 as (HL & Hc & Ha1 & Hn1 & Ho1).
  apply swap_ok in H2 as (_ & _ & Ha2 & Hn2 & Ho2).
  apply swap_ok in H as (_ & _ & _ & Hn & Ho).
  pose proof Q96_pos as HQ.
  assert (Hd1 : 0 <= a1 * Q96 / L) by (apply Z.div_pos; [nia | lia]).
  assert (Hd2 : 0 <= a2 * Q96 / L) by (apply Z.div_pos; [nia | lia]).
  assert (Hsum : a1 * Q96 / L + a2 * Q96 / L <= (a1 + a2) * Q96 / L).
  { replace ((a1 + a2) * Q96) with (a1 * Q96 + a2 * Q96) by ring.
    apply floor_add_le. exact HL. }
  assert (Hn2n : n2 <= n) by lia.
  split; [exact Hn2n |].
  set (X := L * Q96) in *. assert (HX : 0 < X) by (unfold X; nia).
  assert (E1 : o1 * (n1 * cur) <= X * (n1 - cur)).
  { rewrite Ho1. pose proof (floor_spec_pos (L * (n1 - cur) * Q96) (n1 * cur) ltac:(nia)).
    unfold X. lia. }
  assert (E2 : o2 * (n2 * n1) <= X * (n2 - n1)).
  { rewrite Ho2. pose proof (floor_spec_pos (L * (n2 - n1) * Q96) (n2 * n1) ltac:(nia)).
    unfold X. lia. }
  assert (P1 : 0 <= o1) by (rewrite Ho1; apply Z.div_pos; nia).
  assert (P2 : 0 <= o2) by (rewrite Ho2; apply Z.div_pos; nia).
  (* both steps at the common denominator [cur * n1 * n2] *)
  assert (E12 : (o1 + o2) * (cur * n2) * n1 <= X * (n2 - cur) * n1).
  { assert (F1 : o1 * (n1 * cur) * n2 <= X * (n1 - cur) * n2)
      by (apply Z.mul_le_mono_nonneg_r; lia).
    assert (F2 : o2 * (n2 * n1) * cur <= X * (n2 - n1) * cur)
      by (apply Z.mul_le_mono_nonneg_r; lia).
    nia. }
  assert (E3 : (o1 + o2) * (cur * n2) <= X * (n2 - cur)).
  { apply Z.mul_le_mono_pos_r with (p := n1); lia. }
  (* from the price [n2] up to the price [n] *)
  assert (E4 : (o1 + o2) * (cur * n) * n2 <= X * (n - cur) * n2).
  { assert (G1 : (o1 + o2) * (cur * n2) * n <= X * (n2 - cur) * n)
      by (apply Z.mul_le_mono_nonneg_r; lia).
    assert (G2 : X * ((n2 - cur) * n) <= X * ((n - cur) * n2))
      by (apply Z.mul_le_mono_nonneg_l; nia).
    nia. }
  assert (E5 : (o1 + o2) * (cur * n) <= X * (n - cur)).
  { apply Z.mul_le_mono_pos_r with (p := n2); lia. }
  rewrite Ho. apply Z.div_le_lower_bound; [nia |].
  unfold X in E5. lia.
Qed.

Lemma swap_split_gains_nothing_witness :
  swap_token1_in_for_token0_out_single_range 7 (2 ^ 96) 3
    = Ok (113183089306091910847919929051, 2) /\
  swap_token1_in_for_token0_out_single_range 7 113183089306091910847919929051 4
    = Ok (158456325028528675187087900671, 1) /\
  swap_token1_in_for_token0_out_single_range 7 (2 ^ 96) (3 + 4)
    = Ok (158456325028528675187087900672, 3) /\
  158456325028528675187087900671 <= 158456325028528675187087900672 /\ 2 + 1 <= 3.
Proof.
  assert (H1 : swap_token1_in_for_token0_out_single_range 7 (2 ^ 96) 3
               = Ok (113183089306091910847919929051, 2)) by (vm_compute; reflexivity).
  assert (H2 : swap_token1_in_for_token0_out_single_range 7 113183089306091910847919929051 4
               = Ok (158456325028528675187087900671, 1)) by (vm_compute; reflexivity).
  assert (H3 : swap_token1_in_for_token0_out_single_range 7 (2 ^ 96) (3 + 4)
               = Ok (158456325028528675187087900672, 3)) by (vm_compute; reflexivity).
  split; [exact H1 |]. split; [exact H2 |]. split; [exact H3 |].
  exact (swap_split_gains_nothing 7 (2 ^ 96) 3 4 _ _ _ _ _ _ H1 H2 H3).
Defined.

End SwapFacts.

(** ** The clamp block of the first-swap page *)

Section ClampBlock.
Import first_swap.

Lemma calc_amount0_eq (L x y : Z) :
  calc_amount0 L x y =
    if x * y =? 0 then Raise (ZeroDivisionError "integer division or modulo by zero")
    else Ok (L * Z.abs (x - y) * Q96 / (x * y)).
Proof.
  unfold calc_amount0. destruct (Z.ltb_spec x y).
  - replace (y * x) with (x * y) by lia.
    destruct (x * y =? 0); [reflexivity |]. do 4 f_equal. lia.
  - destruct (x * y =? 0); [reflexivity |]. do 4 f_equal. lia.
Qed.

Ltac raised H := unfold Raise in H |- *; injection H as ->; reflexivity.

(** The block between the swap and the display, on valid inputs.  After
    the clamp it computes the price and the tick of the new square-root
    price (lines 212-213), outside the [try], and these can raise: the block
    raises what they raise, and returns when they return.  Without the
    clamp it then reports the result of the swap function and the whole
    input as used.  With the clamp it first recomputes the output, also
    outside the [try], and that division raises exactly when the upper
    bound of the range is the square-root price 0; otherwise the new price
    is the clamped one, between the bounds whenever these are ordered.  A
    square-root price whose price overflows to infinity stops the block
    with an [OverflowError], whatever finite value [log(1.0001)] has. *)
Theorem clamp_block_outcome (libm_log : F64.float -> F64.float) (L cur a lo up : Z) :
  0 < L -> 0 < cur -> 0 <= a ->
  let tick_of := fun n => p ← sqrtp_x96_to_price n; price_to_tick libm_log p in
  let n0 := cur + a * Q96 / L in
  let n1 := if n0 <? lo then lo else n0 in
  let n := if n1 >? up then up else n1 in
  (forall e, tick_of n0 = Raise e -> perform_swap libm_log L cur a lo up false = Raise e) /\
  (forall t, tick_of n0 = Ok t ->
     exists r,
       perform_swap libm_log L cur a lo up false = Ok r /\
       res_clamped r = false /\ res_amount1_used_raw r = a /\ res_tick_next r = t /\
       swap_token1_in_for_token0_out_single_range L cur a
         = Ok (res_sqrtp_next_x96 r, res_amount0_out_raw r)) /\
  (up = 0 ->
     perform_swap libm_log L cur a lo up true
       = Raise (ZeroDivisionError "integer division or modulo by zero")) /\
  (up <> 0 ->
     (forall e, tick_of n = Raise e -> perform_swap libm_log L cur a lo up true = Raise e) /\
     (forall t, tick_of n = Ok t ->
        exists r,
          perform_swap libm_log L cur a lo up true = Ok r /\
          res_sqrtp_next_x96 r = n /\ res_tick_next r = t /\
          (lo <= up -> lo <= res_sqrtp_next_x96 r <= up))) /\
  (forall x sd md ed,
     libm_log F64.f1_0001 = S754_finite sd md ed ->
     sqrtp_x96_to_price x = Ok (S754_infinity false) ->
     tick_of x = Raise (OverflowError "cannot convert float infinity to integer")).
Proof.
  intros HL Hc Ha tick_of n0 n1 n.
  destruct (swap_valid L cur a HL Hc Ha) as (out & Hout & Hswap). fold n0 in Hout, Hswap.
  assert (Hd : 0 <= a * Q96 / L) by (apply Z.div_pos; [pose proof Q96_pos; nia | lia]).
  assert (Hn0 : 0 < n0) by (unfold n0; lia).
  pose proof (perform_swap_eq libm_log L cur a lo up false HL Hc Ha) as Hoff.
  pose proof (perform_swap_eq libm_log L cur a lo up true HL Hc Ha) as Hon.
  cbv zeta in Hoff, Hon. cbn [andb] in Hoff, Hon.
  fold n0 in Hoff, Hon. fold n1 in Hon. fold n in Hon.
  rewrite Hout in Hoff.
  split; [| split; [| split; [| split]]].
  - intros e He. rewrite Hoff. unfold tick_of in He.
    cbv beta iota delta [mbind result_bind Ok] in He |- *.
    destruct (sqrtp_x96_to_price n0) as [e1 | p]; [raised He |].
    destruct (price_to_tick libm_log p) as [e2 | t]; [raised He | discriminate He].
  - intros t Ht. rewrite Hoff. unfold tick_of in Ht.
    cbv beta iota delta [mbind result_bind Ok] in Ht |- *.
    destruct (sqrtp_x96_to_price n0) as [e1 | p]; [discriminate Ht |].
    destruct (price_to_tick libm_log p) as [e2 | t']; [discriminate Ht |].
    injection Ht as ->. eexists. split; [reflexivity |]. cbn. repeat split. exact Hswap.
  - intros Hup. rewrite Hon.
    assert (Hn : n = 0).
    { unfold n, n1. rewrite Hup. destruct (Z.ltb_spec n0 lo);
        match goal with |- context [?x >? 0] => destruct (Z.gtb_spec x 0) end; lia. }
    rewrite Hn, calc_amount0_eq. reflexivity.
  - intros Hup.
    assert (Hn : n <> 0 /\ (lo <= up -> lo <= n <= up)).
    { unfold n, n1. destruct (Z.ltb_spec n0 lo);
        match goal with |- context [?x >? up] => destruct (Z.gtb_spec x up) end; lia. }
    destruct Hn as [Hnz Hin].
    rewrite Hon, calc_amount0_eq.
    destruct (Z.eqb_spec (n * cur) 0) as [Hz | _]; [nia |].
    split.
    + intros e He. unfold tick_of in He.
      cbv beta iota delta [mbind result_bind Ok] in He |- *.
      destruct (sqrtp_x96_to_price n) as [e1 | p]; [raised He |].
      destruct (price_to_tick libm_log p) as [e2 | t]; [raised He | discriminate He].
    + intros t Ht. unfold tick_of in Ht.
      cbv beta iota delta [mbind result_bind Ok] in Ht |- *.
      destruct (sqrtp_x96_to_price n) as [e1 | p]; [discriminate Ht |].
      destruct (price_to_tick libm_log p) as [e2 | t']; [discriminate Ht |].
      injection Ht as ->. eexists. split; [reflexivity |]. cbn. auto.
  - intros x sd md ed Hlog Hx. unfold tick_of. rewrite Hx.
    cbv beta iota delta [mbind result_bind Ok]. unfold price_to_tick.
    rewrite ex_f1_0001 in *.
    cbv beta iota delta [F64.leb SFleb SFcompare F64.zero F64.math_log mbind result_bind Ok].
    rewrite Hlog. destruct sd; reflexivity.
Qed.

(** Liquidity 1 at the price [2^96] and 5 units offered.  With the range
    [[0, 0]] the recomputation divides by zero; with the range
    [[2^95, 2^97]] the block returns at the upper bound, tick 13863.
    Liquidity [10^24] and [10^306] units offered, without the clamp: the
    price of the new square-root price is infinite and the block stops. *)
Lemma clamp_block_outcome_witness :
  perform_swap demo.libm_log 1 (2 ^ 96) 5 0 0 true
    = Raise (ZeroDivisionError "integer division or modulo by zero") /\
  (exists r,
     perform_swap demo.libm_log 1 (2 ^ 96) 5 (2 ^ 95) (2 ^ 97) true = Ok r /\
     res_sqrtp_next_x96 r = 2 ^ 97 /\ res_tick_next r = 13863 /\
     2 ^ 95 <= res_sqrtp_next_x96 r <= 2 ^ 97) /\
  perform_swap demo.libm_log (10 ^ 24) (2 ^ 96) (10 ^ 306) 0 (2 ^ 97) false
    = Raise (OverflowError "cannot convert float infinity to integer").
Proof.
  assert (H1L : 0 < 1) by lia. assert (Hcur : 0 < 2 ^ 96) by lia.
  assert (H5 : 0 <= 5) by lia.
  destruct (clamp_block_outcome demo.libm_log 1 (2 ^ 96) 5 0 0 H1L Hcur H5)
    as (_ & _ & Hz & _).
  destruct (clamp_block_outcome demo.libm_log 1 (2 ^ 96) 5 (2 ^ 95) (2 ^ 97) H1L Hcur H5)
    as (_ & _ & _ & Hok & _).
  assert (HL : 0 < 10 ^ 24) by lia. assert (Ha : 0 <= 10 ^ 306) by lia.
  destruct (clamp_block_outcome demo.libm_log (10 ^ 24) (2 ^ 96) (10 ^ 306) 0 (2 ^ 97)
              HL Hcur Ha) as (Hraise & _ & _ & _ & Hinf).
  split; [apply Hz; reflexivity |]. split.
  - destruct Hok as [_ Hok]; [lia |].
    destruct (Hok 13863) as (r & Hr & Hn & Ht & Hin); [vm_compute; reflexivity |].
    exists r. split; [exact Hr |]. split; [rewrite Hn; vm_compute; reflexivity |].
    split; [exact Ht |]. apply Hin. lia.
  - apply Hraise.
    apply (Hinf _ false 7378328719195348%positive (-66)); [reflexivity |].
    vm_compute. reflexivity.
Defined.

End ClampBlock.

(** * Liquidity and the division of integers *)

(** ** Division of integers *)

Section IntDivision.
Import F64 rounding.

(** What the last step of a rounding returns. *)
Lemma round_finish_cases (s : bool) (m E : Z) :
  emin <= E -> 0 <= m <= 2 ^ 53 ->
  (m = 0 /\ round_finish s m E = S754_zero s) \/
  (exists p e, round_finish s m E = S754_finite s p e) \/
  round_finish s m E = S754_infinity s.
Proof.
  intros HE Hm. rewrite fin_shape by assumption.
  destruct (Z.eqb_spec m 0); [left; auto | right].
  destruct (m =? 2 ^ 53).
  - destruct (E + 1 <=? 971); eauto.
  - destruct (E <=? 971); eauto.
Qed.

Lemma to_int_round_finish (m E : Z) (q : float) :
  emin <= E -> 0 <= m <= 2 ^ 53 ->
  round_finish false m E = q -> (forall s, q <> S754_infinity s) ->
  to_int q = Ok (ifloor m E).
Proof.
  intros HE Hm <- Hinf.
  destruct (round_finish_cases false m E HE Hm) as [[-> H] | [(p & e & H) | H]].
  - rewrite H. cbn. unfold ifloor. destruct (0 <=? E); reflexivity.
  - pose proof (to_int_fin m E) as Ht. rewrite H in *. cbn in Ht |- *.
    rewrite (Ht _ HE Hm eq_refl). reflexivity.
  - destruct (Hinf false H).
Qed.

(** The quotient of two positive integers. *)
Lemma int_truediv_pos (a b : Z) :
  0 < a -> 0 < b ->
  int_truediv a b =
    match round_finish false (fst (div_round a 0 b 0)) (snd (div_round a 0 b 0)) with
    | S754_infinity _ =>
        Raise (OverflowError "integer division result too large for a float")
    | q => Ok q
    end.
Proof.
  intros Ha Hb. unfold int_truediv.
  destruct b as [| pb | pb]; try lia. destruct a as [| pa | pa]; try lia.
  cbn [Z.abs Z.to_pos Z.ltb Z.compare].
  rewrite SFdiv_fin. reflexivity.
Qed.

Lemma int_truediv_ok (a b : Z) (q : float) :
  0 < a -> 0 < b -> int_truediv a b = Ok q ->
  to_int q = Ok (ifloor (fst (div_round a 0 b 0)) (snd (div_round a 0 b 0))).
Proof.
  intros Ha Hb. rewrite int_truediv_pos by assumption.
  destruct (div_round_bounds a 0 b 0 Ha Hb) as (Hm & HE & _).
  intros Hq. eapply to_int_round_finish; [exact HE | exact Hm | |].
  - destruct (round_finish false _ _); try discriminate Hq; injection Hq as <-; reflexivity.
  - intros s ->. destruct (round_finish false _ _); discriminate Hq.
Qed.

End IntDivision.

(** ** Liquidity from the deposited amounts *)

Section Liquidity.
Import F64 rounding uniswapv3.

Lemma Q96_INT_pos : 0 < Q96_INT.
Proof. reflexivity. Qed.

Lemma liquidity1_eq (amount1_wei a b : Z) :
  liquidity1 amount1_wei a b = int_truediv (amount1_wei * Q96_INT) (Z.abs (a - b)).
Proof.
  unfold liquidity1. destruct (Z.gtb_spec a b); f_equal; lia.
Qed.

(** The book's deposit of 5000 USDC below the price 5000, down to 4545. *)
Example ex_liquidity1_book :
  (l ← liquidity1 (5000 * 10 ^ 18) 5602277097478614198912276234240
         5341294542274603406682713227264;
   to_int l) = Ok 1517882343751509868544.
Proof. vm_compute. reflexivity. Qed.

(** [liquidity1] does not depend on the order of the two prices; two equal
    prices raise a division by zero; no deposit gives no liquidity; and
    over two distinct prices a larger deposit never shows a smaller
    [int(L1)]. *)
Theorem liquidity1_checked (a b : Z) :
  (forall amt, liquidity1 amt a b = liquidity1 amt b a) /\
  (a = b -> forall amt, liquidity1 amt a b = Raise (ZeroDivisionError "division by zero")) /\
  (a <> b -> liquidity1 0 a b = Ok (S754_zero false)) /\
  (a <> b -> forall amt1 amt2 l1 l2,
     0 <= amt1 <= amt2 ->
     liquidity1 amt1 a b = Ok l1 -> liquidity1 amt2 a b = Ok l2 ->
     exists t1 t2, to_int l1 = Ok t1 /\ to_int l2 = Ok t2 /\ 0 <= t1 <= t2).
Proof.
  split; [| split; [| split]].
  - intros amt. rewrite !liquidity1_eq. f_equal. lia.
  - intros -> amt. rewrite liquidity1_eq, Z.sub_diag. reflexivity.
  - intros Hab. rewrite liquidity1_eq. unfold int_truediv.
    destruct (Z.abs (a - b)) eqn:Hd; [exfalso; lia | reflexivity | exfalso; lia].
  - intros Hab amt1 amt2 l1 l2 Hamt. rewrite !liquidity1_eq.
    set (d := Z.abs (a - b)). assert (Hd : 0 < d) by (unfold d; lia).
    pose proof Q96_INT_pos as HQ.
    intros H1 H2.
    assert (Hpos : forall amt, 0 < amt -> 0 < amt * Q96_INT)
      by (intros amt Hp; apply Z.mul_pos_pos; lia).
    assert (Hzero : forall l, int_truediv (0 * Q96_INT) d = Ok l -> l = S754_zero false).
    { intros l. unfold int_truediv. cbn [Z.mul].
      destruct d; [exfalso; lia | | exfalso; lia]. intros [= <-]. reflexivity. }
    assert (Hint : forall amt l,
              0 < amt -> int_truediv (amt * Q96_INT) d = Ok l ->
              to_int l = Ok (ifloor (fst (div_round (amt * Q96_INT) 0 d 0))
                                    (snd (div_round (amt * Q96_INT) 0 d 0))) /\
              0 <= ifloor (fst (div_round (amt * Q96_INT) 0 d 0))
                          (snd (div_round (amt * Q96_INT) 0 d 0))).
    { intros amt l Hp Hl. split; [apply int_truediv_ok; [apply Hpos, Hp | exact Hd | exact Hl] |].
      apply ifloor_nonneg.
      apply (div_round_bounds (amt * Q96_INT) 0 d 0); [apply Hpos, Hp | exact Hd]. }
    destruct (Z.eq_dec amt1 0) as [-> | Hnz1].
    + rewrite (Hzero l1 H1). exists 0.
      destruct (Z.eq_dec amt2 0) as [-> | Hnz2].
      * rewrite (Hzero l2 H2). exists 0. repeat split; lia.
      * destruct (Hint amt2 l2 ltac:(lia) H2) as [Ht2 Hp2].
        eexists. split; [reflexivity |]. split; [exact Ht2 | lia].
    + destruct (Hint amt1 l1 ltac:(lia) H1) as [Ht1 Hp1].
      destruct (Hint amt2 l2 ltac:(lia) H2) as [Ht2 Hp2].
      eexists _, _. split; [exact Ht1 |]. split; [exact Ht2 |]. split; [exact Hp1 |].
      apply ifloor_mono. apply div_round_mono; [apply Hpos; lia | apply Hpos; lia | exact Hd |].
      apply vle_same_exp. apply Z.mul_le_mono_nonneg_r; lia.
Qed.

Lemma liquidity1_checked_witness :
  liquidity1 5 7 7 = Raise (ZeroDivisionError "division by zero") /\
  exists t1 t2,
    to_int (S754_finite false 4743382324223468 6) = Ok t1 /\
    to_int (S754_finite false 5790261626249351 18) = Ok t2 /\
    0 <= t1 <= t2.
Proof.
  destruct (liquidity1_checked 7 7) as (_ & Hz & _).
  destruct (liquidity1_checked 5602277097478614198912276234240
              5341294542274603406682713227264) as (_ & _ & _ & Hm).
  split; [apply Hz; reflexivity |].
  assert (H1 : liquidity1 (10 ^ 18) 5602277097478614198912276234240
                 5341294542274603406682713227264
               = Ok (S754_finite false 4743382324223468 6)) by (vm_compute; reflexivity).
  assert (H2 : liquidity1 (5000 * 10 ^ 18) 5602277097478614198912276234240
                 5341294542274603406682713227264
               = Ok (S754_finite false 5790261626249351 18)) by (vm_compute; reflexivity).
  assert (Hne : 5602277097478614198912276234240 <> 5341294542274603406682713227264)
    by discriminate.
  assert (Hamt : 0 <= 10 ^ 18 <= 5000 * 10 ^ 18) by (vm_compute; split; discriminate).
  exact (Hm Hne (10 ^ 18) (5000 * 10 ^ 18) _ _ Hamt H1 H2).
Defined.

End Liquidity.

Section Liquidity0.
Import F64 rounding uniswapv3.

(** Rescaling the mantissa does not change the number. *)
Lemma vle_scale_l (p e E x ex : Z) :
  E <= e -> (vle (p * 2 ^ (e - E)) E x ex <-> vle p e x ex).
Proof.
  intros HE. set (c := Z.min E ex).
  rewrite (vle_at c (p * 2 ^ (e - E)) E x ex) by lia.
  rewrite (vle_at c p e x ex) by lia.
  replace (e - c) with ((e - E) + (E - c)) by lia.
  rewrite pow2_add by lia. rewrite Z.mul_assoc. reflexivity.
Qed.

Lemma vle_scale_r (p e E x ex : Z) :
  E <= e -> (vle x ex (p * 2 ^ (e - E)) E <-> vle x ex p e).
Proof.
  intros HE. set (c := Z.min E ex).
  rewrite (vle_at c x ex (p * 2 ^ (e - E)) E) by lia.
  rewrite (vle_at c x ex p e) by lia.
  replace (e - c) with ((e - E) + (E - c)) by lia.
  rewrite pow2_add by lia. rewrite Z.mul_assoc. reflexivity.
Qed.

(** The double the last step of a rounding returns stands for [m * 2^E]. *)
Lemma round_finish_value (m E : Z) (p : positive) (e : Z) :
  emin <= E -> 0 <= m <= 2 ^ 53 ->
  round_finish false m E = S754_finite false p e ->
  E <= e /\ Z.pos p * 2 ^ (e - E) = m.
Proof.
  intros HE Hm. rewrite fin_shape by assumption.
  destruct (Z.eqb_spec m 0); [discriminate |].
  destruct (Z.eqb_spec m (2 ^ 53)) as [-> |].
  - destruct (E + 1 <=? 971); [| discriminate]. intros [= <- <-].
    split; [lia |]. replace (E + 1 - E) with 1 by lia. reflexivity.
  - destruct (E <=? 971); [| discriminate]. intros [= <- <-].
    split; [lia |]. rewrite Z.sub_diag, Z2Pos.id by lia. cbn. lia.
Qed.

Lemma liquidity0_eq (amt a b : Z) :
  liquidity0 amt a b =
    (x ← int_truediv (amt * (Z.min a b * Z.max a b)) Q96_INT;
     d ← of_int (Z.max a b - Z.min a b);
     truediv x d).
Proof.
  unfold liquidity0. destruct (Z.gtb_spec a b).
  - rewrite Z.min_r, Z.max_l by lia. reflexivity.
  - rewrite Z.min_l, Z.max_r by lia. reflexivity.
Qed.

(** The quotient of a rounded quotient by a positive double, truncated. *)
Lemma to_int_div_round_finish (m E : Z) (db : positive) (ed t : Z) :
  emin <= E -> 0 <= m <= 2 ^ 53 ->
  to_int (div (round_finish false m E) (S754_finite false db ed)) = Ok t ->
  (m = 0 /\ t = 0) \/
  (exists p e, E <= e /\ Z.pos p * 2 ^ (e - E) = m /\
     t = ifloor (fst (div_round (Z.pos p) e (Z.pos db) ed))
                (snd (div_round (Z.pos p) e (Z.pos db) ed))).
Proof.
  intros HE Hm.
  destruct (round_finish_cases false m E HE Hm) as [[-> H] | [(p & e & H) | H]];
    rewrite H.
  - cbn. intros [= <-]. left. auto.
  - destruct (round_finish_value m E p e HE Hm H) as [Hle Hval].
    rewrite SFdiv_fin.
    destruct (div_round_bounds (Z.pos p) e (Z.pos db) ed) as (Hm' & HE' & _); [lia | lia |].
    intros Ht. apply to_int_fin in Ht; [| exact HE' | exact Hm']. subst t.
    right. exists p, e. auto.
  - cbn. discriminate.
Qed.

Lemma int_truediv_zero (b : Z) : 0 < b -> int_truediv 0 b = Ok (S754_zero false).
Proof. intros Hb. unfold int_truediv. destruct b; [lia | reflexivity | lia]. Qed.

(** [float(n)] of a positive integer. *)
Lemma of_int_shape (n : Z) (D : float) :
  0 < n -> of_int n = Ok D ->
  D = S754_zero false \/ (exists db ed, D = S754_finite false db ed) \/ D = S754_nan.
Proof.
  intros Hn. unfold of_int.
  destruct n as [| pd | pd]; [lia | | lia].
  cbn [binary_normalize]. unfold binary_round.
  destruct (shl_align pd 0 _) as [mz ez].
  destruct (bra_shape false (Z.pos mz) ez loc_Exact)
    as [H | [(m' & e' & H) | [H | H]]]; rewrite H; try discriminate;
    intros [= <-]; eauto.
Qed.

Lemma truediv_finite (x l : float) (sd : bool) (db : positive) (ed : Z) :
  truediv x (S754_finite sd db ed) = Ok l -> l = div x (S754_finite sd db ed).
Proof. unfold truediv. intros [= <-]. reflexivity. Qed.

Lemma truediv_nan (x l : float) : truediv x S754_nan = Ok l -> l = S754_nan.
Proof.
  unfold truediv. intros [= <-].
  destruct x as [[] | [] | | [] ? ?]; reflexivity.
Qed.

Lemma zero_quotient (D l : float) (t : Z) :
  (x ← Ok (S754_zero false); truediv x D) = Ok l -> to_int l = Ok t -> t = 0.
Proof.
  cbv beta iota delta [mbind result_bind Ok]. unfold truediv.
  destruct D as [sd | sd | | sd db ed]; try discriminate; intros [= <-];
    cbv beta iota delta [div SFdiv to_int]; try discriminate; intros [= <-]; reflexivity.
Qed.

(** One evaluation of [liquidity0] over the prices [lo < hi]. *)
Lemma liquidity0_eval (amt lo hi : Z) (D l : float) (t : Z) :
  0 < amt -> 0 < lo * hi ->
  (x ← int_truediv (amt * (lo * hi)) Q96_INT;
   truediv x D) = Ok l ->
  (D = S754_zero false \/ (exists db ed, D = S754_finite false db ed) \/ D = S754_nan) ->
  to_int l = Ok t ->
  let m := fst (div_round (amt * (lo * hi)) 0 Q96_INT 0) in
  let E := snd (div_round (amt * (lo * hi)) 0 Q96_INT 0) in
  exists db ed,
    D = S754_finite false db ed /\
    ((m = 0 /\ t = 0) \/
     (exists p e, E <= e /\ Z.pos p * 2 ^ (e - E) = m /\
        t = ifloor (fst (div_round (Z.pos p) e (Z.pos db) ed))
                   (snd (div_round (Z.pos p) e (Z.pos db) ed)))).
Proof.
  intros Hamt Hprod Hl HD Ht m E.
  assert (HN : 0 < amt * (lo * hi)) by nia.
  rewrite int_truediv_pos in Hl by (assumption || apply Q96_INT_pos).
  destruct (div_round_bounds (amt * (lo * hi)) 0 Q96_INT 0 HN Q96_INT_pos) as (Hm & HE & _).
  fold m in Hl, Hm. fold E in Hl, HE.
  assert (Hl' : truediv (round_finish false m E) D = Ok l).
  { destruct (round_finish false m E); cbn [mbind result_bind] in Hl;
      try discriminate Hl; exact Hl. }
  destruct HD as [-> | [(db & ed & ->) | ->]].
  - discriminate Hl'.
  - exists db, ed. split; [reflexivity |].
    apply truediv_finite in Hl'. rewrite Hl' in Ht.
    exact (to_int_div_round_finish m E db ed t HE Hm Ht).
  - apply truediv_nan in Hl'. rewrite Hl' in Ht. discriminate Ht.
Qed.

(** The book's deposit of one ETH above the price 5000, up to 5500. *)
Example ex_liquidity0_book :
  (l ← liquidity0 (10 ^ 18) 5602277097478614198912276234240
         5875717789736564987741329162240;
   to_int l) = Ok 1519437308014769733632.
Proof. vm_compute. reflexivity. Qed.

(** [liquidity0] does not depend on the order of the two prices, and never
    returns on two equal prices: the second division is by zero.  Over two
    distinct positive prices a larger deposit never shows a smaller
    [int(L0)]. *)
Theorem liquidity0_checked (a b : Z) :
  (forall amt, liquidity0 amt a b = liquidity0 amt b a) /\
  (a = b -> forall amt,
     (forall x, int_truediv (amt * (a * a)) Q96_INT = Ok x ->
        liquidity0 amt a b = Raise (ZeroDivisionError "float division by zero")) /\
     (forall l, liquidity0 amt a b <> Ok l)) /\
  (0 < a -> 0 < b -> a <> b -> forall amt1 amt2 l1 l2 t1 t2,
     0 <= amt1 <= amt2 ->
     liquidity0 amt1 a b = Ok l1 -> liquidity0 amt2 a b = Ok l2 ->
     to_int l1 = Ok t1 -> to_int l2 = Ok t2 ->
     0 <= t1 <= t2).
Proof.
  split; [| split].
  - intros amt. rewrite !liquidity0_eq.
    rewrite (Z.min_comm b a), (Z.max_comm b a). reflexivity.
  - intros -> amt.
    assert (Heq : liquidity0 amt b b =
                    (x ← int_truediv (amt * (b * b)) Q96_INT;
                     Raise (ZeroDivisionError "float division by zero"))).
    { rewrite liquidity0_eq, Z.min_id, Z.max_id, Z.sub_diag. reflexivity. }
    rewrite Heq. split.
    + intros x ->. reflexivity.
    + intros l. destruct (int_truediv _ _); discriminate.
  - intros Ha Hb Hab amt1 amt2 l1 l2 t1 t2 Hamt. rewrite !liquidity0_eq.
    set (lo := Z.min a b). set (hi := Z.max a b).
    assert (Hlo : 0 < lo) by (unfold lo; lia).
    assert (Hhi : lo < hi) by (unfold lo, hi; lia).
    assert (Hprod : 0 < lo * hi) by nia.
    pose proof Q96_INT_pos as HQ.
    destruct (of_int (hi - lo)) as [e | D] eqn:HD;
      [destruct (int_truediv _ _); discriminate |].
    pose proof (of_int_shape (hi - lo) D ltac:(lia) HD) as HDs.
    assert (Hbind : forall amt,
              (x ← int_truediv (amt * (lo * hi)) Q96_INT; d ← Ok D; truediv x d)
              = (x ← int_truediv (amt * (lo * hi)) Q96_INT; truediv x D)).
    { intros amt. destruct (int_truediv _ _); reflexivity. }
    rewrite !Hbind. intros H1 H2 Ht1 Ht2.
    assert (Hp2 : 0 <= t2).
    { destruct (Z.eq_dec amt2 0) as [-> | Hnz].
      - rewrite Z.mul_0_l, int_truediv_zero in H2 by exact HQ.
        rewrite (zero_quotient D l2 t2 H2 Ht2). lia.
      - destruct (liquidity0_eval amt2 lo hi D l2 t2 ltac:(lia) Hprod H2 HDs Ht2)
          as (db & ed & _ & [[_ ->] | (p & e & _ & _ & ->)]); [lia |].
        apply ifloor_nonneg.
        apply (div_round_bounds (Z.pos p) e (Z.pos db) ed); lia. }
    destruct (Z.eq_dec amt1 0) as [-> | Hnz1].
    { rewrite Z.mul_0_l, int_truediv_zero in H1 by exact HQ.
      rewrite (zero_quotient D l1 t1 H1 Ht1). lia. }
    assert (HN1 : 0 < amt1 * (lo * hi)) by nia.
    assert (HN2 : 0 < amt2 * (lo * hi)) by nia.
    pose proof (div_round_mono (amt1 * (lo * hi)) 0 (amt2 * (lo * hi)) 0 Q96_INT 0
                  HN1 HN2 HQ) as Hmono.
    assert (Hv : vle (amt1 * (lo * hi)) 0 (amt2 * (lo * hi)) 0)
      by (apply vle_same_exp; nia).
    specialize (Hmono Hv).
    destruct (liquidity0_eval amt1 lo hi D l1 t1 ltac:(lia) Hprod H1 HDs Ht1)
      as (db & ed & HDeq & [[_ ->] | (p1 & e1 & Hle1 & Hval1 & ->)]); [lia |].
    destruct (liquidity0_eval amt2 lo hi D l2 t2 ltac:(lia) Hprod H2 HDs Ht2)
      as (db' & ed' & HDeq' & [[Hm2 _] | (p2 & e2 & Hle2 & Hval2 & ->)]).
    + (* the larger quotient cannot round to zero *)
      exfalso. rewrite Hm2, <- Hval1 in Hmono.
      apply vle_scale_l in Hmono; [| exact Hle1].
      set (E2 := snd (div_round (amt2 * (lo * hi)) 0 Q96_INT 0)) in *.
      rewrite (vle_at (Z.min e1 E2)) in Hmono by lia.
      rewrite Z.mul_0_l in Hmono.
      assert (Hpp : 0 < Z.pos p1 * 2 ^ (e1 - Z.min e1 E2))
        by (apply Z.mul_pos_pos; [lia | apply pow2_pos; lia]).
      lia.
    + rewrite HDeq in HDeq'. injection HDeq' as <- <-.
      split.
      * apply ifloor_nonneg. apply (div_round_bounds (Z.pos p1) e1 (Z.pos db) ed); lia.
      * apply ifloor_mono. apply div_round_mono; try lia.
        rewrite <- Hval1, <- Hval2 in Hmono.
        apply vle_scale_l in Hmono; [| exact Hle1].
        apply vle_scale_r in Hmono; [| exact Hle2]. exact Hmono.
Qed.

Lemma liquidity0_checked_witness :
  (forall l, liquidity0 5 7 7 <> Ok l) /\
  forall t1 t2,
    to_int (S754_finite false 6372981978755580 (-22)) = Ok t1 ->
    to_int (S754_finite false 5796193344172553 18) = Ok t2 ->
    0 <= t1 <= t2.
Proof.
  destruct (liquidity0_checked 7 7) as (_ & Hz & _).
  destruct (liquidity0_checked 5602277097478614198912276234240
              5875717789736564987741329162240) as (_ & _ & Hm).
  split; [apply (Hz eq_refl 5) |].
  assert (H1 : liquidity0 (10 ^ 6) 5602277097478614198912276234240
                 5875717789736564987741329162240
               = Ok (S754_finite false 6372981978755580 (-22))) by (vm_compute; reflexivity).
  assert (H2 : liquidity0 (10 ^ 18) 5602277097478614198912276234240
                 5875717789736564987741329162240
               = Ok (S754_finite false 5796193344172553 18)) by (vm_compute; reflexivity).
  assert (Hamt : 0 <= 10 ^ 6 <= 10 ^ 18) by (vm_compute; split; discriminate).
  intros t1 t2.
  apply (Hm eq_refl eq_refl ltac:(discriminate) (10 ^ 6) (10 ^ 18) _ _ t1 t2 Hamt H1 H2).
Defined.

End Liquidity0.

(** * Prices and units *)

Section SqrtDomain.
Import F64 rounding.

(** [int(math.sqrt(P) * 2**96)] over all doubles: the two zeros give 0;
    a negative price or minus infinity is a math domain error; NaN and plus
    infinity fail in [int]; every positive double gives a number between 0
    and [2^609].  The result is never negative, on any of the pages and
    whatever the C library computes for [1.0001 ** tick]. *)
Theorem sqrtp_x96_domain :
  (forall s, first_swap.price_to_sqrtp_x96 (S754_zero s) = Ok 0) /\
  (forall m e, first_swap.price_to_sqrtp_x96 (S754_finite true m e) = Raise MathDomainError) /\
  first_swap.price_to_sqrtp_x96 (S754_infinity true) = Raise MathDomainError /\
  first_swap.price_to_sqrtp_x96 S754_nan
    = Raise (ValueError "cannot convert float NaN to integer") /\
  first_swap.price_to_sqrtp_x96 (S754_infinity false)
    = Raise (OverflowError "cannot convert float infinity to integer") /\
  (forall m e,
     valid_double (S754_finite false m e) ->
     exists s, first_swap.price_to_sqrtp_x96 (S754_finite false m e) = Ok s /\
               0 <= s <= 2 ^ 609) /\
  (forall P s,
     first_swap.price_to_sqrtp_x96 P = Ok s \/ uniswapv3.sqrtPriceX96_float P = Ok s ->
     0 <= s) /\
  (forall float_pow tick s,
     first_swap.tick_to_sqrtp_x96 float_pow tick = Ok s \/
     manager_contract.tick_to_sqrtp_x96 float_pow tick = Ok s ->
     0 <= s).
Proof.
  split; [intros []; reflexivity |].
  split; [reflexivity |]. split; [reflexivity |]. split; [reflexivity |].
  split; [reflexivity |]. split; [| split].
  - intros m e V. unfold valid_double in V. cbn [valid_binary] in V.
    change (first_swap.price_to_sqrtp_x96 (S754_finite false m e))
      with (uniswapv3.sqrtPriceX96_float (S754_finite false m e)).
    rewrite (sqrtPriceX96_float_eq m e V). eexists. split; [reflexivity |].
    destruct (SFsqrt_fin m e V) as [_ Hb]. cbv zeta in Hb.
    destruct (sqrt_exp_facts m e V) as (HE & _). cbv zeta in HE.
    set (E := sqrt_exp (Z.pos m) e) in *.
    set (r := isqrt_near (Z.pos m * 2 ^ (e - 2 * E))) in *.
    split; [apply ifloor_nonneg; lia |].
    unfold ifloor. destruct (Z.leb_spec 0 (E + 96)).
    + assert (H1 : 2 ^ (E + 96) <= 2 ^ 556) by (apply pow2_le; lia).
      assert (H2 : 0 < 2 ^ (E + 96)) by (apply pow2_pos; lia).
      change (2 ^ 609) with (2 ^ 53 * 2 ^ 556). nia.
    + assert (H2 : 0 < 2 ^ (- (E + 96))) by (apply pow2_pos; lia).
      assert (r / 2 ^ (- (E + 96)) <= r) by (apply Z.div_le_upper_bound; nia).
      assert (2 ^ 53 <= 2 ^ 609) by (apply pow2_le; lia). lia.
  - intros P s [H | H]; exact (sqrtp_nonneg P s H).
  - intros float_pow tick s [H | H]; [| exact (tick_sqrtp_nonneg float_pow tick s H)].
    unfold first_swap.tick_to_sqrtp_x96, first_swap.tick_to_price in H.
    destruct (float_pow f1_0001 tick) as [e | p]; [discriminate |].
    exact (sqrtp_nonneg p s H).
Qed.

Lemma sqrtp_x96_domain_witness :
  exists s, first_swap.price_to_sqrtp_x96 (literal 5000 1) = Ok s /\ 0 <= s <= 2 ^ 609.
Proof.
  destruct sqrtp_x96_domain as (_ & _ & _ & _ & _ & H & _).
  apply (H 5497558138880000%positive (-40)). reflexivity.
Defined.

End SqrtDomain.

(** ** Products are never NaN *)

Section NotNan.
Import F64 rounding.

Lemma shr_m_nonneg (mrs : shr_record) (e n : Z) :
  0 <= shr_m mrs -> 0 <= shr_m (fst (shr mrs e n)).
Proof.
  intros Hm. destruct n as [| p | p]; cbn [shr fst]; try exact Hm.
  apply iter_pos_shr_1_code. exact Hm.
Qed.

Lemma rne_nonneg (m : Z) (l : location) : 0 <= m -> 0 <= round_nearest_even m l.
Proof.
  intros Hm. destruct l as [| []]; cbn [round_nearest_even]; try lia.
  destruct (Z.even m); lia.
Qed.

Lemma bra_not_nan (s : bool) (m e : Z) (l : location) :
  0 <= m -> binary_round_aux prec emax s m e l <> S754_nan.
Proof.
  intros Hm. unfold binary_round_aux, shr_fexp.
  pose proof (shr_m_nonneg (shr_record_of_loc m l) e
                (SpecFloat.fexp prec emax (Zdigits2 m + e) - e)) as H1.
  destruct (shr (shr_record_of_loc m l) e _) as [mrs' e']. cbn [fst] in H1.
  specialize (H1 ltac:(rewrite (proj2 (code_of_loc m l)); exact Hm)).
  pose proof (rne_nonneg (shr_m mrs') (loc_of_shr_record mrs') H1) as H2.
  set (m2 := round_nearest_even (shr_m mrs') (loc_of_shr_record mrs')) in *.
  pose proof (shr_m_nonneg (shr_record_of_loc m2 loc_Exact) e'
                (SpecFloat.fexp prec emax (Zdigits2 m2 + e') - e')) as H3.
  destruct (shr (shr_record_of_loc m2 loc_Exact) e' _) as [mrs'' e'']. cbn [fst] in H3.
  specialize (H3 H2).
  destruct (shr_m mrs'') as [| p | p]; [discriminate | | lia].
  destruct (e'' <=? emax - prec); discriminate.
Qed.

(** The product of two doubles of the same sign: not negative, and NaN
    only for zero times infinity. *)
Lemma mul_same_sign (s : bool) (x y : float) :
  (x = S754_zero s \/ exists m e, x = S754_finite s m e) ->
  (y = S754_zero s \/ exists m e, y = S754_finite s m e) ->
  mul x y = S754_zero false \/ (exists m e, mul x y = S754_finite false m e) \/
  mul x y = S754_infinity false.
Proof.
  intros [-> | (mx & ex & ->)] [-> | (my & ey & ->)]; unfold mul, SFmul;
    rewrite ?Bool.xorb_nilpotent; auto.
  pose proof (bra_not_nan false (Z.pos (mx * my)) (ex + ey) loc_Exact ltac:(lia)) as Hn.
  destruct (bra_shape false (Z.pos (mx * my)) (ex + ey) loc_Exact)
    as [H | [H | [H | H]]]; auto. contradiction.
Qed.

(** The quotient of an integer by a positive integer: zero or finite, with
    the sign of the dividend. *)
Lemma int_truediv_sign (a b : Z) (q : float) :
  0 < b -> int_truediv a b = Ok q ->
  q = S754_zero (a <? 0) \/ exists m e, q = S754_finite (a <? 0) m e.
Proof.
  intros Hb. unfold int_truediv.
  destruct b as [| pb | pb]; [lia | | lia].
  destruct a as [| pa | pa]; [intros [= <-]; eauto | |];
    cbn [Z.abs Z.to_pos Z.ltb Z.compare]; rewrite SFdiv_fin;
    match goal with
    | |- context [round_finish ?s (fst (div_round ?x 0 ?y 0)) _] =>
        destruct (div_round_bounds x 0 y 0) as (Hm & HE & _); [lia | lia |];
        destruct (round_finish_cases s _ _ HE Hm) as [[_ H] | [(p & e & H) | H]];
        rewrite H; try discriminate; intros [= <-]; eauto
    end.
Qed.

(** It fails only when the quotient is too large. *)
Lemma int_truediv_total (a b : Z) :
  0 < b ->
  (exists q, int_truediv a b = Ok q) \/
  int_truediv a b = Raise (OverflowError "integer division result too large for a float").
Proof.
  intros Hb. unfold int_truediv.
  destruct b as [| pb | pb]; [lia | | lia].
  destruct a as [| pa | pa]; [eauto | |];
    match goal with |- context [div ?x ?y] => destruct (div x y); eauto end.
Qed.

End NotNan.

(** ** From the square-root price back to the price *)

Section PriceOfSqrt.
Import F64 rounding first_swap.

Variable libm_log : float -> float.

(** The price the pages display for a square-root price is never negative
    and never NaN, whatever integer the state holds: it is [+0.0] (for the
    integer 0), a positive double or [+inf]; so the tick the pages derive
    from it never fails with a math domain error. *)
Theorem sqrtp_x96_to_price_sign :
  sqrtp_x96_to_price 0 = Ok (S754_zero false) /\
  (forall n, manager_contract.sqrtp_x96_to_price n = sqrtp_x96_to_price n) /\
  (forall n p,
     sqrtp_x96_to_price n = Ok p ->
     (p = S754_zero false \/ (exists m e, p = S754_finite false m e) \/
      p = S754_infinity false) /\
     price_to_tick libm_log p <> Raise MathDomainError).
Proof.
  split; [reflexivity |]. split; [reflexivity |].
  intros n p. unfold sqrtp_x96_to_price.
  destruct (int_truediv n Q96) as [e | s] eqn:Hs; [discriminate |].
  cbv beta iota delta [mbind result_bind Ok]. intros [= <-].
  pose proof (int_truediv_sign n Q96 s Q96_pos Hs) as Hshape.
  assert (Hp : mul s s = S754_zero false \/ (exists m e, mul s s = S754_finite false m e) \/
               mul s s = S754_infinity false)
    by (apply (mul_same_sign (n <? 0)); exact Hshape).
  split; [exact Hp |].
  unfold price_to_tick.
  rewrite ex_f1_0001.
  destruct Hp as [-> | [(m & e & ->) | ->]];
    cbv beta iota delta [leb SFleb SFcompare zero math_log mbind result_bind Ok];
    try discriminate;
    unfold truediv;
    (destruct (libm_log (S754_finite false 4504049987333233 (-52)));
     cbv beta iota delta [mbind result_bind Ok]; try discriminate;
     match goal with |- floor ?x <> _ => destruct x; discriminate end).
Qed.

End PriceOfSqrt.

Lemma sqrtp_x96_to_price_sign_witness :
  first_swap.sqrtp_x96_to_price (2 ^ 96) = Ok F64.one /\
  (F64.one = S754_zero false \/ (exists m e, F64.one = S754_finite false m e) \/
   F64.one = S754_infinity false).
Proof.
  assert (Hrun : first_swap.sqrtp_x96_to_price (2 ^ 96) = Ok F64.one)
    by (vm_compute; reflexivity).
  split; [exact Hrun |].
  destruct (sqrtp_x96_to_price_sign demo.no_log) as (_ & _ & H).
  exact (proj1 (H (2 ^ 96) F64.one Hrun)).
Defined.

(** ** Token.raw *)

Section TokenRaw.
Import F64 rounding manager_contract.

Variable float_pow : float -> Z -> result float.

Lemma to_int_sign (s : bool) (x : float) (t : Z) :
  (x = S754_zero s \/ (exists m e, x = S754_finite s m e) \/ x = S754_infinity s \/
   x = S754_nan) ->
  to_int x = Ok t -> if s then t <= 0 else 0 <= t.
Proof.
  intros [-> | [(m & e & ->) | [-> | ->]]]; cbn; try discriminate; intros [= <-].
  - destruct s; lia.
  - pose proof (mag_floor_nonneg m e). destruct s; lia.
Qed.

(** [Token.raw] keeps the sign of the amount: with non-negative
    [decimals], a human amount that is not negative gives a raw amount
    that is not negative, one that is not positive a raw amount that is not
    positive, and a zero of either sign gives 0. *)
Theorem raw_keeps_sign (self : Token) (human : float) (r : Z) :
  0 <= decimals self ->
  Token_raw float_pow self human = Ok r ->
  (leb zero human = true -> 0 <= r) /\
  (leb human zero = true -> r <= 0).
Proof.
  intros Hd. unfold Token_raw, ten_pow_float.
  destruct (Z.leb_spec 0 (decimals self)) as [_ | Hneg]; [| lia].
  destruct (of_int (10 ^ decimals self)) as [e | q] eqn:Hq; [discriminate |].
  cbv beta iota delta [mbind result_bind Ok]. intros Hr.
  assert (Hten : 0 < 10 ^ decimals self) by (apply Z.pow_pos_nonneg; lia).
  assert (Hsign : forall s,
            (human = S754_zero s \/ (exists m e, human = S754_finite s m e) \/
             human = S754_infinity s) ->
            if s then r <= 0 else 0 <= r).
  { intros s Hh. apply (to_int_sign s (mul human q)); [| exact Hr].
    destruct (of_int_shape _ q Hten Hq) as [-> | [(db & ed & ->) | ->]];
      destruct Hh as [-> | [(m & e & ->) | ->]]; unfold mul, SFmul;
      rewrite ?Bool.xorb_false_r; auto.
    destruct (bra_shape s (Z.pos (m * db)) (e + ed) loc_Exact)
      as [Hb | [Hb | [Hb | Hb]]]; auto. }
  split; intros Hle.
  - destruct human as [s | [] | | [] m e]; try discriminate Hle.
    + assert (r = 0); [| lia].
      destruct (of_int_shape _ q Hten Hq) as [-> | [(db & ed & ->) | ->]];
        cbn in Hr; try discriminate Hr; injection Hr as <-; reflexivity.
    + apply (Hsign false). auto.
    + apply (Hsign false). eauto.
  - destruct human as [s | [] | | [] m e]; try discriminate Hle.
    + assert (r = 0); [| lia].
      destruct (of_int_shape _ q Hten Hq) as [-> | [(db & ed & ->) | ->]];
        cbn in Hr; try discriminate Hr; injection Hr as <-; reflexivity.
    + apply (Hsign true). auto.
    + apply (Hsign true). eauto.
Qed.

End TokenRaw.

Lemma raw_keeps_sign_witness :
  manager_contract.Token_raw demo.float_pow (manager_contract.Token_init "ETH" 18)
    (F64.literal 10 1) = Ok (10 * 10 ^ 18) /\
  0 <= 10 * 10 ^ 18.
Proof.
  assert (Hrun : manager_contract.Token_raw demo.float_pow
                   (manager_contract.Token_init "ETH" 18) (F64.literal 10 1)
                 = Ok (10 * 10 ^ 18)) by (vm_compute; reflexivity).
  split; [exact Hrun |].
  apply (raw_keeps_sign demo.float_pow (manager_contract.Token_init "ETH" 18)
           (F64.literal 10 1) (10 * 10 ^ 18)); [cbn; lia | exact Hrun | reflexivity].
Defined.

(** ** From raw units to human units *)

Section HumanUnits.
Import F64 rounding manager_contract first_swap.

Variable float_pow : float -> Z -> result float.

(** [Token.human] and [to_units] are one function.  With non-negative
    [decimals] it never divides by zero: it returns a zero or a finite
    double with the sign of the raw amount, [+0.0] for 0, or the quotient is
    too large for a float. *)
Theorem human_units_checked (self : Token) (raw_amt : Z) :
  Token_human float_pow self raw_amt = first_swap.to_units float_pow raw_amt (decimals self) /\
  (0 <= decimals self ->
     Token_human float_pow self 0 = Ok (S754_zero false) /\
     ((exists q, Token_human float_pow self raw_amt = Ok q) \/
      Token_human float_pow self raw_amt
        = Raise (OverflowError "integer division result too large for a float")) /\
     (forall q, Token_human float_pow self raw_amt = Ok q ->
        q = S754_zero (raw_amt <? 0) \/ exists m e, q = S754_finite (raw_amt <? 0) m e)).
Proof.
  split; [reflexivity |]. intros Hd. unfold Token_human.
  destruct (Z.leb_spec 0 (decimals self)); [| lia].
  assert (Hten : 0 < 10 ^ decimals self) by (apply Z.pow_pos_nonneg; lia).
  split; [| split].
  - unfold int_truediv. destruct (10 ^ decimals self); [lia | reflexivity | lia].
  - apply int_truediv_total, Hten.
  - intros q. apply int_truediv_sign, Hten.
Qed.

End HumanUnits.

Lemma human_units_checked_witness :
  manager_contract.Token_human demo.float_pow (manager_contract.Token_init "USDC" 6) 0
    = Ok (S754_zero false).
Proof.
  destruct (human_units_checked demo.float_pow (manager_contract.Token_init "USDC" 6) 1)
    as [_ H].
  apply H. cbn. lia.
Defined.

(** * Formatting *)

Section Formatting.
Import pyformat.

Example ex_format_comma :
  format_comma 1234567 = "1,234,567" /\ format_comma (-1234) = "-1,234" /\
  format_comma 999 = "999" /\ format_comma 0 = "0" /\
  format_comma 100000 = "100,000" /\
  first_swap.fmt_int 5602277097478614198912276234240
    = "5_602_277_097_478_614_198_912_276_234_240" /\
  uniswapv3.format_big_diff 5 12 = "-7" /\
  uniswapv3.format_big_diff 12000 5 = "+11,995".
Proof. vm_compute. repeat split. Qed.

Lemma pretty_N_char_digit (x : N) : is_digit (pretty_N_char x) = true.
Proof. destruct x as [| p]; [reflexivity |]. do 4 (try destruct p as [p | p |]); reflexivity. Qed.

Lemma pretty_N_go_digits (x : N) (s : string) :
  digits_only s = true -> digits_only (pretty_N_go x s) = true.
Proof.
  revert s. induction (N.lt_wf_0 x) as [x _ IH]. intros s Hs.
  destruct (N.eq_dec x 0%N) as [-> | Hx].
  - rewrite pretty_N_go_0. exact Hs.
  - rewrite pretty_N_go_step by lia. apply IH.
    + apply N.div_lt; lia.
    + cbn [digits_only]. rewrite pretty_N_char_digit, Hs. reflexivity.
Qed.

Lemma pretty_abs_digits (n : Z) : digits_only (pretty (Z.abs n)) = true.
Proof.
  assert (H : forall p, digits_only (pretty (Z.pos p)) = true).
  { intros p. unfold pretty, pretty_Z, pretty, pretty_positive, pretty, pretty_N.
    destruct (decide (N.pos p = 0%N)); [reflexivity |].
    apply pretty_N_go_digits. reflexivity. }
  destruct n; [reflexivity | apply H | apply H].
Qed.

Lemma group3_replace (a b : Ascii.ascii) (s : string) :
  is_digit a = false -> digits_only s = true ->
  replace_char a b (group3 a s) = group3 b s.
Proof.
  intros Ha. induction s as [| c s IH]; [reflexivity |].
  cbn [digits_only group3 replace_char]. intros [Hc Hs]%andb_prop.
  assert (Hca : Ascii.eqb c a = false).
  { destruct (Ascii.eqb_spec c a) as [-> |]; [congruence | reflexivity]. }
  rewrite Hca. f_equal.
  destruct ((0 <? String.length s)%nat && (String.length s mod 3 =? 0)%nat);
    cbn [replace_char]; rewrite ?Ascii.eqb_refl, (IH Hs); reflexivity.
Qed.

Lemma group3_remove (b : Ascii.ascii) (s : string) :
  is_digit b = false -> digits_only s = true -> remove_char b (group3 b s) = s.
Proof.
  intros Hb. induction s as [| c s IH]; [reflexivity |].
  cbn [digits_only group3 remove_char]. intros [Hc Hs]%andb_prop.
  assert (Hcb : Ascii.eqb c b = false).
  { destruct (Ascii.eqb_spec c b) as [-> |]; [congruence | reflexivity]. }
  rewrite Hcb. f_equal.
  destruct ((0 <? String.length s)%nat && (String.length s mod 3 =? 0)%nat);
    cbn [remove_char]; rewrite ?Ascii.eqb_refl, (IH Hs); reflexivity.
Qed.

Lemma replace_char_app (a b : Ascii.ascii) (s1 s2 : string) :
  replace_char a b (s1 +:+ s2) = replace_char a b s1 +:+ replace_char a b s2.
Proof.
  induction s1 as [| c s1 IH]; [reflexivity |].
  change (String c s1 +:+ s2) with (String c (s1 +:+ s2)).
  cbn [replace_char]. rewrite IH. reflexivity.
Qed.

Lemma remove_char_app (a : Ascii.ascii) (s1 s2 : string) :
  remove_char a (s1 +:+ s2) = remove_char a s1 +:+ remove_char a s2.
Proof.
  induction s1 as [| c s1 IH]; [reflexivity |].
  change (String c s1 +:+ s2) with (String c (s1 +:+ s2)).
  cbn [remove_char]. destruct (Ascii.eqb c a); rewrite IH; reflexivity.
Qed.

Lemma pretty_sign (n : Z) : pretty n = (if n <? 0 then "-" else "") +:+ pretty (Z.abs n).
Proof. destruct n; reflexivity. Qed.

(** The separators of [fmt_int] and [format_int] are only decoration:
    taking them out gives back the decimal numeral of the number, so two
    numbers are displayed alike only when they are equal. *)
Theorem grouped_digits_round_trip (n : Z) :
  remove_char "_"%char (first_swap.fmt_int n) = pretty n /\
  remove_char ","%char (uniswapv3.format_int n) = pretty n /\
  (forall m, first_swap.fmt_int n = first_swap.fmt_int m -> n = m) /\
  (forall m, uniswapv3.format_int n = uniswapv3.format_int m -> n = m).
Proof.
  assert (H1 : forall k, remove_char "_"%char (first_swap.fmt_int k) = pretty k).
  { intros k. unfold first_swap.fmt_int, format_comma. rewrite (pretty_sign k).
    pose proof (pretty_abs_digits k) as Hd.
    rewrite replace_char_app, remove_char_app.
    rewrite group3_replace, group3_remove by (reflexivity || exact Hd).
    destruct (k <? 0); reflexivity. }
  assert (H2 : forall k, remove_char ","%char (uniswapv3.format_int k) = pretty k).
  { intros k. unfold uniswapv3.format_int, format_comma. rewrite (pretty_sign k).
    pose proof (pretty_abs_digits k) as Hd.
    rewrite remove_char_app, group3_remove by (reflexivity || exact Hd).
    destruct (k <? 0); reflexivity. }
  split; [apply H1 |]. split; [apply H2 |]. split.
  - intros m Heq. apply (inj pretty). rewrite <- (H1 n), <- (H1 m), Heq. reflexivity.
  - intros m Heq. apply (inj pretty). rewrite <- (H2 n), <- (H2 m), Heq. reflexivity.
Qed.

Lemma grouped_digits_round_trip_witness :
  first_swap.fmt_int 1234567 = "1_234_567" /\
  remove_char "_"%char (first_swap.fmt_int 1234567) = "1234567" /\
  1234567 = 1234567.
Proof.
  assert (Hrun : first_swap.fmt_int 1234567 = "1_234_567") by (vm_compute; reflexivity).
  destruct (grouped_digits_round_trip 1234567) as (H1 & _ & H3 & _).
  split; [exact Hrun |]. split; [rewrite H1; vm_compute; reflexivity |].
  apply H3. reflexivity.
Defined.

(** [format_big_diff] shows a difference with its sign in front, [+] for
    zero: equal numbers show [+0], and two pairs are shown alike only when
    their differences are equal. *)
Theorem big_diff_shows_difference (a b : Z) :
  uniswapv3.format_big_diff a a = "+0" /\
  (forall c d,
     uniswapv3.format_big_diff a b = uniswapv3.format_big_diff c d ->
     a - b = c - d) /\
  (a <> b -> uniswapv3.format_big_diff a b <> uniswapv3.format_big_diff b a).
Proof.
  assert (Hstrip : forall x y,
            remove_char ","%char (uniswapv3.format_big_diff x y) =
              (if x - y >=? 0 then "+" else "-") +:+ pretty (Z.abs (x - y))).
  { intros x y. unfold uniswapv3.format_big_diff, format_comma. cbv zeta.
    pose proof (pretty_abs_digits (Z.abs (x - y))) as Hd.
    destruct (Z.ltb_spec (Z.abs (x - y)) 0) as [Hneg | _]; [lia |].
    rewrite !remove_char_app, group3_remove by (reflexivity || exact Hd).
    rewrite (Z.abs_eq (Z.abs (x - y))) by apply Z.abs_nonneg.
    destruct (x - y >=? 0); reflexivity. }
  assert (Hinj : forall x y c d,
            uniswapv3.format_big_diff x y = uniswapv3.format_big_diff c d ->
            x - y = c - d).
  { intros x y c d Heq.
    apply (f_equal (remove_char ","%char)) in Heq. rewrite !Hstrip in Heq.
    destruct (Z.geb_spec (x - y) 0), (Z.geb_spec (c - d) 0);
      cbn [String.append] in Heq; try discriminate Heq;
      injection Heq as Heq; apply pretty_Z_inj in Heq; lia. }
  split; [| split].
  - unfold uniswapv3.format_big_diff. rewrite Z.sub_diag. reflexivity.
  - intros c d. apply Hinj.
  - intros Hab Heq. apply Hinj in Heq. lia.
Qed.

Lemma big_diff_shows_difference_witness :
  uniswapv3.format_big_diff 12000 5 = "+11,995" /\ 12000 - 5 = 11996 - 1.
Proof.
  destruct (big_diff_shows_difference 12000 5) as (_ & H & _).
  split; [vm_compute; reflexivity |].
  apply H. vm_compute. reflexivity.
Defined.

End Formatting.
